(** * knowledge_rag: the data-cleaning pipeline of
      experiments/scripts/01_data_processing.py

    A shallow embedding of the chunking engine (text cleaning, sentence
    splitting, overlap-aware chunk assembly, title heuristic, record
    construction for the four file formats, the dispatching main loop) and
    the properties of it that the specification states.

    Conventions.
    - A Python [str] is a list of Unicode code points ([N]); [len] is
      [length].  Literals are written as UTF-8 text and decoded by [u].
    - The module-level constants CHUNK_SIZE, MIN_CHUNK_SIZE and
      OVERLAP_SENTENCES are the fields of a [Config] record that is passed
      explicitly; [default_config] holds the values of the script.
    - The libraries the script calls on files (pdfplumber, pandas, docx,
      open/read, os.walk, os.path) are an environment record [Env] of
      functions giving their answers, exceptions included.
      A frame of pandas carries the index label of each row, since
      process_excel computes the row number from it.
    - The crop box of process_pdf is computed on binary64 floats
      ([PrimFloat]); the crop itself and the extraction of the text are
      pdfplumber's and are modelled from the specification.
    - [print] is modelled by a log that every adapter returns next to its
      records. *)

From Stdlib Require Import PrimFloat.
From Stdlib Require Import Ascii String.
From Stdlib Require Import List NArith ZArith Lia Bool.
From Stdlib Require DecimalNat DecimalFacts.
Import ListNotations.

Set Implicit Arguments.

(* ================================================================== *)
(** * Python strings *)
(* ================================================================== *)

Definition char := N.
Definition str := list char.

Module Utf8.

(** Decoding of the UTF-8 bytes of a literal; used only to write the
    string constants of the script readably. *)
Definition cont (b : N) : N := N.land b 0x3F.

Fixpoint decode (bs : list N) : str :=
  match bs with
  | [] => []
  | b0 :: r0 =>
      if (b0 <? 0x80)%N then b0 :: decode r0
      else if (b0 <? 0xE0)%N then
        match r0 with
        | b1 :: r1 => (N.shiftl (N.land b0 0x1F) 6 + cont b1)%N :: decode r1
        | _ => []
        end
      else if (b0 <? 0xF0)%N then
        match r0 with
        | b1 :: b2 :: r2 =>
            (N.shiftl (N.land b0 0x0F) 12 + N.shiftl (cont b1) 6 + cont b2)%N
              :: decode r2
        | _ => []
        end
      else
        match r0 with
        | b1 :: b2 :: b3 :: r3 =>
            (N.shiftl (N.land b0 0x07) 18 + N.shiftl (cont b1) 12
             + N.shiftl (cont b2) 6 + cont b3)%N :: decode r3
        | _ => []
        end
  end.

(** [text.encode('utf-8')]: [None] stands for UnicodeEncodeError, raised
    on a surrogate code point (no other code point of a [str] fails). *)
Definition encode_char (c : char) : option (list N) :=
  if (c <? 0x80)%N then Some [c]
  else if (c <? 0x800)%N then
    Some [(0xC0 + N.shiftr c 6)%N; (0x80 + N.land c 0x3F)%N]
  else if ((0xD800 <=? c) && (c <=? 0xDFFF))%N then None
  else if (c <? 0x10000)%N then
    Some [(0xE0 + N.shiftr c 12)%N;
          (0x80 + N.land (N.shiftr c 6) 0x3F)%N;
          (0x80 + N.land c 0x3F)%N]
  else if (c <? 0x110000)%N then
    Some [(0xF0 + N.shiftr c 18)%N;
          (0x80 + N.land (N.shiftr c 12) 0x3F)%N;
          (0x80 + N.land (N.shiftr c 6) 0x3F)%N;
          (0x80 + N.land c 0x3F)%N]
  else None.

Fixpoint encode (s : str) : option (list N) :=
  match s with
  | [] => Some []
  | c :: r =>
      match encode_char c, encode r with
      | Some bs, Some rest => Some (bs ++ rest)
      | _, _ => None
      end
  end.

End Utf8.

Fixpoint bytes_of_string (s : string) : list N :=
  match s with
  | EmptyString => []
  | String a r => N_of_ascii a :: bytes_of_string r
  end.

(** A string constant of the script. *)
Definition u (s : string) : str := Utf8.decode (bytes_of_string s).

Definition len (s : str) : nat := length s.

(** [bool(s)] of a string: true unless it is empty. *)
Definition truthy (A : Type) (s : list A) : bool :=
  match s with [] => false | _ :: _ => true end.

Fixpoint str_eqb (a b : str) : bool :=
  match a, b with
  | [], [] => true
  | x :: a', y :: b' => (x =? y)%N && str_eqb a' b'
  | _, _ => false
  end.

Module Unicode.

Fixpoint in_ranges (tbl : list (N * N)) (c : char) : bool :=
  match tbl with
  | [] => false
  | (lo, hi) :: t => ((lo <=? c) && (c <=? hi))%N || in_ranges t c
  end.

(** [str.isspace] of one character, which is also the class [\s] of [re]
    on str patterns. *)
Definition space_table : list (N * N) :=
  [ (0x09, 0x0D); (0x1C, 0x20); (0x85, 0x85); (0xA0, 0xA0);
    (0x1680, 0x1680); (0x2000, 0x200A); (0x2028, 0x2029);
    (0x202F, 0x202F); (0x205F, 0x205F); (0x3000, 0x3000) ]%N.

Definition isspace (c : char) : bool := in_ranges space_table c.

(** The code points on which [str.isprintable] is false, U+0020 added:
    those of the general categories Other (Cc, Cf, Cs, Co and the
    unassigned Cn) and Separator (Zs, Zl, Zp) of Unicode 14.0, the
    version of the character database of Python 3.11. *)
Definition other_or_separator_table : list (N * N) :=
  [ (0x0, 0x20); (0x7F, 0xA0); (0xAD, 0xAD); (0x378, 0x379);
    (0x380, 0x383); (0x38B, 0x38B); (0x38D, 0x38D); (0x3A2, 0x3A2);
    (0x530, 0x530); (0x557, 0x558); (0x58B, 0x58C); (0x590, 0x590);
    (0x5C8, 0x5CF); (0x5EB, 0x5EE); (0x5F5, 0x605); (0x61C, 0x61C);
    (0x6DD, 0x6DD); (0x70E, 0x70F); (0x74B, 0x74C); (0x7B2, 0x7BF);
    (0x7FB, 0x7FC); (0x82E, 0x82F); (0x83F, 0x83F); (0x85C, 0x85D);
    (0x85F, 0x85F); (0x86B, 0x86F); (0x88F, 0x897); (0x8E2, 0x8E2);
    (0x984, 0x984); (0x98D, 0x98E); (0x991, 0x992); (0x9A9, 0x9A9);
    (0x9B1, 0x9B1); (0x9B3, 0x9B5); (0x9BA, 0x9BB); (0x9C5, 0x9C6);
    (0x9C9, 0x9CA); (0x9CF, 0x9D6); (0x9D8, 0x9DB); (0x9DE, 0x9DE);
    (0x9E4, 0x9E5); (0x9FF, 0xA00); (0xA04, 0xA04); (0xA0B, 0xA0E);
    (0xA11, 0xA12); (0xA29, 0xA29); (0xA31, 0xA31); (0xA34, 0xA34);
    (0xA37, 0xA37); (0xA3A, 0xA3B); (0xA3D, 0xA3D); (0xA43, 0xA46);
    (0xA49, 0xA4A); (0xA4E, 0xA50); (0xA52, 0xA58); (0xA5D, 0xA5D);
    (0xA5F, 0xA65); (0xA77, 0xA80); (0xA84, 0xA84); (0xA8E, 0xA8E);
    (0xA92, 0xA92); (0xAA9, 0xAA9); (0xAB1, 0xAB1); (0xAB4, 0xAB4);
    (0xABA, 0xABB); (0xAC6, 0xAC6); (0xACA, 0xACA); (0xACE, 0xACF);
    (0xAD1, 0xADF); (0xAE4, 0xAE5); (0xAF2, 0xAF8); (0xB00, 0xB00);
    (0xB04, 0xB04); (0xB0D, 0xB0E); (0xB11, 0xB12); (0xB29, 0xB29);
    (0xB31, 0xB31); (0xB34, 0xB34); (0xB3A, 0xB3B); (0xB45, 0xB46);
    (0xB49, 0xB4A); (0xB4E, 0xB54); (0xB58, 0xB5B); (0xB5E, 0xB5E);
    (0xB64, 0xB65); (0xB78, 0xB81); (0xB84, 0xB84); (0xB8B, 0xB8D);
    (0xB91, 0xB91); (0xB96, 0xB98); (0xB9B, 0xB9B); (0xB9D, 0xB9D);
    (0xBA0, 0xBA2); (0xBA5, 0xBA7); (0xBAB, 0xBAD); (0xBBA, 0xBBD);
    (0xBC3, 0xBC5); (0xBC9, 0xBC9); (0xBCE, 0xBCF); (0xBD1, 0xBD6);
    (0xBD8, 0xBE5); (0xBFB, 0xBFF); (0xC0D, 0xC0D); (0xC11, 0xC11);
    (0xC29, 0xC29); (0xC3A, 0xC3B); (0xC45, 0xC45); (0xC49, 0xC49);
    (0xC4E, 0xC54); (0xC57, 0xC57); (0xC5B, 0xC5C); (0xC5E, 0xC5F);
    (0xC64, 0xC65); (0xC70, 0xC76); (0xC8D, 0xC8D); (0xC91, 0xC91);
    (0xCA9, 0xCA9); (0xCB4, 0xCB4); (0xCBA, 0xCBB); (0xCC5, 0xCC5);
    (0xCC9, 0xCC9); (0xCCE, 0xCD4); (0xCD7, 0xCDC); (0xCDF, 0xCDF);
    (0xCE4, 0xCE5); (0xCF0, 0xCF0); (0xCF3, 0xCFF); (0xD0D, 0xD0D);
    (0xD11, 0xD11); (0xD45, 0xD45); (0xD49, 0xD49); (0xD50, 0xD53);
    (0xD64, 0xD65); (0xD80, 0xD80); (0xD84, 0xD84); (0xD97, 0xD99);
    (0xDB2, 0xDB2); (0xDBC, 0xDBC); (0xDBE, 0xDBF); (0xDC7, 0xDC9);
    (0xDCB, 0xDCE); (0xDD5, 0xDD5); (0xDD7, 0xDD7); (0xDE0, 0xDE5);
    (0xDF0, 0xDF1); (0xDF5, 0xE00); (0xE3B, 0xE3E); (0xE5C, 0xE80);
    (0xE83, 0xE83); (0xE85, 0xE85); (0xE8B, 0xE8B); (0xEA4, 0xEA4);
    (0xEA6, 0xEA6); (0xEBE, 0xEBF); (0xEC5, 0xEC5); (0xEC7, 0xEC7);
    (0xECE, 0xECF); (0xEDA, 0xEDB); (0xEE0, 0xEFF); (0xF48, 0xF48);
    (0xF6D, 0xF70); (0xF98, 0xF98); (0xFBD, 0xFBD); (0xFCD, 0xFCD);
    (0xFDB, 0xFFF); (0x10C6, 0x10C6); (0x10C8, 0x10CC); (0x10CE, 0x10CF);
    (0x1249, 0x1249); (0x124E, 0x124F); (0x1257, 0x1257); (0x1259, 0x1259);
    (0x125E, 0x125F); (0x1289, 0x1289); (0x128E, 0x128F); (0x12B1, 0x12B1);
    (0x12B6, 0x12B7); (0x12BF, 0x12BF); (0x12C1, 0x12C1); (0x12C6, 0x12C7);
    (0x12D7, 0x12D7); (0x1311, 0x1311); (0x1316, 0x1317); (0x135B, 0x135C);
    (0x137D, 0x137F); (0x139A, 0x139F); (0x13F6, 0x13F7); (0x13FE, 0x13FF);
    (0x1680, 0x1680); (0x169D, 0x169F); (0x16F9, 0x16FF); (0x1716, 0x171E);
    (0x1737, 0x173F); (0x1754, 0x175F); (0x176D, 0x176D); (0x1771, 0x1771);
    (0x1774, 0x177F); (0x17DE, 0x17DF); (0x17EA, 0x17EF); (0x17FA, 0x17FF);
    (0x180E, 0x180E); (0x181A, 0x181F); (0x1879, 0x187F); (0x18AB, 0x18AF);
    (0x18F6, 0x18FF); (0x191F, 0x191F); (0x192C, 0x192F); (0x193C, 0x193F);
    (0x1941, 0x1943); (0x196E, 0x196F); (0x1975, 0x197F); (0x19AC, 0x19AF);
    (0x19CA, 0x19CF); (0x19DB, 0x19DD); (0x1A1C, 0x1A1D); (0x1A5F, 0x1A5F);
    (0x1A7D, 0x1A7E); (0x1A8A, 0x1A8F); (0x1A9A, 0x1A9F); (0x1AAE, 0x1AAF);
    (0x1ACF, 0x1AFF); (0x1B4D, 0x1B4F); (0x1B7F, 0x1B7F); (0x1BF4, 0x1BFB);
    (0x1C38, 0x1C3A); (0x1C4A, 0x1C4C); (0x1C89, 0x1C8F); (0x1CBB, 0x1CBC);
    (0x1CC8, 0x1CCF); (0x1CFB, 0x1CFF); (0x1F16, 0x1F17); (0x1F1E, 0x1F1F);
    (0x1F46, 0x1F47); (0x1F4E, 0x1F4F); (0x1F58, 0x1F58); (0x1F5A, 0x1F5A);
    (0x1F5C, 0x1F5C); (0x1F5E, 0x1F5E); (0x1F7E, 0x1F7F); (0x1FB5, 0x1FB5);
    (0x1FC5, 0x1FC5); (0x1FD4, 0x1FD5); (0x1FDC, 0x1FDC); (0x1FF0, 0x1FF1);
    (0x1FF5, 0x1FF5); (0x1FFF, 0x200F); (0x2028, 0x202F); (0x205F, 0x206F);
    (0x2072, 0x2073); (0x208F, 0x208F); (0x209D, 0x209F); (0x20C1, 0x20CF);
    (0x20F1, 0x20FF); (0x218C, 0x218F); (0x2427, 0x243F); (0x244B, 0x245F);
    (0x2B74, 0x2B75); (0x2B96, 0x2B96); (0x2CF4, 0x2CF8); (0x2D26, 0x2D26);
    (0x2D28, 0x2D2C); (0x2D2E, 0x2D2F); (0x2D68, 0x2D6E); (0x2D71, 0x2D7E);
    (0x2D97, 0x2D9F); (0x2DA7, 0x2DA7); (0x2DAF, 0x2DAF); (0x2DB7, 0x2DB7);
    (0x2DBF, 0x2DBF); (0x2DC7, 0x2DC7); (0x2DCF, 0x2DCF); (0x2DD7, 0x2DD7);
    (0x2DDF, 0x2DDF); (0x2E5E, 0x2E7F); (0x2E9A, 0x2E9A); (0x2EF4, 0x2EFF);
    (0x2FD6, 0x2FEF); (0x2FFC, 0x3000); (0x3040, 0x3040); (0x3097, 0x3098);
    (0x3100, 0x3104); (0x3130, 0x3130); (0x318F, 0x318F); (0x31E4, 0x31EF);
    (0x321F, 0x321F); (0xA48D, 0xA48F); (0xA4C7, 0xA4CF); (0xA62C, 0xA63F);
    (0xA6F8, 0xA6FF); (0xA7CB, 0xA7CF); (0xA7D2, 0xA7D2); (0xA7D4, 0xA7D4);
    (0xA7DA, 0xA7F1); (0xA82D, 0xA82F); (0xA83A, 0xA83F); (0xA878, 0xA87F);
    (0xA8C6, 0xA8CD); (0xA8DA, 0xA8DF); (0xA954, 0xA95E); (0xA97D, 0xA97F);
    (0xA9CE, 0xA9CE); (0xA9DA, 0xA9DD); (0xA9FF, 0xA9FF); (0xAA37, 0xAA3F);
    (0xAA4E, 0xAA4F); (0xAA5A, 0xAA5B); (0xAAC3, 0xAADA); (0xAAF7, 0xAB00);
    (0xAB07, 0xAB08); (0xAB0F, 0xAB10); (0xAB17, 0xAB1F); (0xAB27, 0xAB27);
    (0xAB2F, 0xAB2F); (0xAB6C, 0xAB6F); (0xABEE, 0xABEF); (0xABFA, 0xABFF);
    (0xD7A4, 0xD7AF); (0xD7C7, 0xD7CA); (0xD7FC, 0xF8FF); (0xFA6E, 0xFA6F);
    (0xFADA, 0xFAFF); (0xFB07, 0xFB12); (0xFB18, 0xFB1C); (0xFB37, 0xFB37);
    (0xFB3D, 0xFB3D); (0xFB3F, 0xFB3F); (0xFB42, 0xFB42); (0xFB45, 0xFB45);
    (0xFBC3, 0xFBD2); (0xFD90, 0xFD91); (0xFDC8, 0xFDCE); (0xFDD0, 0xFDEF);
    (0xFE1A, 0xFE1F); (0xFE53, 0xFE53); (0xFE67, 0xFE67); (0xFE6C, 0xFE6F);
    (0xFE75, 0xFE75); (0xFEFD, 0xFF00); (0xFFBF, 0xFFC1); (0xFFC8, 0xFFC9);
    (0xFFD0, 0xFFD1); (0xFFD8, 0xFFD9); (0xFFDD, 0xFFDF); (0xFFE7, 0xFFE7);
    (0xFFEF, 0xFFFB); (0xFFFE, 0xFFFF); (0x1000C, 0x1000C);
    (0x10027, 0x10027); (0x1003B, 0x1003B); (0x1003E, 0x1003E);
    (0x1004E, 0x1004F); (0x1005E, 0x1007F); (0x100FB, 0x100FF);
    (0x10103, 0x10106); (0x10134, 0x10136); (0x1018F, 0x1018F);
    (0x1019D, 0x1019F); (0x101A1, 0x101CF); (0x101FE, 0x1027F);
    (0x1029D, 0x1029F); (0x102D1, 0x102DF); (0x102FC, 0x102FF);
    (0x10324, 0x1032C); (0x1034B, 0x1034F); (0x1037B, 0x1037F);
    (0x1039E, 0x1039E); (0x103C4, 0x103C7); (0x103D6, 0x103FF);
    (0x1049E, 0x1049F); (0x104AA, 0x104AF); (0x104D4, 0x104D7);
    (0x104FC, 0x104FF); (0x10528, 0x1052F); (0x10564, 0x1056E);
    (0x1057B, 0x1057B); (0x1058B, 0x1058B); (0x10593, 0x10593);
    (0x10596, 0x10596); (0x105A2, 0x105A2); (0x105B2, 0x105B2);
    (0x105BA, 0x105BA); (0x105BD, 0x105FF); (0x10737, 0x1073F);
    (0x10756, 0x1075F); (0x10768, 0x1077F); (0x10786, 0x10786);
    (0x107B1, 0x107B1); (0x107BB, 0x107FF); (0x10806, 0x10807);
    (0x10809, 0x10809); (0x10836, 0x10836); (0x10839, 0x1083B);
    (0x1083D, 0x1083E); (0x10856, 0x10856); (0x1089F, 0x108A6);
    (0x108B0, 0x108DF); (0x108F3, 0x108F3); (0x108F6, 0x108FA);
    (0x1091C, 0x1091E); (0x1093A, 0x1093E); (0x10940, 0x1097F);
    (0x109B8, 0x109BB); (0x109D0, 0x109D1); (0x10A04, 0x10A04);
    (0x10A07, 0x10A0B); (0x10A14, 0x10A14); (0x10A18, 0x10A18);
    (0x10A36, 0x10A37); (0x10A3B, 0x10A3E); (0x10A49, 0x10A4F);
    (0x10A59, 0x10A5F); (0x10AA0, 0x10ABF); (0x10AE7, 0x10AEA);
    (0x10AF7, 0x10AFF); (0x10B36, 0x10B38); (0x10B56, 0x10B57);
    (0x10B73, 0x10B77); (0x10B92, 0x10B98); (0x10B9D, 0x10BA8);
    (0x10BB0, 0x10BFF); (0x10C49, 0x10C7F); (0x10CB3, 0x10CBF);
    (0x10CF3, 0x10CF9); (0x10D28, 0x10D2F); (0x10D3A, 0x10E5F);
    (0x10E7F, 0x10E7F); (0x10EAA, 0x10EAA); (0x10EAE, 0x10EAF);
    (0x10EB2, 0x10EFF); (0x10F28, 0x10F2F); (0x10F5A, 0x10F6F);
    (0x10F8A, 0x10FAF); (0x10FCC, 0x10FDF); (0x10FF7, 0x10FFF);
    (0x1104E, 0x11051); (0x11076, 0x1107E); (0x110BD, 0x110BD);
    (0x110C3, 0x110CF); (0x110E9, 0x110EF); (0x110FA, 0x110FF);
    (0x11135, 0x11135); (0x11148, 0x1114F); (0x11177, 0x1117F);
    (0x111E0, 0x111E0); (0x111F5, 0x111FF); (0x11212, 0x11212);
    (0x1123F, 0x1127F); (0x11287, 0x11287); (0x11289, 0x11289);
    (0x1128E, 0x1128E); (0x1129E, 0x1129E); (0x112AA, 0x112AF);
    (0x112EB, 0x112EF); (0x112FA, 0x112FF); (0x11304, 0x11304);
    (0x1130D, 0x1130E); (0x11311, 0x11312); (0x11329, 0x11329);
    (0x11331, 0x11331); (0x11334, 0x11334); (0x1133A, 0x1133A);
    (0x11345, 0x11346); (0x11349, 0x1134A); (0x1134E, 0x1134F);
    (0x11351, 0x11356); (0x11358, 0x1135C); (0x11364, 0x11365);
    (0x1136D, 0x1136F); (0x11375, 0x113FF); (0x1145C, 0x1145C);
    (0x11462, 0x1147F); (0x114C8, 0x114CF); (0x114DA, 0x1157F);
    (0x115B6, 0x115B7); (0x115DE, 0x115FF); (0x11645, 0x1164F);
    (0x1165A, 0x1165F); (0x1166D, 0x1167F); (0x116BA, 0x116BF);
    (0x116CA, 0x116FF); (0x1171B, 0x1171C); (0x1172C, 0x1172F);
    (0x11747, 0x117FF); (0x1183C, 0x1189F); (0x118F3, 0x118FE);
    (0x11907, 0x11908); (0x1190A, 0x1190B); (0x11914, 0x11914);
    (0x11917, 0x11917); (0x11936, 0x11936); (0x11939, 0x1193A);
    (0x11947, 0x1194F); (0x1195A, 0x1199F); (0x119A8, 0x119A9);
    (0x119D8, 0x119D9); (0x119E5, 0x119FF); (0x11A48, 0x11A4F);
    (0x11AA3, 0x11AAF); (0x11AF9, 0x11BFF); (0x11C09, 0x11C09);
    (0x11C37, 0x11C37); (0x11C46, 0x11C4F); (0x11C6D, 0x11C6F);
    (0x11C90, 0x11C91); (0x11CA8, 0x11CA8); (0x11CB7, 0x11CFF);
    (0x11D07, 0x11D07); (0x11D0A, 0x11D0A); (0x11D37, 0x11D39);
    (0x11D3B, 0x11D3B); (0x11D3E, 0x11D3E); (0x11D48, 0x11D4F);
    (0x11D5A, 0x11D5F); (0x11D66, 0x11D66); (0x11D69, 0x11D69);
    (0x11D8F, 0x11D8F); (0x11D92, 0x11D92); (0x11D99, 0x11D9F);
    (0x11DAA, 0x11EDF); (0x11EF9, 0x11FAF); (0x11FB1, 0x11FBF);
    (0x11FF2, 0x11FFE); (0x1239A, 0x123FF); (0x1246F, 0x1246F);
    (0x12475, 0x1247F); (0x12544, 0x12F8F); (0x12FF3, 0x12FFF);
    (0x1342F, 0x143FF); (0x14647, 0x167FF); (0x16A39, 0x16A3F);
    (0x16A5F, 0x16A5F); (0x16A6A, 0x16A6D); (0x16ABF, 0x16ABF);
    (0x16ACA, 0x16ACF); (0x16AEE, 0x16AEF); (0x16AF6, 0x16AFF);
    (0x16B46, 0x16B4F); (0x16B5A, 0x16B5A); (0x16B62, 0x16B62);
    (0x16B78, 0x16B7C); (0x16B90, 0x16E3F); (0x16E9B, 0x16EFF);
    (0x16F4B, 0x16F4E); (0x16F88, 0x16F8E); (0x16FA0, 0x16FDF);
    (0x16FE5, 0x16FEF); (0x16FF2, 0x16FFF); (0x187F8, 0x187FF);
    (0x18CD6, 0x18CFF); (0x18D09, 0x1AFEF); (0x1AFF4, 0x1AFF4);
    (0x1AFFC, 0x1AFFC); (0x1AFFF, 0x1AFFF); (0x1B123, 0x1B14F);
    (0x1B153, 0x1B163); (0x1B168, 0x1B16F); (0x1B2FC, 0x1BBFF);
    (0x1BC6B, 0x1BC6F); (0x1BC7D, 0x1BC7F); (0x1BC89, 0x1BC8F);
    (0x1BC9A, 0x1BC9B); (0x1BCA0, 0x1CEFF); (0x1CF2E, 0x1CF2F);
    (0x1CF47, 0x1CF4F); (0x1CFC4, 0x1CFFF); (0x1D0F6, 0x1D0FF);
    (0x1D127, 0x1D128); (0x1D173, 0x1D17A); (0x1D1EB, 0x1D1FF);
    (0x1D246, 0x1D2DF); (0x1D2F4, 0x1D2FF); (0x1D357, 0x1D35F);
    (0x1D379, 0x1D3FF); (0x1D455, 0x1D455); (0x1D49D, 0x1D49D);
    (0x1D4A0, 0x1D4A1); (0x1D4A3, 0x1D4A4); (0x1D4A7, 0x1D4A8);
    (0x1D4AD, 0x1D4AD); (0x1D4BA, 0x1D4BA); (0x1D4BC, 0x1D4BC);
    (0x1D4C4, 0x1D4C4); (0x1D506, 0x1D506); (0x1D50B, 0x1D50C);
    (0x1D515, 0x1D515); (0x1D51D, 0x1D51D); (0x1D53A, 0x1D53A);
    (0x1D53F, 0x1D53F); (0x1D545, 0x1D545); (0x1D547, 0x1D549);
    (0x1D551, 0x1D551); (0x1D6A6, 0x1D6A7); (0x1D7CC, 0x1D7CD);
    (0x1DA8C, 0x1DA9A); (0x1DAA0, 0x1DAA0); (0x1DAB0, 0x1DEFF);
    (0x1DF1F, 0x1DFFF); (0x1E007, 0x1E007); (0x1E019, 0x1E01A);
    (0x1E022, 0x1E022); (0x1E025, 0x1E025); (0x1E02B, 0x1E0FF);
    (0x1E12D, 0x1E12F); (0x1E13E, 0x1E13F); (0x1E14A, 0x1E14D);
    (0x1E150, 0x1E28F); (0x1E2AF, 0x1E2BF); (0x1E2FA, 0x1E2FE);
    (0x1E300, 0x1E7DF); (0x1E7E7, 0x1E7E7); (0x1E7EC, 0x1E7EC);
    (0x1E7EF, 0x1E7EF); (0x1E7FF, 0x1E7FF); (0x1E8C5, 0x1E8C6);
    (0x1E8D7, 0x1E8FF); (0x1E94C, 0x1E94F); (0x1E95A, 0x1E95D);
    (0x1E960, 0x1EC70); (0x1ECB5, 0x1ED00); (0x1ED3E, 0x1EDFF);
    (0x1EE04, 0x1EE04); (0x1EE20, 0x1EE20); (0x1EE23, 0x1EE23);
    (0x1EE25, 0x1EE26); (0x1EE28, 0x1EE28); (0x1EE33, 0x1EE33);
    (0x1EE38, 0x1EE38); (0x1EE3A, 0x1EE3A); (0x1EE3C, 0x1EE41);
    (0x1EE43, 0x1EE46); (0x1EE48, 0x1EE48); (0x1EE4A, 0x1EE4A);
    (0x1EE4C, 0x1EE4C); (0x1EE50, 0x1EE50); (0x1EE53, 0x1EE53);
    (0x1EE55, 0x1EE56); (0x1EE58, 0x1EE58); (0x1EE5A, 0x1EE5A);
    (0x1EE5C, 0x1EE5C); (0x1EE5E, 0x1EE5E); (0x1EE60, 0x1EE60);
    (0x1EE63, 0x1EE63); (0x1EE65, 0x1EE66); (0x1EE6B, 0x1EE6B);
    (0x1EE73, 0x1EE73); (0x1EE78, 0x1EE78); (0x1EE7D, 0x1EE7D);
    (0x1EE7F, 0x1EE7F); (0x1EE8A, 0x1EE8A); (0x1EE9C, 0x1EEA0);
    (0x1EEA4, 0x1EEA4); (0x1EEAA, 0x1EEAA); (0x1EEBC, 0x1EEEF);
    (0x1EEF2, 0x1EFFF); (0x1F02C, 0x1F02F); (0x1F094, 0x1F09F);
    (0x1F0AF, 0x1F0B0); (0x1F0C0, 0x1F0C0); (0x1F0D0, 0x1F0D0);
    (0x1F0F6, 0x1F0FF); (0x1F1AE, 0x1F1E5); (0x1F203, 0x1F20F);
    (0x1F23C, 0x1F23F); (0x1F249, 0x1F24F); (0x1F252, 0x1F25F);
    (0x1F266, 0x1F2FF); (0x1F6D8, 0x1F6DC); (0x1F6ED, 0x1F6EF);
    (0x1F6FD, 0x1F6FF); (0x1F774, 0x1F77F); (0x1F7D9, 0x1F7DF);
    (0x1F7EC, 0x1F7EF); (0x1F7F1, 0x1F7FF); (0x1F80C, 0x1F80F);
    (0x1F848, 0x1F84F); (0x1F85A, 0x1F85F); (0x1F888, 0x1F88F);
    (0x1F8AE, 0x1F8AF); (0x1F8B2, 0x1F8FF); (0x1FA54, 0x1FA5F);
    (0x1FA6E, 0x1FA6F); (0x1FA75, 0x1FA77); (0x1FA7D, 0x1FA7F);
    (0x1FA87, 0x1FA8F); (0x1FAAD, 0x1FAAF); (0x1FABB, 0x1FABF);
    (0x1FAC6, 0x1FACF); (0x1FADA, 0x1FADF); (0x1FAE8, 0x1FAEF);
    (0x1FAF7, 0x1FAFF); (0x1FB93, 0x1FB93); (0x1FBCB, 0x1FBEF);
    (0x1FBFA, 0x1FFFF); (0x2A6E0, 0x2A6FF); (0x2B739, 0x2B73F);
    (0x2B81E, 0x2B81F); (0x2CEA2, 0x2CEAF); (0x2EBE1, 0x2F7FF);
    (0x2FA1E, 0x2FFFF); (0x3134B, 0xE00FF); (0xE01F0, 0x10FFFF) ]%N.

Definition isprintable (c : char) : bool :=
  (c =? 0x20)%N || negb (in_ranges other_or_separator_table c).

(** The class [\d] of [re] on str patterns: the decimal digits (Nd) of
    Unicode 14. *)
Definition digit_table : list (N * N) :=
  [ (0x30, 0x39); (0x660, 0x669); (0x6F0, 0x6F9); (0x7C0, 0x7C9);
    (0x966, 0x96F); (0x9E6, 0x9EF); (0xA66, 0xA6F); (0xAE6, 0xAEF);
    (0xB66, 0xB6F); (0xBE6, 0xBEF); (0xC66, 0xC6F); (0xCE6, 0xCEF);
    (0xD66, 0xD6F); (0xDE6, 0xDEF); (0xE50, 0xE59); (0xED0, 0xED9);
    (0xF20, 0xF29); (0x1040, 0x1049); (0x1090, 0x1099);
    (0x17E0, 0x17E9); (0x1810, 0x1819); (0x1946, 0x194F);
    (0x19D0, 0x19D9); (0x1A80, 0x1A89); (0x1A90, 0x1A99);
    (0x1B50, 0x1B59); (0x1BB0, 0x1BB9); (0x1C40, 0x1C49);
    (0x1C50, 0x1C59); (0xA620, 0xA629); (0xA8D0, 0xA8D9);
    (0xA900, 0xA909); (0xA9D0, 0xA9D9); (0xA9F0, 0xA9F9);
    (0xAA50, 0xAA59); (0xABF0, 0xABF9); (0xFF10, 0xFF19);
    (0x104A0, 0x104A9); (0x10D30, 0x10D39); (0x11066, 0x1106F);
    (0x110F0, 0x110F9); (0x11136, 0x1113F); (0x111D0, 0x111D9);
    (0x112F0, 0x112F9); (0x11450, 0x11459); (0x114D0, 0x114D9);
    (0x11650, 0x11659); (0x116C0, 0x116C9); (0x11730, 0x11739);
    (0x118E0, 0x118E9); (0x11950, 0x11959); (0x11C50, 0x11C59);
    (0x11D50, 0x11D59); (0x11DA0, 0x11DA9); (0x16A60, 0x16A69);
    (0x16AC0, 0x16AC9); (0x16B50, 0x16B59); (0x1D7CE, 0x1D7FF);
    (0x1E140, 0x1E149); (0x1E2F0, 0x1E2F9); (0x1E950, 0x1E959);
    (0x1FBF0, 0x1FBF9) ]%N.

Definition isdigit_re (c : char) : bool := in_ranges digit_table c.

(** The line boundaries of [str.splitlines]. *)
Definition islinebreak (c : char) : bool :=
  in_ranges [ (0x0A, 0x0D); (0x1C, 0x1E); (0x85, 0x85);
              (0x2028, 0x2029) ]%N c.

End Unicode.

Import Unicode.

(** [s.lstrip()], [s.rstrip()], [s.strip()] *)
Fixpoint lstrip (s : str) : str :=
  match s with
  | [] => []
  | c :: r => if isspace c then lstrip r else s
  end.

Definition rstrip (s : str) : str := rev (lstrip (rev s)).

Definition strip (s : str) : str := rstrip (lstrip s).

(* ================================================================== *)
(** * clean_text_basic *)
(* ================================================================== *)

(** [re.sub(r'\s+', ' ', text)]: every maximal run of whitespace becomes
    one U+0020.  [in_run] tells that the previous character belonged to a
    run that has already been replaced. *)
Fixpoint re_sub_spaces_from (in_run : bool) (text : str) : str :=
  match text with
  | [] => []
  | c :: r =>
      if isspace c
      then (if in_run then re_sub_spaces_from true r
            else 0x20%N :: re_sub_spaces_from true r)
      else c :: re_sub_spaces_from false r
  end.

Definition re_sub_spaces (text : str) : str := re_sub_spaces_from false text.

Definition clean_text_basic (text : str) : str :=
  if negb (truthy text) then []
  else
    let text := re_sub_spaces text in
    let text := filter isprintable text in
    strip text.

(* ================================================================== *)
(** * split_sentences *)
(* ================================================================== *)

Definition FULL_STOP : char := 0x3002%N.        (* 。 *)
Definition EXCLAMATION : char := 0xFF01%N.      (* ！ *)
Definition QUESTION : char := 0xFF1F%N.         (* ？ *)
Definition NEWLINE : char := 0x0A%N.

(** The class [。！？] of the anchor pattern. *)
Definition is_terminator (c : char) : bool :=
  ((c =? FULL_STOP) || (c =? EXCLAMATION) || (c =? QUESTION))%N.

(** The class [。！？\n] of [pattern]. *)
Definition is_boundary (c : char) : bool :=
  is_terminator c || (c =? NEWLINE)%N.

(** [re.split(pattern, text)] with the one capture group of [pattern]: the
    pieces between the matches alternate with the matched characters. *)
Fixpoint re_split_from (piece : str) (text : str) : list str :=
  match text with
  | [] => [piece]
  | c :: r =>
      if is_boundary c then piece :: [c] :: re_split_from [] r
      else re_split_from (piece ++ [c]) r
  end.

Definition re_split (text : str) : list str := re_split_from [] text.

(** [re.match(pattern, part)] as a truth value: [part] begins with a
    boundary character. *)
Definition re_match_boundary (part : str) : bool :=
  match part with
  | c :: _ => is_boundary c
  | [] => false
  end.

(** One turn of [for part in parts], on the pair (sentences, current_sent). *)
Definition split_step (st : list str * str) (part : str) : list str * str :=
  let '(sentences, current_sent) := st in
  let current_sent := current_sent ++ part in
  if re_match_boundary part
  then (sentences ++ [strip current_sent], [])
  else (sentences, current_sent).

Definition split_sentences (text : str) : list str :=
  let parts := re_split text in
  let '(sentences, current_sent) := fold_left split_step parts ([], []) in
  let sentences :=
    if truthy current_sent then sentences ++ [strip current_sent]
    else sentences in
  filter (@truthy char) sentences.

(* ================================================================== *)
(** * Configuration *)
(* ================================================================== *)

(** The module-level constants the chunking code reads. *)
Record Config := {
  CHUNK_SIZE : nat;
  MIN_CHUNK_SIZE : nat;
  OVERLAP_SENTENCES : nat
}.

Definition default_config : Config :=
  {| CHUNK_SIZE := 500; MIN_CHUNK_SIZE := 50; OVERLAP_SENTENCES := 2 |}.

(* ================================================================== *)
(** * semantic_chunking *)
(* ================================================================== *)

(** ["".join(l)] *)
Definition join (l : list str) : str := concat l.

(** [l[-n:]]: the last [n] elements, all of [l] when it has fewer; and all
    of [l] when [n] is 0, since [-0] is [0]. *)
Definition slice_last (A : Type) (n : nat) (l : list A) : list A :=
  if n =? 0 then l else skipn (length l - n) l.

(** [sum(len(s) for s in l)] *)
Definition sum_len (l : list str) : nat :=
  fold_right (fun s acc => len s + acc) 0 l.

Record chunk_state := {
  chunks : list str;
  current_chunk : list str;
  current_len : nat
}.

(** One turn of [for i, sent in enumerate(sentences)]. *)
Definition chunk_step (cfg : Config) (chunk_size : nat)
    (st : chunk_state) (sent : str) : chunk_state :=
  let sent_len := len sent in
  let st :=
    if (chunk_size <? current_len st + sent_len) && (0 <? current_len st)
    then
      let full_chunk_text := join (current_chunk st) in
      let overlap_data :=
        if OVERLAP_SENTENCES cfg <=? length (current_chunk st)
        then slice_last (OVERLAP_SENTENCES cfg) (current_chunk st)
        else current_chunk st in
      {| chunks := chunks st ++ [full_chunk_text];
         current_chunk := overlap_data;
         current_len := sum_len overlap_data |}
    else st in
  {| chunks := chunks st;
     current_chunk := current_chunk st ++ [sent];
     current_len := current_len st + sent_len |}.

(** The body of [semantic_chunking] after the call of [split_sentences]:
    the loop and the flush of the last chunk. *)
Definition assemble_chunks (cfg : Config) (chunk_size : nat)
    (sentences : list str) : list str :=
  let st :=
    fold_left (chunk_step cfg chunk_size) sentences
      {| chunks := []; current_chunk := []; current_len := 0 |} in
  if truthy (current_chunk st)
  then chunks st ++ [join (current_chunk st)]
  else chunks st.

Definition semantic_chunking (cfg : Config) (text : str) (chunk_size : nat)
  : list str :=
  let sentences := split_sentences text in
  assemble_chunks cfg chunk_size sentences.

(* ================================================================== *)
(** * extract_title *)
(* ================================================================== *)

(** The longest prefix of [s] whose characters satisfy [p], and the rest:
    what a greedy character class matches. *)
Fixpoint span (p : char -> bool) (s : str) : str * str :=
  match s with
  | [] => ([], [])
  | c :: r =>
      if p c then let '(a, b) := span p r in (c :: a, b) else ([], s)
  end.

Definition is_cjk_numeral (c : char) : bool :=
  existsb (N.eqb c) (u "一二三四五六七八九十").

Definition DI : char := 0x7B2C%N.      (* 第 *)
Definition ZHANG : char := 0x7AE0%N.   (* 章 *)
Definition DOT : char := 0x2E%N.

(** [^第[一二三四五六七八九十]+章] at the start of [head].  The numerals
    are taken greedily; giving one back cannot help, since a numeral is
    not 章. *)
Definition match_chapter (head : str) : option str :=
  match head with
  | c :: r =>
      if (c =? DI)%N then
        match span is_cjk_numeral r with
        | ((_ :: _) as nums, z :: _) =>
            if (z =? ZHANG)%N then Some (c :: nums ++ [z]) else None
        | _ => None
        end
      else None
  | [] => None
  end.

(** [^[\d\.]+\s] at the start of [head]; again the greedy run is the only
    candidate, a digit or a dot not being whitespace. *)
Definition match_numbered (head : str) : option str :=
  match span (fun c => isdigit_re c || (c =? DOT)%N) head with
  | ((_ :: _) as run, z :: _) =>
      if isspace z then Some (run ++ [z]) else None
  | _ => None
  end.

(** [re.search(r'(^第[...]+章|^[\d\.]+\s)', head)]: both alternatives are
    anchored, so only position 0 can match. *)
Definition re_search_title (head : str) : option str :=
  match match_chapter head with
  | Some m => Some m
  | None => match_numbered head
  end.

Definition extract_title (text : str) : str :=
  let head := firstn 50 text in
  match re_search_title head with
  | Some m => strip m
  | None => []
  end.

(* ================================================================== *)
(** * Records *)
(* ================================================================== *)

(** A value of the key [page_num].  process_pdf, process_txt and
    process_docx store a position there, an [int]; process_excel stores
    [index + 1], whose type is that of the index label that pandas gives
    for the row.  A value that is not an [int] (a float, a date) is known
    by the text that an f-string gives for it. *)
Inductive value : Type :=
| Int (z : Z)
| Other (text : str).

(** The dictionaries appended to [results]; [source_url] is a key of the
    text records only. *)
Record ChunkRecord := {
  doc_id : str;
  chunk_id : str;
  title : str;
  source_url : option str;
  source : str;
  file_type : str;
  page_num : value;
  section_title : str;
  content : str;
  anchor_text : str;
  chunk_len : nat
}.

(** [str(n)] of a non-negative integer, as an f-string renders it. *)
Fixpoint str_of_uint (d : Decimal.uint) : str :=
  match d with
  | Decimal.Nil => []
  | Decimal.D0 r => 0x30%N :: str_of_uint r
  | Decimal.D1 r => 0x31%N :: str_of_uint r
  | Decimal.D2 r => 0x32%N :: str_of_uint r
  | Decimal.D3 r => 0x33%N :: str_of_uint r
  | Decimal.D4 r => 0x34%N :: str_of_uint r
  | Decimal.D5 r => 0x35%N :: str_of_uint r
  | Decimal.D6 r => 0x36%N :: str_of_uint r
  | Decimal.D7 r => 0x37%N :: str_of_uint r
  | Decimal.D8 r => 0x38%N :: str_of_uint r
  | Decimal.D9 r => 0x39%N :: str_of_uint r
  end.

Definition str_of_nat (n : nat) : str := str_of_uint (Nat.to_uint n).

(** [str(z)] of an integer. *)
Definition str_of_int (z : Z) : str :=
  match z with
  | Zneg p => 0x2D%N :: str_of_nat (Pos.to_nat p)
  | _ => str_of_nat (Z.to_nat z)
  end.

(** [f"{v}"] *)
Definition format_value (v : value) : str :=
  match v with
  | Int z => str_of_int z
  | Other text => text
  end.

(** [re.match(r'[^。！？]*[。！？]', chunk_text)]: the prefix up to and
    including the first terminator, when there is one. *)
Fixpoint re_match_first_sentence (chunk_text : str) : option str :=
  match chunk_text with
  | [] => None
  | c :: r =>
      if is_terminator c then Some [c]
      else option_map (cons c) (re_match_first_sentence r)
  end.

(** [first_sent_match.group() if first_sent_match else chunk_text[:30]] *)
Definition anchor_of (chunk_text : str) : str :=
  match re_match_first_sentence chunk_text with
  | Some m => m
  | None => firstn 30 chunk_text
  end.

Fixpoint enumerate_from (A : Type) (i : nat) (l : list A) : list (nat * A) :=
  match l with
  | [] => []
  | x :: r => (i, x) :: enumerate_from (S i) r
  end.

Definition enumerate (A : Type) (l : list A) : list (nat * A) :=
  enumerate_from 0 l.

(** The loop [for idx, chunk_text in enumerate(chunks)] that process_pdf,
    process_txt and process_docx share: a chunk shorter than
    MIN_CHUNK_SIZE is skipped, any other gives the record [mk idx
    chunk_text]. *)
Definition chunk_loop (cfg : Config) (mk : nat -> str -> ChunkRecord)
    (chunks : list str) : list ChunkRecord :=
  flat_map
    (fun '(idx, chunk_text) =>
       if len chunk_text <? MIN_CHUNK_SIZE cfg then []
       else [mk idx chunk_text])
    (enumerate chunks).

(* ================================================================== *)
(** * generate_doc_id *)
(* ================================================================== *)

(** [hashlib.md5(data).hexdigest()], after RFC 1321, on 32-bit words held
    in [N] with the wrap-around written out. *)
Module MD5.

Local Open Scope N_scope.

Definition wrap (x : N) : N := x mod 0x100000000.
Definition add32 (a b : N) : N := wrap (a + b).
Definition not32 (x : N) : N := N.lxor x 0xFFFFFFFF.
Definition rotl32 (x n : N) : N :=
  wrap (N.lor (N.shiftl x n) (N.shiftr x (32 - n))).

Definition shifts : list N :=
  [ 7; 12; 17; 22; 7; 12; 17; 22; 7; 12; 17; 22; 7; 12; 17; 22;
    5; 9; 14; 20; 5; 9; 14; 20; 5; 9; 14; 20; 5; 9; 14; 20;
    4; 11; 16; 23; 4; 11; 16; 23; 4; 11; 16; 23; 4; 11; 16; 23;
    6; 10; 15; 21; 6; 10; 15; 21; 6; 10; 15; 21; 6; 10; 15; 21 ].

Definition sines : list N :=
  [ 0xd76aa478; 0xe8c7b756; 0x242070db; 0xc1bdceee;
    0xf57c0faf; 0x4787c62a; 0xa8304613; 0xfd469501;
    0x698098d8; 0x8b44f7af; 0xffff5bb1; 0x895cd7be;
    0x6b901122; 0xfd987193; 0xa679438e; 0x49b40821;
    0xf61e2562; 0xc040b340; 0x265e5a51; 0xe9b6c7aa;
    0xd62f105d; 0x02441453; 0xd8a1e681; 0xe7d3fbc8;
    0x21e1cde6; 0xc33707d6; 0xf4d50d87; 0x455a14ed;
    0xa9e3e905; 0xfcefa3f8; 0x676f02d9; 0x8d2a4c8a;
    0xfffa3942; 0x8771f681; 0x6d9d6122; 0xfde5380c;
    0xa4beea44; 0x4bdecfa9; 0xf6bb4b60; 0xbebfbc70;
    0x289b7ec6; 0xeaa127fa; 0xd4ef3085; 0x04881d05;
    0xd9d4d039; 0xe6db99e5; 0x1fa27cf8; 0xc4ac5665;
    0xf4292244; 0x432aff97; 0xab9423a7; 0xfc93a039;
    0x655b59c3; 0x8f0ccc92; 0xffeff47d; 0x85845dd1;
    0x6fa87e4f; 0xfe2ce6e0; 0xa3014314; 0x4e0811a1;
    0xf7537e82; 0xbd3af235; 0x2ad7d2bb; 0xeb86d391 ].

(** [n] as [k] bytes, least significant first. *)
Fixpoint le_bytes (k : nat) (n : N) : list N :=
  match k with
  | O => []
  | S k' => (n mod 256) :: le_bytes k' (n / 256)
  end.

Definition pad (msg : list N) : list N :=
  let l := N.of_nat (length msg) in
  let zeros := (55 + 64 - l mod 64) mod 64 in
  msg ++ [0x80] ++ repeat 0 (N.to_nat zeros)
      ++ le_bytes 8 ((8 * l) mod 0x10000000000000000).

Definition word_at (block : list N) (j : N) : N :=
  let b k := nth (N.to_nat (4 * j + k)) block 0 in
  b 0 + N.shiftl (b 1) 8 + N.shiftl (b 2) 16 + N.shiftl (b 3) 24.

Definition state := (N * N * N * N)%type.

Definition round (block : list N) (st : state) (i : nat) : state :=
  let '(a, b, c, d) := st in
  let i' := N.of_nat i in
  let '(f, g) :=
    if i' <? 16 then (N.lor (N.land b c) (N.land (not32 b) d), i')
    else if i' <? 32 then
      (N.lor (N.land d b) (N.land (not32 d) c), (5 * i' + 1) mod 16)
    else if i' <? 48 then (N.lxor b (N.lxor c d), (3 * i' + 5) mod 16)
    else (N.lxor c (N.lor b (not32 d)), (7 * i') mod 16) in
  let f := add32 (add32 (add32 f a) (nth i sines 0)) (word_at block g) in
  (d, add32 b (rotl32 f (nth i shifts 0)), b, c).

Definition compress (st : state) (block : list N) : state :=
  let '(a0, b0, c0, d0) := st in
  let '(a, b, c, d) := fold_left (round block) (seq 0 64) st in
  (add32 a0 a, add32 b0 b, add32 c0 c, add32 d0 d).

Definition blocks (bs : list N) : list (list N) :=
  map (fun i => firstn 64 (skipn (64 * i) bs)) (seq 0 (length bs / 64)).

Definition digest (msg : list N) : list N :=
  let '(a, b, c, d) :=
    fold_left compress (blocks (pad msg))
      (0x67452301, 0xefcdab89, 0x98badcfe, 0x10325476) in
  le_bytes 4 a ++ le_bytes 4 b ++ le_bytes 4 c ++ le_bytes 4 d.

Definition hex_digit (n : N) : char :=
  if n <? 10 then 0x30 + n else 0x61 + (n - 10).

Definition hexdigest (msg : list N) : str :=
  flat_map (fun b => [hex_digit (b / 16); hex_digit (b mod 16)])
    (digest msg).

End MD5.

(** [None] is the UnicodeEncodeError of [file_name.encode('utf-8')]. *)
Definition generate_doc_id (file_name : str) : option str :=
  match Utf8.encode file_name with
  | Some data => Some (MD5.hexdigest data)
  | None => None
  end.

(* ================================================================== *)
(** * The libraries and the file system *)
(* ================================================================== *)

(** The text of an exception, as [print] shows it. *)
Definition exn := str.

Inductive result (A : Type) : Type :=
| Return (a : A)
| Raise (e : exn).

Arguments Return {A} a.
Arguments Raise {A} e.

(** What [page.crop(bbox).extract_text()] gives for one page: the text
    (the empty string also stands for [None]) or an exception.  The box
    is [bbox] below, and [cropped_text] is this text for a page given by
    its size and its characters. *)
Definition page := result str.

(** The index label of a row of a DataFrame, as [iterrows] gives it.
    The default index of a frame numbers the rows from 0; [pd.read_csv]
    takes the first column as the index when the rows have one field
    more than the header, and the labels are then the cells of that
    column: integers that may repeat or be negative, or values of
    another type (floats, strings, dates).  A label that is not an
    integer is given by what [index + 1] evaluates to: a value, or the
    TypeError of a string. *)
Inductive label : Type :=
| IntLabel (i : Z)
| OtherLabel (plus_one : result value).

(** A DataFrame after [fillna('')]: its rows in order, each with its
    index label and the items (column name, cell), both as the text
    [str] and an f-string give. *)
Definition DataFrame := list (label * list (str * str)).

Record Env := {
  RAW_DATA_DIR : str;
  (** [os.walk]: for each directory its root and its file names *)
  os_walk : str -> list (str * list str);
  os_path_join : str -> str -> str;
  os_path_isdir : str -> bool;
  os_path_relpath : str -> str -> str;
  (** [pdfplumber.open(file_path)] with its [pages] *)
  pdfplumber_open : str -> result (list page);
  pd_read_csv : str -> result DataFrame;
  pd_read_excel : str -> result DataFrame;
  (** [open(file_path, "r", encoding="utf-8", errors="ignore")] and
      [f.read()] *)
  read_text : str -> result str;
  (** [Document]: [None] when python-docx could not be imported,
      otherwise the paragraph texts of the document *)
  Document : option (str -> result (list str))
}.

Inductive log_msg : Type :=
| PdfError (file_name : str) (e : exn)
| TableError (file_name : str) (e : exn)
| TxtError (file_name : str) (e : exn)
| DocxError (file_name : str) (e : exn)
| DocxSkipped (file_name : str).

Definition UNDERSCORE : str := u "_".

(* ================================================================== *)
(** * process_pdf *)
(* ================================================================== *)

Set Warnings "-inexact-float".

Definition TOP_CROP_RATIO : float := 0.05.
Definition BOTTOM_CROP_RATIO : float := 0.08.

(** [bbox]: x0, top, x1 and bottom, in the binary64 arithmetic of
    Python's [float]. *)
Definition bbox (width height : float) : float * float * float * float :=
  (0, height * TOP_CROP_RATIO, width,
   height * (1 - BOTTOM_CROP_RATIO))%float.

(** A character of a page with its upper and its lower edge, measured
    downwards from the top of the page, as pdfplumber places it. *)
Record glyph := {
  glyph_top : float;
  glyph_bottom : float;
  glyph_char : char
}.

(** A page of pdfplumber: [page.width], [page.height] and the characters
    in reading order. *)
Record pdf_page := {
  page_width : float;
  page_height : float;
  page_glyphs : list glyph
}.

(** Modelled from the spec: [page.crop(bbox)] of pdfplumber, which is not
    code of this repository: "a fixed geometric crop removing a
    configured top fraction and bottom fraction of each page's height
    before text extraction".  The cropped page keeps the characters that
    lie between the top and the bottom of the box; the box spans the
    width of the page. *)
Definition crop (p : pdf_page) (box : float * float * float * float)
  : list glyph :=
  let '(_, top, _, bottom) := box in
  filter
    (fun g => (top <=? glyph_top g)%float && (glyph_bottom g <=? bottom)%float)
    (page_glyphs p).

(** Modelled from the spec: [extract_text] of pdfplumber on a cropped
    page: the text of the characters that were kept, in their order. *)
Definition extract_text (glyphs : list glyph) : str :=
  map glyph_char glyphs.

(** The text that one turn of the loop of process_pdf reads from [p]:
    [width], [height], [bbox], [cropped_page] and [text]. *)
Definition cropped_text (p : pdf_page) : page :=
  let width := page_width p in
  let height := page_height p in
  let bbox := bbox width height in
  let cropped_page := crop p bbox in
  Return (extract_text cropped_page).

Definition pdf_record (file_name doc_id : str) (page_num : nat)
    (current_section_title : str) (idx : nat) (chunk_text : str)
  : ChunkRecord :=
  {| doc_id := doc_id;
     chunk_id := doc_id ++ UNDERSCORE ++ str_of_nat page_num
                        ++ UNDERSCORE ++ str_of_nat idx;
     title := file_name;
     source_url := None;
     source := file_name;
     file_type := u "pdf";
     page_num := Int (Z.of_nat page_num);
     section_title := current_section_title;
     content := chunk_text;
     anchor_text := anchor_of chunk_text;
     chunk_len := len chunk_text |}.

(** The section label after a page whose text is [text]. *)
Definition update_section_title (current_section_title text : str) : str :=
  let possible_title := extract_title text in
  if truthy possible_title then possible_title else current_section_title.

(** [for i, page in enumerate(pdf.pages)]: [i] is the index of the first
    page of [pages]; the loop ends at the first exception, which leaves
    [results] as it is at that point. *)
Fixpoint pdf_pages (cfg : Config) (file_name doc_id : str)
    (pages : list page) (i : nat) (current_section_title : str)
    (results : list ChunkRecord) : list ChunkRecord * list log_msg :=
  match pages with
  | [] => (results, [])
  | p :: rest =>
      let page_num := i + 1 in
      match p with
      | Raise e => (results, [PdfError file_name e])
      | Return text =>
          if negb (truthy text)
          then pdf_pages cfg file_name doc_id rest (S i)
                 current_section_title results
          else
            let current_section_title :=
              update_section_title current_section_title text in
            let cleaned_text := clean_text_basic text in
            let chunks :=
              semantic_chunking cfg cleaned_text (CHUNK_SIZE cfg) in
            let results :=
              results ++
              chunk_loop cfg
                (pdf_record file_name doc_id page_num current_section_title)
                chunks in
            pdf_pages cfg file_name doc_id rest (S i)
              current_section_title results
      end
  end.

Definition process_pdf (env : Env) (cfg : Config)
    (file_path file_name doc_id : str) : list ChunkRecord * list log_msg :=
  let results := [] in
  let current_section_title := u "未知章节" in
  match pdfplumber_open env file_path with
  | Raise e => (results, [PdfError file_name e])
  | Return pages =>
      pdf_pages cfg file_name doc_id pages 0 current_section_title results
  end.

(* ================================================================== *)
(** * process_excel *)
(* ================================================================== *)

Fixpoint endswith (s suffix : str) : bool :=
  str_eqb s suffix ||
  match s with
  | [] => false
  | _ :: r => endswith r suffix
  end.

Definition COLON : char := 0x3A%N.

(** [" ".join(parts)] *)
Fixpoint join_with (sep : str) (parts : list str) : str :=
  match parts with
  | [] => []
  | [p] => p
  | p :: r => p ++ sep ++ join_with sep r
  end.

(** The [parts] of one row: ["col_name:val"] for the cells whose text is
    not blank. *)
Definition row_parts (row : list (str * str)) : list str :=
  flat_map
    (fun '(col_name, val) =>
       if truthy (strip val) then [col_name ++ [COLON] ++ val] else [])
    row.

Definition excel_record (file_name doc_id : str) (row_num : value)
    (cleaned_content : str) : ChunkRecord :=
  {| doc_id := doc_id;
     chunk_id := doc_id ++ u "_row_" ++ format_value row_num;
     title := file_name;
     source_url := None;
     source := file_name;
     file_type := u "table";
     page_num := row_num;
     section_title := u "故障日志表";
     content := cleaned_content;
     anchor_text := firstn 30 cleaned_content;
     chunk_len := len cleaned_content |}.

(** [index + 1]: the next integer for an integer label; for a label of
    another type, what its own addition gives. *)
Definition add_one (index : label) : result value :=
  match index with
  | IntLabel i => Return (Int (i + 1))
  | OtherLabel plus_one => plus_one
  end.

(** The loop [for index, row in df.iterrows()] on the rows still to be
    read and [results]; an exception of [index + 1] ends the loop, and
    the results built before it are returned. *)
Fixpoint excel_rows (file_name doc_id : str)
    (rows : list (label * list (str * str))) (results : list ChunkRecord)
  : list ChunkRecord * list log_msg :=
  match rows with
  | [] => (results, [])
  | (index, row) :: rest =>
      match add_one index with
      | Raise e => (results, [TableError file_name e])
      | Return row_num =>
          let row_content := join_with (u " ") (row_parts row) in
          let cleaned_content := clean_text_basic row_content in
          if negb (truthy cleaned_content)
          then excel_rows file_name doc_id rest results
          else
            excel_rows file_name doc_id rest
              (results
               ++ [excel_record file_name doc_id row_num cleaned_content])
      end
  end.

Definition process_excel (env : Env)
    (file_path file_name doc_id : str) : list ChunkRecord * list log_msg :=
  let read :=
    if endswith file_name (u ".csv") then pd_read_csv env file_path
    else pd_read_excel env file_path in
  match read with
  | Raise e => ([], [TableError file_name e])
  | Return df => excel_rows file_name doc_id df []
  end.

(* ================================================================== *)
(** * process_txt *)
(* ================================================================== *)

(** [s.lower()] on the code points whose lowercase form has an ASCII
    character (A-Z, U+0130, U+212A); any other code point is left as it
    is, which is exact for the comparisons with ASCII literals that the
    script makes of the result. *)
Definition lower_char (c : char) : str :=
  if ((0x41 <=? c) && (c <=? 0x5A))%N then [(c + 32)%N]
  else if (c =? 0x130)%N then [0x69; 0x307]%N
  else if (c =? 0x212A)%N then [0x6B%N]
  else [c].

Definition lower (s : str) : str := flat_map lower_char s.

Fixpoint startswith (s prefix : str) : bool :=
  match prefix, s with
  | [], _ => true
  | p :: prefix', c :: s' => (c =? p)%N && startswith s' prefix'
  | _ :: _, [] => false
  end.

(** [s.split(sep, 1)[1]]; [Raise] is the IndexError of a string without
    [sep]. *)
Fixpoint split_once_second (sep : char) (s : str) : result str :=
  match s with
  | [] => Raise (u "list index out of range")
  | c :: r => if (c =? sep)%N then Return r else split_once_second sep r
  end.

(** [s.splitlines()] *)
Fixpoint splitlines_from (line : str) (s : str) : list str :=
  match s with
  | [] => if truthy line then [line] else []
  | c :: r =>
      if islinebreak c then
        match r with
        | c' :: r' =>
            if ((c =? 0x0D) && (c' =? 0x0A))%N
            then line :: splitlines_from [] r'
            else line :: splitlines_from [] r
        | [] => [line]
        end
      else splitlines_from (line ++ [c]) r
  end.

Definition splitlines (s : str) : list str := splitlines_from [] s.

Definition is_url_line (ln : str) : bool := startswith (lower ln) (u "url:").

(** [set(ln) == {"="}] *)
Definition is_rule_line (ln : str) : bool :=
  truthy ln && forallb (fun c => (c =? 0x3D)%N) ln.

(** The title read from the first line. *)
Definition txt_title (lines : list str) : result str :=
  match lines with
  | [] => Return (u "未知标题")
  | title :: _ =>
      if startswith (lower title) (u "title:") then
        match split_once_second COLON title with
        | Return t => Return (if truthy (strip t) then strip t else title)
        | Raise e => Raise e
        end
      else Return title
  end.

(** [for ln in lines[:12]: if ln.lower().startswith("url:"): ...; break] *)
Fixpoint txt_source_url (lines : list str) : result str :=
  match lines with
  | [] => Return []
  | ln :: r =>
      if is_url_line ln then
        match split_once_second COLON ln with
        | Return t => Return (strip t)
        | Raise e => Raise e
        end
      else txt_source_url r
  end.

Definition txt_body_lines (lines : list str) : list str :=
  flat_map
    (fun '(idx, ln) =>
       if idx =? 0 then []
       else if is_rule_line ln then []
       else if is_url_line ln then []
       else [ln])
    (enumerate lines).

Definition txt_record (file_name doc_id title source_url : str)
    (idx : nat) (chunk_text : str) : ChunkRecord :=
  {| doc_id := doc_id;
     chunk_id := doc_id ++ u "_txt_" ++ str_of_nat idx;
     title := title;
     source_url := Some source_url;
     source := file_name;
     file_type := u "txt";
     page_num := Int (Z.of_nat (idx + 1));
     section_title := if truthy title then firstn 50 title else u "未知标题";
     content := chunk_text;
     anchor_text := anchor_of chunk_text;
     chunk_len := len chunk_text |}.

Definition process_txt (env : Env) (cfg : Config)
    (file_path file_name doc_id : str) : list ChunkRecord * list log_msg :=
  match read_text env file_path with
  | Raise e => ([], [TxtError file_name e])
  | Return raw_text =>
      if negb (truthy raw_text) then ([], [])
      else
        let raw_lines := map rstrip (splitlines raw_text) in
        let lines :=
          map strip (filter (fun ln => truthy (strip ln)) raw_lines) in
        match txt_title lines with
        | Raise e => ([], [TxtError file_name e])
        | Return title =>
            match txt_source_url (firstn 12 lines) with
            | Raise e => ([], [TxtError file_name e])
            | Return source_url =>
                let body_lines := txt_body_lines lines in
                let body_text :=
                  if truthy body_lines
                  then join_with [NEWLINE] body_lines else raw_text in
                let cleaned_text := clean_text_basic body_text in
                if negb (truthy cleaned_text) then ([], [])
                else
                  let chunks :=
                    semantic_chunking cfg cleaned_text (CHUNK_SIZE cfg) in
                  (chunk_loop cfg
                     (txt_record file_name doc_id title source_url) chunks,
                   [])
            end
        end
  end.

(* ================================================================== *)
(** * process_docx *)
(* ================================================================== *)

Definition docx_record (file_name doc_id : str) (idx : nat)
    (chunk_text : str) : ChunkRecord :=
  {| doc_id := doc_id;
     chunk_id := doc_id ++ u "_docx_" ++ str_of_nat idx;
     title := file_name;
     source_url := None;
     source := file_name;
     file_type := u "docx";
     page_num := Int (Z.of_nat (idx + 1));
     section_title := u "Word文档";
     content := chunk_text;
     anchor_text := anchor_of chunk_text;
     chunk_len := len chunk_text |}.

Definition process_docx (env : Env) (cfg : Config)
    (file_path file_name doc_id : str) : list ChunkRecord * list log_msg :=
  match Document env with
  | None => ([], [DocxSkipped file_name])
  | Some open_document =>
      match open_document file_path with
      | Raise e => ([], [DocxError file_name e])
      | Return paragraphs =>
          let text :=
            join_with [NEWLINE]
              (filter (fun p => truthy p && truthy (strip p)) paragraphs) in
          let cleaned_text := clean_text_basic text in
          if negb (truthy cleaned_text) then ([], [])
          else
            let chunks :=
              semantic_chunking cfg cleaned_text (CHUNK_SIZE cfg) in
            (chunk_loop cfg (docx_record file_name doc_id) chunks, [])
      end
  end.

(* ================================================================== *)
(** * main *)
(* ================================================================== *)

(** [s.split('.')[-1]] *)
Fixpoint last_component_from (piece : str) (s : str) : str :=
  match s with
  | [] => piece
  | c :: r =>
      if (c =? DOT)%N then last_component_from [] r
      else last_component_from (piece ++ [c]) r
  end.

(** [s.replace("\\", "/")] *)
Definition replace_backslash (s : str) : str :=
  map (fun c => if (c =? 0x5C)%N then 0x2F%N else c) s.

(** The branch of [main] chosen by the extension; a file of any other
    extension gives nothing. *)
Definition dispatch (env : Env) (cfg : Config)
    (file_ext file_path rel_path doc_id : str)
  : list ChunkRecord * list log_msg :=
  if str_eqb file_ext (u "pdf")
  then process_pdf env cfg file_path rel_path doc_id
  else if existsb (str_eqb file_ext) [u "xlsx"; u "xls"; u "csv"]
  then process_excel env file_path rel_path doc_id
  else if str_eqb file_ext (u "txt")
  then process_txt env cfg file_path rel_path doc_id
  else if str_eqb file_ext (u "docx")
  then process_docx env cfg file_path rel_path doc_id
  else ([], []).

Definition rel_path_of (env : Env) (file_path : str) : str :=
  replace_backslash (os_path_relpath env file_path (RAW_DATA_DIR env)).

(** The records and the log of one file of the walk; [None] is the
    exception of [generate_doc_id], which [main] does not catch. *)
Definition main_file (env : Env) (cfg : Config) (root file_name : str)
  : option (list ChunkRecord * list log_msg) :=
  if startswith file_name (u ".") then Some ([], [])
  else
    let file_path := os_path_join env root file_name in
    if os_path_isdir env file_path then Some ([], [])
    else
      let rel_path := rel_path_of env file_path in
      match generate_doc_id rel_path with
      | None => None
      | Some doc_id =>
          let file_ext := last_component_from [] (lower file_name) in
          Some (dispatch env cfg file_ext file_path rel_path doc_id)
      end.

(** [all_data.extend(...)] over the files in the order of the walk. *)
Fixpoint main_files (env : Env) (cfg : Config) (files : list (str * str))
    (all_data : list ChunkRecord) (log : list log_msg)
  : option (list ChunkRecord * list log_msg) :=
  match files with
  | [] => Some (all_data, log)
  | (root, file_name) :: rest =>
      match main_file env cfg root file_name with
      | None => None
      | Some (records, msgs) =>
          main_files env cfg rest (all_data ++ records) (log ++ msgs)
      end
  end.

(** The pairs (root, file_name) in the order the two loops of [main]
    visit them. *)
Definition walked_files (env : Env) : list (str * str) :=
  flat_map (fun '(root, files) => map (pair root) files)
    (os_walk env (RAW_DATA_DIR env)).

(** [main]: [all_data], which is then written line by line to
    OUTPUT_FILE, and what the adapters printed. *)
Definition main (env : Env) (cfg : Config)
  : option (list ChunkRecord * list log_msg) :=
  main_files env cfg (walked_files env) [] [].

(* ================================================================== *)
(** * Definitions used to state the properties *)
(* ================================================================== *)

Definition nonspace (c : char) : bool := negb (isspace c).

(** The segments of a text: each ends right after a boundary character;
    the last one is what follows the last boundary (it may be empty). *)
Fixpoint segments_from (seg : str) (text : str) : list str :=
  match text with
  | [] => [seg]
  | c :: r =>
      if is_boundary c then (seg ++ [c]) :: segments_from [] r
      else segments_from (seg ++ [c]) r
  end.

Definition segments (text : str) : list str := segments_from [] text.

(** No two neighbours of [s] are both whitespace. *)
Fixpoint single_spaced (s : str) : bool :=
  match s with
  | c :: ((d :: _) as r) => negb (isspace c && isspace d) && single_spaced r
  | _ => true
  end.

Definition adjacent (c d : char) (s : str) : Prop :=
  exists a b, s = a ++ c :: d :: b.

(** The loop of [semantic_chunking] with every chunk kept as the list of
    its sentences, [current_chunk] as it is when the chunk is emitted. *)
Record group_state := {
  groups : list (list str);
  group : list str;
  group_len : nat
}.

Definition group_step (cfg : Config) (chunk_size : nat)
    (st : group_state) (sent : str) : group_state :=
  let sent_len := len sent in
  let st :=
    if (chunk_size <? group_len st + sent_len) && (0 <? group_len st)
    then
      let overlap_data :=
        if OVERLAP_SENTENCES cfg <=? length (group st)
        then slice_last (OVERLAP_SENTENCES cfg) (group st)
        else group st in
      {| groups := groups st ++ [group st];
         group := overlap_data;
         group_len := sum_len overlap_data |}
    else st in
  {| groups := groups st;
     group := group st ++ [sent];
     group_len := group_len st + sent_len |}.

Definition assemble_groups (cfg : Config) (chunk_size : nat)
    (sentences : list str) : list (list str) :=
  let st :=
    fold_left (group_step cfg chunk_size) sentences
      {| groups := []; group := []; group_len := 0 |} in
  if truthy (group st) then groups st ++ [group st] else groups st.

Definition joined (g : group_state) : chunk_state :=
  {| chunks := map join (groups g);
     current_chunk := group g;
     current_len := group_len g |}.

(** The four kinds of records, by the adapter that builds them, for a
    file named [file_name] with identifier [doc_id]: a chunked record has
    for content the chunk of index [idx] of some cleaned text, of length
    at least MIN_CHUNK_SIZE; a table record has for content the non-empty
    cleaned text of a row. *)
Inductive record_shape (cfg : Config) (file_name doc_id : str)
    (r : ChunkRecord) : Prop :=
| shape_pdf (page_num : nat) (section : str) (cleaned : str)
    (idx : nat) (c : str) :
    nth_error (semantic_chunking cfg cleaned (CHUNK_SIZE cfg)) idx = Some c ->
    MIN_CHUNK_SIZE cfg <= len c ->
    r = pdf_record file_name doc_id page_num section idx c ->
    record_shape cfg file_name doc_id r
| shape_table (row_num : value) (c : str) :
    1 <= len c ->
    r = excel_record file_name doc_id row_num c ->
    record_shape cfg file_name doc_id r
| shape_txt (title url : str) (cleaned : str) (idx : nat) (c : str) :
    nth_error (semantic_chunking cfg cleaned (CHUNK_SIZE cfg)) idx = Some c ->
    MIN_CHUNK_SIZE cfg <= len c ->
    r = txt_record file_name doc_id title url idx c ->
    record_shape cfg file_name doc_id r
| shape_docx (cleaned : str) (idx : nat) (c : str) :
    nth_error (semantic_chunking cfg cleaned (CHUNK_SIZE cfg)) idx = Some c ->
    MIN_CHUNK_SIZE cfg <= len c ->
    r = docx_record file_name doc_id idx c ->
    record_shape cfg file_name doc_id r.

Definition is_prefix (a c : str) : Prop := exists t, c = a ++ t.

Definition nonterminator (c : char) : bool := negb (is_terminator c).

(** The anchor as the specification words it: the shortest prefix of the
    content that ends at a sentence-terminating mark, or the first 30
    characters when the content has no such mark. *)
Definition first_sentence_anchor (a c : str) : Prop :=
  (exists pre t rest,
      c = pre ++ t :: rest /\ forallb nonterminator pre = true
      /\ is_terminator t = true /\ a = pre ++ [t])
  \/ (forallb nonterminator c = true /\ a = firstn 30 c).

(** A run on one directory, /data/raw, holding the files [names]; every
    library call answers the same for all paths. *)
Definition example_env (names : list str) (pdf : result (list page))
    (table : result DataFrame) (text : result str)
    (docx : option (result (list str))) : Env :=
  {| RAW_DATA_DIR := u "/data/raw";
     os_walk := fun _ => [(u "/data/raw", names)];
     os_path_join := fun a b => a ++ u "/" ++ b;
     os_path_isdir := fun _ => false;
     os_path_relpath := fun path start => skipn (len start + 1) path;
     pdfplumber_open := fun _ => pdf;
     pd_read_csv := fun _ => table;
     pd_read_excel := fun _ => table;
     read_text := fun _ => text;
     Document := option_map (fun d (_ : str) => d) docx |}.

(** A table of one row with the one cell 备注 = 已修复。正常. *)
Definition one_row_table : DataFrame :=
  [(IntLabel 0, [(u "备注", u "已修复。正常")])].

Definition table_env : Env :=
  example_env [u "log.csv"] (Raise []) (Return one_row_table) (Raise [])
    None.

Definition table_record : ChunkRecord :=
  excel_record (u "log.csv") (u "7b7eda11b9863f5f6c7177c82d7b4aeb") (Int 1)
    (u "备注:已修复。正常").

(** The records of one page of a paginated document, under the section
    label [section]. *)
Definition page_records (cfg : Config) (file_name doc_id : str)
    (page_num : nat) (section : str) (text : str) : list ChunkRecord :=
  chunk_loop cfg (pdf_record file_name doc_id page_num section)
    (semantic_chunking cfg (clean_text_basic text) (CHUNK_SIZE cfg)).

(** A document of three pages: sixty letters, a page that begins with the
    heading 第一章 总则, sixty letters. *)
Definition three_pages : list page :=
  [ Return (repeat 0x61%N 60);
    Return (u "第一章 总则" ++ repeat 0x62%N 60);
    Return (repeat 0x63%N 60) ].

Definition three_page_env : Env :=
  example_env [u "manual.pdf"] (Return three_pages) (Raise []) (Raise [])
    None.

(** A document whose first page is read and whose second page cannot
    be. *)
Definition broken_pdf_env : Env :=
  example_env [u "manual.pdf"]
    (Return [Return (repeat 0x61%N 60); Raise (u "bad page");
             Return (repeat 0x63%N 60)])
    (Raise []) (Raise []) None.

(** The two paths get the same answers from the libraries. *)
Definition same_answers (env1 : Env) (path1 : str) (env2 : Env)
    (path2 : str) : Prop :=
  os_path_isdir env1 path1 = os_path_isdir env2 path2
  /\ pdfplumber_open env1 path1 = pdfplumber_open env2 path2
  /\ pd_read_csv env1 path1 = pd_read_csv env2 path2
  /\ pd_read_excel env1 path1 = pd_read_excel env2 path2
  /\ read_text env1 path1 = read_text env2 path2
  /\ option_map (fun open_document => open_document path1) (Document env1)
     = option_map (fun open_document => open_document path2)
         (Document env2).

(** The run of [table_env] again, the directory moved to /mnt/kb/raw. *)
Definition moved_table_env : Env :=
  {| RAW_DATA_DIR := u "/mnt/kb/raw";
     os_walk := fun _ => [(u "/mnt/kb/raw", [u "log.csv"])];
     os_path_join := fun a b => a ++ u "/" ++ b;
     os_path_isdir := fun _ => false;
     os_path_relpath := fun path start => skipn (len start + 1) path;
     pdfplumber_open := fun _ => Raise [];
     pd_read_csv := fun _ => Return one_row_table;
     pd_read_excel := fun _ => Return one_row_table;
     read_text := fun _ => Raise [];
     Document := None |}.

(** No character of [s] is a sentence boundary. *)
Definition boundary_free (s : str) : bool :=
  forallb (fun c => negb (is_boundary c)) s.

(** The sentences carried from a flushed chunk into the next one, as
    [semantic_chunking] computes [overlap_data]. *)
Definition overlap_seed (cfg : Config) (g : list str) : list str :=
  if OVERLAP_SENTENCES cfg <=? length g
  then slice_last (OVERLAP_SENTENCES cfg) g
  else g.

(** [g] is a run of consecutive elements of [l]. *)
Definition is_infix (A : Type) (g l : list A) : Prop :=
  exists a b, l = a ++ g ++ b.

Definition initial_groups : group_state :=
  {| groups := []; group := []; group_len := 0 |}.

(** Every element of [l] and the next one are related by [P]. *)
Definition chained (A : Type) (P : A -> A -> Prop) (l : list A) : Prop :=
  forall i x y, nth_error l i = Some x -> nth_error l (S i) = Some y -> P x y.

(** In the list [l] the run [g] is followed at once by the run [t], not
    empty, and [h] is made of the sentences carried over from [g] and
    of [t]. *)
Definition follows (cfg : Config) (l g h : list str) : Prop :=
  exists a t b,
    l = a ++ g ++ t ++ b /\ t <> [] /\ h = overlap_seed cfg g ++ t.

(** The class [[\d\.]] of the numbered-heading pattern. *)
Definition digit_or_dot (c : char) : bool := isdigit_re c || (c =? DOT)%N.

(** The ten ASCII digits, of which [str(n)] is made. *)
Definition is_ascii_digit (c : char) : bool :=
  ((0x30 <=? c) && (c <=? 0x39))%N.

(** The band that the claim names for a page of height [H]: from
    0.05 H down to 0.92 H. *)
Definition in_band (H : float) (g : glyph) : bool :=
  ((H * 0.05 <=? glyph_top g) && (glyph_bottom g <=? H * 0.92))%float.

(** An A4 page, 595 by 842 points: a line in the header, sixty
    characters of body and a line in the footer. *)
Definition a4_page : pdf_page :=
  {| page_width := 595;
     page_height := 842;
     page_glyphs :=
       [ {| glyph_top := 20; glyph_bottom := 32; glyph_char := 0x48%N |} ]
       ++ repeat
            {| glyph_top := 400; glyph_bottom := 412; glyph_char := 0x63%N |}
            60
       ++ [ {| glyph_top := 800; glyph_bottom := 812;
               glyph_char := 0x46%N |} ] |}.

Definition a4_env : Env :=
  example_env [u "manual.pdf"] (Return (map cropped_text [a4_page]))
    (Raise []) (Raise []) None.

(** The cell has text that is not blank. *)
Definition cell_has_text (cell : str * str) : bool :=
  truthy (strip (snd cell)).

(** The index labels of the frame are integers, no two the same; so it
    is for the default index, which numbers the rows. *)
Definition distinct_int_labels (df : DataFrame) : Prop :=
  exists zs, map fst df = map IntLabel zs /\ NoDup zs.

(** The frame has the default index: the label of a row is its
    position, counted from 0. *)
Definition default_index (df : DataFrame) : Prop :=
  map fst df = map (fun k => IntLabel (Z.of_nat k)) (seq 0 (length df)).

(** The frame that [process_excel] reads for [file_name]. *)
Definition read_table (env : Env) (file_path file_name : str)
  : result DataFrame :=
  if endswith file_name (u ".csv") then pd_read_csv env file_path
  else pd_read_excel env file_path.

(** The [lines] of [process_txt]: the lines of the text that are not
    blank, stripped. *)
Definition nonblank_lines (raw_text : str) : list str :=
  map strip
    (filter (fun ln => truthy (strip ln)) (map rstrip (splitlines raw_text))).

(** The text that [main] of 02_download_details.py saves for an article:
    [f.write(f"{final_title}\n{'='*20}\n\n")],
    [f.write(f"URL: {link}\n\n")], [f.write(content)]. *)
Definition saved_text (final_title link content : str) : str :=
  (final_title ++ [NEWLINE] ++ repeat 0x3D%N 20 ++ [NEWLINE; NEWLINE])
  ++ (u "URL: " ++ link ++ [NEWLINE; NEWLINE])
  ++ content.

(** A line of the body: neither a rule of [=] nor a line with the tag
    [url:]. *)
Definition is_body_line (ln : str) : bool :=
  negb (is_rule_line ln) && negb (is_url_line ln).

Definition no_linebreak (s : str) : bool :=
  forallb (fun c => negb (islinebreak c)) s.

(** A saved article and the one record it gives. *)
Definition article_title : str := u "泵站巡检规程".

Definition article_link : str := u "http://example.com/a1".

Definition article_content : str :=
  u "The pump is checked every day before the shift starts, and the oil level is read at the gauge.".

Definition article_env : Env :=
  example_env [u "a1.txt"] (Raise []) (Raise [])
    (Return (saved_text article_title article_link article_content)) None.

Definition article_record : ChunkRecord :=
  txt_record (u "a1.txt") (u "0a") article_title article_link 0
    article_content.

(** A digit of [hexdigest]: 0-9 or a-f. *)
Definition is_hex_digit (c : char) : bool :=
  (((0x30 <=? c) && (c <=? 0x39)) || ((0x61 <=? c) && (c <=? 0x66)))%N.

(** A code point that UTF-8 encodes: a Unicode scalar value, that is, a
    code point up to U+10FFFF that is not a surrogate. *)
Definition encodable (c : char) : bool :=
  ((c <? 0x110000) && negb ((0xD800 <=? c) && (c <=? 0xDFFF)))%N.

(** The file is one that [main] hands to [generate_doc_id]: it is not
    hidden and not a directory. *)
Definition hashed_file (env : Env) (root file_name : str) : bool :=
  negb (startswith file_name (u "."))
  && negb (os_path_isdir env (os_path_join env root file_name)).

(** A walk with one file whose name has a lone surrogate, as [os.walk]
    gives for a name that is not valid UTF-8. *)
Definition surrogate_env : Env :=
  example_env [u "log.csv"; [0x61; 0xDCFF; 0x2E; 0x74; 0x78; 0x74]%N]
    (Raise []) (Return one_row_table) (Raise []) None.

(* ================================================================== *)
(** * Checks of the embedding on concrete inputs *)
(* ================================================================== *)

Example md5_empty :
  generate_doc_id [] = Some (u "d41d8cd98f00b204e9800998ecf8427e").
Proof. vm_compute. reflexivity. Qed.

Example md5_abc :
  generate_doc_id (u "abc") = Some (u "900150983cd24fb0d6963f7d28e17f72").
Proof. vm_compute. reflexivity. Qed.

Example md5_two_blocks :
  MD5.hexdigest (repeat 0x61%N 64) = u "014842d480b571495a4a0363793f7367"
  /\ MD5.hexdigest (repeat 0x61%N 56) = u "3b0c8ac703f828b04c6c197006d17218".
Proof. vm_compute. split; reflexivity. Qed.

Example md5_relative_path :
  generate_doc_id (u "手册/a.pdf") = Some (u "17111c4cf036ccf2d75d3273337589a8").
Proof. vm_compute. reflexivity. Qed.

Example clean_text_basic_sample :
  clean_text_basic (u "  第一章   总则
 设备。 ") = u "第一章 总则 设备。".
Proof. vm_compute. reflexivity. Qed.

Example isprintable_samples :
  isprintable 0x378%N = false /\ isprintable 0xFFFF%N = false
  /\ isprintable 0x200B%N = false /\ isprintable 0x3000%N = false
  /\ isprintable 0x20%N = true /\ isprintable 0x4E2D%N = true
  /\ isprintable 0x1F600%N = true.
Proof. vm_compute. repeat split; reflexivity. Qed.

Example clean_text_basic_unassigned :
  clean_text_basic [0x61; 0x20; 0x378; 0x20; 0x62]%N
  = [0x61; 0x20; 0x20; 0x62]%N.
Proof. vm_compute. reflexivity. Qed.

Example format_value_samples :
  format_value (Int 0) = u "0" /\ format_value (Int 12) = u "12"
  /\ format_value (Int (-3)) = u "-3"
  /\ format_value (Other (u "2.5")) = u "2.5".
Proof. vm_compute. repeat split; reflexivity. Qed.

(** Rows with the labels 5, 5, a string and 7: the two first rows share
    their row number, and the addition on the string ends the loop. *)
Example excel_rows_labels :
  excel_rows (u "log.csv") (u "id")
    [ (IntLabel 5, [(u "a", u "x")]);
      (IntLabel 5, [(u "a", u "y")]);
      (OtherLabel (Raise (u "TypeError")), [(u "a", u "z")]);
      (IntLabel 7, [(u "a", u "w")]) ] []
  = ([ excel_record (u "log.csv") (u "id") (Int 6) (u "a:x");
       excel_record (u "log.csv") (u "id") (Int 6) (u "a:y") ],
     [TableError (u "log.csv") (u "TypeError")]).
Proof. vm_compute. reflexivity. Qed.

Example bbox_a4 : bbox 595 842 = (0, 42.1, 595, 774.64)%float.
Proof. vm_compute. reflexivity. Qed.

Example cropped_text_a4 : cropped_text a4_page = Return (repeat 0x63%N 60).
Proof. vm_compute. reflexivity. Qed.

Example split_sentences_sample :
  split_sentences (u "你好。 世界！剩下") = [u "你好。"; u "世界！"; u "剩下"].
Proof. vm_compute. reflexivity. Qed.

Example extract_title_samples :
  extract_title (u "第一章 总则 本手册")  = u "第一章"
  /\ extract_title (u "1.1 安全须知") = u "1.1"
  /\ extract_title (u "前言 第一章") = []
  /\ extract_title (u "第章") = [].
Proof. vm_compute. repeat split; reflexivity. Qed.

Example splitlines_samples :
  splitlines (u "a
b") = [u "a"; u "b"]
  /\ splitlines [0x61; 0x0D; 0x0A; 0x0A; 0x62; 0x0A]%N = [u "a"; []; u "b"]
  /\ splitlines [0x0A%N] = [[]].
Proof. vm_compute. repeat split; reflexivity. Qed.

Example str_of_nat_samples :
  str_of_nat 0 = u "0" /\ str_of_nat 12 = u "12" /\ str_of_nat 305 = u "305".
Proof. vm_compute. repeat split; reflexivity. Qed.

Example semantic_chunking_default_overlap :
  assemble_chunks default_config 10 [u "aaaaa。"; u "bbbbb。"; u "ccccc。"]
  = [u "aaaaa。"; u "aaaaa。bbbbb。"; u "aaaaa。bbbbb。ccccc。"].
Proof. vm_compute. reflexivity. Qed.

(* ================================================================== *)
(** * Characters and stripping *)
(* ================================================================== *)

Ltac bool_to_prop :=
  repeat match goal with
  | H : (_ || _) = true |- _ => apply orb_true_iff in H; destruct H as [H | H]
  | H : (_ && _) = true |- _ => apply andb_true_iff in H; destruct H as [? H]
  | H : (_ <=? _)%N = true |- _ => apply N.leb_le in H
  | H : (_ =? _)%N = true |- _ => apply N.eqb_eq in H
  | H : false = true |- _ => discriminate H
  end.

(** A range inside a range of the table is in the table. *)
Lemma in_ranges_sub (tbl : list (N * N)) (lo hi c : N) :
  existsb (fun '(l, h) => ((l <=? lo) && (hi <=? h))%N) tbl = true ->
  (lo <= c <= hi)%N -> in_ranges tbl c = true.
Proof.
  induction tbl as [| [l h] tbl IH]; simpl; [discriminate |].
  intros H Hc. apply orb_true_iff in H. apply orb_true_iff.
  destruct H as [H | H]; [left | right; auto].
  apply andb_true_iff in H. destruct H as [H1 H2].
  apply N.leb_le in H1, H2. apply andb_true_iff.
  split; apply N.leb_le; lia.
Qed.

Lemma isspace_other_or_separator (c : char) :
  isspace c = true -> in_ranges other_or_separator_table c = true.
Proof.
  unfold isspace; cbn [in_ranges space_table]; intros H.
  repeat (apply orb_true_iff in H; destruct H as [H | H]);
    try discriminate H;
    apply andb_true_iff in H; destruct H as [H1 H2];
    apply N.leb_le in H1, H2;
    match type of H1 with
    | (?lo <= _)%N =>
        match type of H2 with
        | (_ <= ?hi)%N =>
            apply (@in_ranges_sub other_or_separator_table lo hi c);
              [vm_compute; reflexivity | split; assumption]
        end
    end.
Qed.

(** A whitespace character that [isprintable] keeps is U+0020. *)
Lemma isspace_isprintable (c : char) :
  isspace c = true -> isprintable c = true -> c = 0x20%N.
Proof.
  intros Hs Hp. unfold isprintable in Hp.
  rewrite (isspace_other_or_separator c Hs), orb_false_r in Hp.
  now apply N.eqb_eq.
Qed.

Lemma boundary_of_terminator (c : char) :
  is_terminator c = true -> is_boundary c = true.
Proof. unfold is_boundary; intros ->; reflexivity. Qed.

Lemma terminator_nonspace (c : char) :
  is_terminator c = true -> isspace c = false.
Proof.
  unfold is_terminator, FULL_STOP, EXCLAMATION, QUESTION; intros H.
  bool_to_prop; subst; reflexivity.
Qed.

Lemma newline_isspace : isspace NEWLINE = true.
Proof. reflexivity. Qed.

Lemma lstrip_split (s : str) :
  exists a, s = a ++ lstrip s /\ forallb isspace a = true.
Proof.
  induction s as [| c s IH]; simpl.
  - exists []; auto.
  - destruct (isspace c) eqn:Hc.
    + destruct IH as [a [E Ha]]. exists (c :: a); simpl.
      rewrite Hc, Ha. split; [congruence | reflexivity].
    + exists []; auto.
Qed.

Lemma rstrip_split (s : str) :
  exists b, s = rstrip s ++ b /\ forallb isspace b = true.
Proof.
  unfold rstrip. destruct (lstrip_split (rev s)) as [a [E Ha]].
  exists (rev a). split.
  - rewrite <- rev_app_distr, <- E. symmetry; apply rev_involutive.
  - rewrite forallb_forall in *. intros x Hx. apply Ha.
    now apply in_rev.
Qed.

(** [strip] removes a whitespace prefix and a whitespace suffix, nothing
    else. *)
Lemma strip_split (s : str) :
  exists a b, s = a ++ strip s ++ b
              /\ forallb isspace a = true /\ forallb isspace b = true.
Proof.
  unfold strip. destruct (lstrip_split s) as [a [Ea Ha]].
  destruct (rstrip_split (lstrip s)) as [b [Eb Hb]].
  exists a, b. repeat split; try assumption. now rewrite <- Eb.
Qed.

Lemma filter_nonspace_spaces (a : str) :
  forallb isspace a = true -> filter nonspace a = [].
Proof.
  induction a as [| c a IH]; simpl; [reflexivity |].
  intros H. apply andb_true_iff in H. destruct H as [Hc Ha].
  unfold nonspace at 1. rewrite Hc. simpl. auto.
Qed.

Lemma strip_filter_nonspace (s : str) :
  filter nonspace (strip s) = filter nonspace s.
Proof.
  destruct (strip_split s) as [a [b [E [Ha Hb]]]].
  rewrite E at 2. rewrite !filter_app.
  now rewrite (filter_nonspace_spaces a), (filter_nonspace_spaces b),
    app_nil_r.
Qed.

Lemma lstrip_head_nonspace (s : str) :
  match s with c :: _ => isspace c = false | [] => True end ->
  lstrip s = s.
Proof. destruct s as [| c s]; simpl; [reflexivity | intros ->; reflexivity]. Qed.

Lemma strip_nonspace (s : str) :
  forallb nonspace s = true -> strip s = s.
Proof.
  intros H. unfold strip, rstrip.
  assert (Hh : forall t, forallb nonspace t = true -> lstrip t = t).
  { intros t Ht. apply lstrip_head_nonspace. destruct t; [exact I |].
    simpl in Ht. apply andb_true_iff in Ht. destruct Ht as [Ht _].
    now apply negb_true_iff in Ht. }
  rewrite (Hh s H). rewrite Hh; [apply rev_involutive |].
  rewrite forallb_forall in *. intros x Hx. apply H. now apply in_rev.
Qed.

Lemma lstrip_head (s : str) :
  match lstrip s with c :: _ => isspace c = false | [] => True end.
Proof.
  induction s as [| c s IH]; simpl; [exact I |].
  destruct (isspace c) eqn:Hc; [exact IH | exact Hc].
Qed.

Lemma lstrip_incl (s : str) (c : char) : In c (lstrip s) -> In c s.
Proof.
  destruct (lstrip_split s) as [a [E _]]. intros H. rewrite E.
  apply in_or_app; now right.
Qed.

Lemma strip_incl (s : str) (c : char) : In c (strip s) -> In c s.
Proof.
  unfold strip, rstrip. intros H. apply in_rev in H.
  apply lstrip_incl in H. apply in_rev in H. now apply lstrip_incl.
Qed.

(* ================================================================== *)
(** * split_sentences: the sentences are the trimmed segments *)
(* ================================================================== *)

Lemma segments_from_concat (text seg : str) :
  concat (segments_from seg text) = seg ++ text.
Proof.
  revert seg. induction text as [| c r IH]; intros seg; simpl.
  - reflexivity.
  - destruct (is_boundary c); simpl; rewrite IH, <- ?app_assoc; reflexivity.
Qed.

Lemma re_match_boundary_piece (piece : str) :
  forallb (fun c => negb (is_boundary c)) piece = true ->
  re_match_boundary piece = false.
Proof.
  destruct piece as [| c p]; simpl; [reflexivity |].
  intros H. apply andb_true_iff in H. destruct H as [H _].
  now apply negb_true_iff in H.
Qed.

Lemma segments_from_nonempty (text seg : str) : segments_from seg text <> [].
Proof.
  revert seg. induction text as [| c r IH]; intros seg; simpl.
  - discriminate.
  - destruct (is_boundary c); [discriminate | apply IH].
Qed.

Lemma split_step_piece (acc : list str) (cur piece : str) :
  forallb (fun c => negb (is_boundary c)) piece = true ->
  split_step (acc, cur) piece = (acc, cur ++ piece).
Proof.
  intros Hp. unfold split_step. now rewrite (re_match_boundary_piece _ Hp).
Qed.

Lemma split_step_boundary (acc : list str) (cur : str) (c : char) :
  is_boundary c = true ->
  split_step (acc, cur) [c] = (acc ++ [strip (cur ++ [c])], []).
Proof. intros Hc. unfold split_step. simpl. now rewrite Hc. Qed.

(** The loop of [split_sentences] over the parts of [re.split]: when the
    piece being scanned is [piece] and the sentence begun is [cur], the
    loop ends with the trimmed segments of [cur ++ piece ++ text], the
    last one left in [current_sent], untrimmed. *)
Lemma split_loop_segments (text piece cur : str) (acc : list str) :
  forallb (fun c => negb (is_boundary c)) piece = true ->
  fold_left split_step (re_split_from piece text) (acc, cur)
  = (acc ++ map strip (removelast (segments_from (cur ++ piece) text)),
     last (segments_from (cur ++ piece) text) []).
Proof.
  revert piece cur acc. induction text as [| c r IH]; intros piece cur acc Hp.
  - cbn [re_split_from segments_from fold_left].
    rewrite (split_step_piece _ _ _ Hp). simpl. now rewrite app_nil_r.
  - cbn [re_split_from segments_from]. destruct (is_boundary c) eqn:Hc.
    + cbn [fold_left]. rewrite (split_step_piece _ _ _ Hp).
      rewrite (split_step_boundary _ _ c Hc).
      rewrite (IH [] [] _ eq_refl). cbn [app].
      destruct (segments_from [] r) as [| s0 l0] eqn:Es.
      * now apply segments_from_nonempty in Es.
      * cbn [removelast last map]. now rewrite <- !app_assoc.
    + rewrite IH.
      * now rewrite <- !app_assoc.
      * rewrite forallb_app, Hp. simpl. now rewrite Hc.
Qed.

Lemma strip_nil : strip [] = [].
Proof. reflexivity. Qed.

(** [split_sentences] returns the non-empty trimmed segments. *)
Lemma split_sentences_segments (text : str) :
  split_sentences text = filter (@truthy char) (map strip (segments text)).
Proof.
  unfold split_sentences, re_split, segments. cbv zeta.
  pose proof (split_loop_segments text [] [] [] eq_refl) as Hloop.
  simpl app in Hloop.
  match goal with
  | |- context [fold_left ?f ?l ?a] =>
      replace (fold_left f l a)
        with (map strip (removelast (segments_from [] text)),
              last (segments_from [] text) [])
        by (symmetry; exact Hloop)
  end.
  pose proof (segments_from_nonempty text []) as Hne.
  destruct (@exists_last _ (segments_from [] text) Hne) as [l [x E]].
  rewrite E, removelast_last, last_last, map_app, filter_app. simpl map.
  destruct x as [| c x]; simpl truthy; cbv iota.
  - simpl. now rewrite app_nil_r.
  - now rewrite filter_app.
Qed.

Lemma filter_truthy_concat (A : Type) (l : list (list A)) :
  concat (filter (@truthy A) l) = concat l.
Proof.
  induction l as [| x l IH]; simpl; [reflexivity |].
  destruct x; simpl; [exact IH | now rewrite IH].
Qed.

Lemma concat_map_strip_nonspace (l : list str) :
  filter nonspace (concat (map strip l)) = filter nonspace (concat l).
Proof.
  induction l as [| x l IH]; simpl; [reflexivity |].
  now rewrite !filter_app, strip_filter_nonspace, IH.
Qed.

Lemma map_strip_nonspace (l : list str) :
  forallb nonspace (concat l) = true -> map strip l = l.
Proof.
  induction l as [| x l IH]; simpl; [reflexivity |].
  rewrite forallb_app. intros H. apply andb_true_iff in H.
  destruct H as [Hx Hl]. now rewrite strip_nonspace, IH.
Qed.

(** Claim C2, as amended: the sentences that [split_sentences] returns are
    the non-empty whitespace-trimmed segments of the text, where the
    segments end right after each 。！？ or newline and concatenate to the
    text exactly; so concatenating the sentences gives the text without
    the whitespace at the edges of its segments, and every character that
    is not whitespace is kept once and in order. *)
Theorem split_sentences_trimmed_segments (T : str) :
  concat (segments T) = T
  /\ split_sentences T = filter (@truthy char) (map strip (segments T))
  /\ filter nonspace (concat (split_sentences T)) = filter nonspace T.
Proof.
  assert (Hc : concat (segments T) = T) by apply segments_from_concat.
  repeat split; [exact Hc | apply split_sentences_segments |].
  rewrite split_sentences_segments, filter_truthy_concat,
    concat_map_strip_nonspace.
  now rewrite Hc.
Qed.

(** The splitting is lossless on a text without whitespace. *)
Lemma split_sentences_lossless_nonspace (T : str) :
  forallb nonspace T = true -> concat (split_sentences T) = T.
Proof.
  intros H. rewrite split_sentences_segments, filter_truthy_concat.
  pose proof (segments_from_concat T []) as Hc. simpl in Hc.
  unfold segments. rewrite map_strip_nonspace; rewrite Hc; auto.
Qed.

(** Claim C2 as stated fails: this text is what the normalizer returns for
    itself, and the space after its first sentence is lost. *)
Lemma split_sentences_drops_space :
  clean_text_basic (u "你好。 世界。") = u "你好。 世界。"
  /\ split_sentences (u "你好。 世界。") = [u "你好。"; u "世界。"]
  /\ concat (split_sentences (u "你好。 世界。")) <> u "你好。 世界。".
Proof. vm_compute. repeat split; try reflexivity. discriminate. Qed.

(* ================================================================== *)
(** * clean_text_basic: what the result can contain *)
(* ================================================================== *)

Lemma clean_text_basic_incl (text : str) (c : char) :
  In c (clean_text_basic text) -> isprintable c = true.
Proof.
  unfold clean_text_basic. destruct text as [| c0 text]; simpl negb;
    cbv iota; [intros [] |].
  intros H. apply strip_incl in H. now apply filter_In in H.
Qed.

(** The only whitespace of a cleaned text is U+0020. *)
Lemma clean_text_basic_plain_spaces (text : str) (c : char) :
  In c (clean_text_basic text) -> isspace c = true -> c = 0x20%N.
Proof.
  intros H Hs. apply isspace_isprintable; [exact Hs |].
  eapply clean_text_basic_incl; eassumption.
Qed.

(** A cleaned text has no newline. *)
Lemma clean_text_basic_no_newline (text : str) :
  ~ In NEWLINE (clean_text_basic text).
Proof.
  intros H. apply clean_text_basic_plain_spaces in H;
    [discriminate H | reflexivity].
Qed.

(** On a cleaned text the newline rule of the splitter never applies:
    its boundaries are the three punctuation marks. *)
Lemma clean_text_basic_boundaries (text : str) (c : char) :
  In c (clean_text_basic text) -> is_boundary c = is_terminator c.
Proof.
  intros H. unfold is_boundary. destruct (c =? NEWLINE)%N eqn:E.
  - apply N.eqb_eq in E. subst c.
    now apply clean_text_basic_no_newline in H.
  - now rewrite orb_false_r.
Qed.

Lemma single_spaced_cons (c : char) (s : str) :
  single_spaced (c :: s)
  = match s with
    | d :: _ => negb (isspace c && isspace d) && single_spaced s
    | [] => true
    end.
Proof. destruct s; reflexivity. Qed.

Lemma single_spaced_adjacent (s : str) (c d : char) :
  single_spaced s = true -> adjacent c d s ->
  isspace c = true -> isspace d = true -> False.
Proof.
  intros Hs [a [b E]] Hc Hd. subst s.
  induction a as [| x a IH].
  - simpl in Hs. rewrite Hc, Hd in Hs. discriminate.
  - apply IH. simpl app in Hs. rewrite single_spaced_cons in Hs.
    destruct (a ++ c :: d :: b); [reflexivity |].
    apply andb_true_iff in Hs. tauto.
Qed.

(** After [re.sub] no two neighbours are whitespace, and the result does
    not begin with whitespace when the scan started inside a run. *)
Lemma re_sub_spaces_single (text : str) (in_run : bool) :
  single_spaced (re_sub_spaces_from in_run text) = true
  /\ (in_run = true ->
      match re_sub_spaces_from in_run text with
      | d :: _ => isspace d = false
      | [] => True
      end).
Proof.
  revert in_run. induction text as [| c r IH]; intros in_run.
  - simpl. auto.
  - cbn [re_sub_spaces_from]. destruct (isspace c) eqn:Hc.
    + destruct in_run.
      * apply IH.
      * split; [| discriminate]. destruct (IH true) as [H1 H2].
        rewrite single_spaced_cons. specialize (H2 eq_refl).
        destruct (re_sub_spaces_from true r); [reflexivity |].
        now rewrite H2, andb_false_r, H1.
    + destruct (IH false) as [H1 _]. split; [| intros _; exact Hc].
      rewrite single_spaced_cons.
      destruct (re_sub_spaces_from false r); [reflexivity |].
      now rewrite Hc, H1.
Qed.

Lemma re_sub_spaces_incl (text : str) (in_run : bool) (c : char) :
  In c (re_sub_spaces_from in_run text) ->
  c = 0x20%N \/ (In c text /\ isspace c = false).
Proof.
  revert in_run. induction text as [| x r IH]; intros in_run; simpl;
    [intros [] |].
  destruct (isspace x) eqn:Hx.
  - destruct in_run; simpl; intros H.
    + destruct (IH _ H) as [? | [? ?]]; auto.
    + destruct H as [H | H]; [now left |].
      destruct (IH _ H) as [? | [? ?]]; auto.
  - simpl. intros [H | H].
    + subst. auto.
    + destruct (IH _ H) as [? | [? ?]]; auto.
Qed.

Lemma filter_all (A : Type) (p : A -> bool) (l : list A) :
  (forall x, In x l -> p x = true) -> filter p l = l.
Proof.
  induction l as [| x l IH]; simpl; intros H; [reflexivity |].
  rewrite (H x (or_introl eq_refl)), IH; auto.
Qed.

Lemma adjacent_strip (s : str) (c d : char) :
  adjacent c d (strip s) -> adjacent c d s.
Proof.
  intros [a [b E]]. destruct (strip_split s) as [p [q [Es _]]].
  exists (p ++ a), (b ++ q). rewrite Es at 1. rewrite E.
  now rewrite <- !app_assoc.
Qed.

(** When the text has no character that [isprintable] removes, other than
    whitespace, the cleaned text has no two whitespace neighbours. *)
Lemma clean_text_basic_single_spaced (text : str) (c d : char) :
  (forall x, In x text -> isspace x = true \/ isprintable x = true) ->
  adjacent c d (clean_text_basic text) ->
  isspace c = true -> isspace d = true -> False.
Proof.
  intros Hp Hadj. unfold clean_text_basic in Hadj.
  destruct (negb (truthy text)).
  - destruct Hadj as [a [b E]]. destruct a; discriminate E.
  - apply adjacent_strip in Hadj. rewrite filter_all in Hadj.
    + refine (@single_spaced_adjacent (re_sub_spaces text) c d _ Hadj).
      apply re_sub_spaces_single.
    + intros x Hx. apply re_sub_spaces_incl in Hx.
      destruct Hx as [-> | [Hx Hs]]; [reflexivity |].
      destruct (Hp x Hx) as [H | H]; congruence.
Qed.

(** Claim C10 at the inputs ["a \x00 b"] and ["a \u200b b"]: the two
    runs of whitespace around the control character (or the zero-width
    space) are each replaced by one space, the character between them is
    removed afterwards, and the cleaned text ["a  b"] has two spaces in
    a row. *)
Theorem clean_text_basic_double_space :
  clean_text_basic [0x61; 0x20; 0x00; 0x20; 0x62]%N
  = [0x61; 0x20; 0x20; 0x62]%N
  /\ clean_text_basic [0x61; 0x20; 0x200B; 0x20; 0x62]%N
     = [0x61; 0x20; 0x20; 0x62]%N
  /\ adjacent 0x20%N 0x20%N
       (clean_text_basic [0x61; 0x20; 0x00; 0x20; 0x62]%N).
Proof.
  split; [vm_compute; reflexivity |].
  split; [vm_compute; reflexivity |].
  exists [0x61%N], [0x62%N]. vm_compute. reflexivity.
Qed.

(* ================================================================== *)
(** * semantic_chunking: the sentences of each chunk *)
(* ================================================================== *)

Lemma chunk_step_joined (cfg : Config) (chunk_size : nat)
    (g : group_state) (sent : str) :
  chunk_step cfg chunk_size (joined g) sent
  = joined (group_step cfg chunk_size g sent).
Proof.
  unfold chunk_step, group_step, joined. simpl.
  destruct ((chunk_size <? group_len g + len sent) && (0 <? group_len g));
    simpl; [| reflexivity].
  now rewrite map_app.
Qed.

Lemma fold_chunk_step_joined (cfg : Config) (chunk_size : nat)
    (sentences : list str) (g : group_state) :
  fold_left (chunk_step cfg chunk_size) sentences (joined g)
  = joined (fold_left (group_step cfg chunk_size) sentences g).
Proof.
  revert g. induction sentences as [| s l IH]; intros g; simpl.
  - reflexivity.
  - now rewrite chunk_step_joined, IH.
Qed.

(** The chunks are the joined sentence groups. *)
Lemma assemble_chunks_groups (cfg : Config) (chunk_size : nat)
    (sentences : list str) :
  assemble_chunks cfg chunk_size sentences
  = map join (assemble_groups cfg chunk_size sentences).
Proof.
  unfold assemble_chunks, assemble_groups.
  change {| chunks := []; current_chunk := []; current_len := 0 |}
    with (joined {| groups := []; group := []; group_len := 0 |}).
  rewrite fold_chunk_step_joined. simpl.
  destruct (truthy _); [| reflexivity].
  now rewrite map_app.
Qed.

(** Claim C3: three sentences of six characters each, a chunk size of 10
    and an overlap of one sentence give the three chunks [s1], [s1, s2]
    and [s2, s3], each beginning with the last sentence of the chunk
    before it. *)
Theorem overlap_three_sentences (cfg : Config) (s1 s2 s3 : str) :
  OVERLAP_SENTENCES cfg = 1 ->
  len s1 = 6 -> len s2 = 6 -> len s3 = 6 ->
  assemble_groups cfg 10 [s1; s2; s3] = [[s1]; [s1; s2]; [s2; s3]]
  /\ assemble_chunks cfg 10 [s1; s2; s3] = [s1; s1 ++ s2; s2 ++ s3].
Proof.
  intros Ho H1 H2 H3.
  assert (G : assemble_groups cfg 10 [s1; s2; s3]
              = [[s1]; [s1; s2]; [s2; s3]]).
  { unfold assemble_groups, group_step. simpl.
    rewrite Ho. repeat (rewrite ?H1, ?H2, ?H3; simpl). reflexivity. }
  split; [exact G |].
  rewrite assemble_chunks_groups, G. simpl. now rewrite !app_nil_r.
Qed.

Lemma overlap_three_sentences_witness :
  assemble_groups {| CHUNK_SIZE := 10; MIN_CHUNK_SIZE := 50;
                     OVERLAP_SENTENCES := 1 |} 10
    [u "一二三四五。"; u "甲乙丙丁戊！"; u "子丑寅卯辰？"]
  = [[u "一二三四五。"]; [u "一二三四五。"; u "甲乙丙丁戊！"];
     [u "甲乙丙丁戊！"; u "子丑寅卯辰？"]]
  /\ assemble_chunks {| CHUNK_SIZE := 10; MIN_CHUNK_SIZE := 50;
                        OVERLAP_SENTENCES := 1 |} 10
       [u "一二三四五。"; u "甲乙丙丁戊！"; u "子丑寅卯辰？"]
     = [u "一二三四五。"; u "一二三四五。" ++ u "甲乙丙丁戊！";
        u "甲乙丙丁戊！" ++ u "子丑寅卯辰？"].
Proof.
  apply (@overlap_three_sentences
           {| CHUNK_SIZE := 10; MIN_CHUNK_SIZE := 50;
              OVERLAP_SENTENCES := 1 |}
           (u "一二三四五。") (u "甲乙丙丁戊！") (u "子丑寅卯辰？"));
    reflexivity.
Defined.

(** The same three sentences given as one text to [semantic_chunking]. *)
Example semantic_chunking_overlap_one :
  semantic_chunking {| CHUNK_SIZE := 10; MIN_CHUNK_SIZE := 50;
                       OVERLAP_SENTENCES := 1 |}
    (u "一二三四五。甲乙丙丁戊！子丑寅卯辰？") 10
  = [u "一二三四五。"; u "一二三四五。甲乙丙丁戊！";
     u "甲乙丙丁戊！子丑寅卯辰？"].
Proof. vm_compute. reflexivity. Qed.

(* ================================================================== *)
(** * The records of the adapters *)
(* ================================================================== *)

Lemma enumerate_from_In (A : Type) (l : list A) (k i : nat) (x : A) :
  In (i, x) (enumerate_from k l) <->
  exists j, i = k + j /\ nth_error l j = Some x.
Proof.
  revert k. induction l as [| y l IH]; intros k; simpl.
  - split; [intros [] | intros [[| j] [_ H]]; discriminate H].
  - rewrite IH. split.
    + intros [H | [j [Hi Hj]]].
      * inversion H; subst. exists 0. split; [lia | reflexivity].
      * exists (S j). split; [lia | exact Hj].
    + intros [[| j] [Hi Hj]]; simpl in Hj.
      * left. inversion Hj; subst. f_equal. lia.
      * right. exists j. split; [lia | exact Hj].
Qed.

(** The loop over the chunks gives one record for each chunk that is long
    enough, built from the index of the chunk, and nothing else. *)
Lemma chunk_loop_In (cfg : Config) (mk : nat -> str -> ChunkRecord)
    (chunks : list str) (r : ChunkRecord) :
  In r (chunk_loop cfg mk chunks) <->
  exists idx c, nth_error chunks idx = Some c
                /\ MIN_CHUNK_SIZE cfg <= len c /\ r = mk idx c.
Proof.
  unfold chunk_loop, enumerate. rewrite in_flat_map. split.
  - intros [[idx c] [Hin Hr]]. apply enumerate_from_In in Hin.
    destruct Hin as [j [-> Hj]]. simpl in *.
    destruct (len c <? MIN_CHUNK_SIZE cfg) eqn:E; [destruct Hr |].
    apply Nat.ltb_ge in E. destruct Hr as [<- | []].
    exists j, c. auto.
  - intros [idx [c [Hn [Hl ->]]]]. exists (idx, c). split.
    + apply enumerate_from_In. exists idx. auto.
    + apply Nat.ltb_ge in Hl. rewrite Hl. now left.
Qed.

Lemma pdf_pages_shape (cfg : Config) (file_name doc_id : str)
    (pages : list page) (i : nat) (section : str)
    (results : list ChunkRecord) (r : ChunkRecord) :
  In r (fst (pdf_pages cfg file_name doc_id pages i section results)) ->
  In r results \/ record_shape cfg file_name doc_id r.
Proof.
  revert i section results.
  induction pages as [| p rest IH]; intros i section results; simpl.
  - auto.
  - destruct p as [text | e]; [| auto].
    destruct (negb (truthy text)); [apply IH |].
    intros H. apply IH in H. destruct H as [H | H]; [| now right].
    apply in_app_or in H. destruct H as [H | H]; [now left | right].
    apply chunk_loop_In in H. destruct H as [idx [c [Hn [Hl ->]]]].
    eapply shape_pdf; eauto.
Qed.

Lemma process_pdf_shape (env : Env) (cfg : Config)
    (file_path file_name doc_id : str) (r : ChunkRecord) :
  In r (fst (process_pdf env cfg file_path file_name doc_id)) ->
  record_shape cfg file_name doc_id r.
Proof.
  unfold process_pdf. destruct (pdfplumber_open env file_path); simpl.
  - intros H. apply pdf_pages_shape in H. destruct H as [[] | H]; exact H.
  - intros [].
Qed.

Lemma truthy_len (s : str) : truthy s = true -> 1 <= len s.
Proof. destruct s; simpl; [discriminate | lia]. Qed.

Lemma excel_rows_In (file_name doc_id : str)
    (rows : list (label * list (str * str)))
    (results : list ChunkRecord) (r : ChunkRecord) :
  In r (fst (excel_rows file_name doc_id rows results)) ->
  In r results
  \/ exists k index row row_num,
       nth_error rows k = Some (index, row)
       /\ add_one index = Return row_num
       /\ truthy (clean_text_basic (join_with (u " ") (row_parts row)))
          = true
       /\ r = excel_record file_name doc_id row_num
                (clean_text_basic (join_with (u " ") (row_parts row))).
Proof.
  revert results.
  induction rows as [| [index row] rest IH]; intros results; simpl.
  - auto.
  - destruct (add_one index) as [row_num | e] eqn:Ea; [| simpl; auto].
    destruct (truthy (clean_text_basic _)) eqn:E; simpl; intros H;
      apply IH in H.
    + destruct H as [H | [k [i [w [n [Hk H]]]]]].
      * apply in_app_or in H. destruct H as [H | [<- | []]]; [now left |].
        right. exists 0, index, row, row_num. simpl. auto.
      * right. exists (S k), i, w, n. simpl. auto.
    + destruct H as [H | [k [i [w [n [Hk H]]]]]]; [now left |].
      right. exists (S k), i, w, n. simpl. auto.
Qed.

Lemma process_excel_shape (env : Env) (cfg : Config)
    (file_path file_name doc_id : str) (r : ChunkRecord) :
  In r (fst (process_excel env file_path file_name doc_id)) ->
  record_shape cfg file_name doc_id r.
Proof.
  unfold process_excel.
  destruct (if endswith file_name (u ".csv") then _ else _) as [df | e];
    simpl; [| intros []].
  intros H. apply excel_rows_In in H.
  destruct H as [[] | [k [index [row [row_num [_ [_ [E ->]]]]]]]].
  eapply shape_table; [| reflexivity].
  now apply truthy_len.
Qed.

Lemma process_txt_shape (env : Env) (cfg : Config)
    (file_path file_name doc_id : str) (r : ChunkRecord) :
  In r (fst (process_txt env cfg file_path file_name doc_id)) ->
  record_shape cfg file_name doc_id r.
Proof.
  unfold process_txt.
  destruct (read_text env file_path) as [raw_text | e]; [| intros []].
  destruct (negb (truthy raw_text)); [intros [] |].
  destruct (txt_title _) as [title | e]; [| intros []].
  destruct (txt_source_url _) as [url | e]; [| intros []].
  destruct (negb (truthy (clean_text_basic _))); [intros [] |].
  simpl. intros H. apply chunk_loop_In in H.
  destruct H as [idx [c [Hn [Hl ->]]]]. eapply shape_txt; eauto.
Qed.

Lemma process_docx_shape (env : Env) (cfg : Config)
    (file_path file_name doc_id : str) (r : ChunkRecord) :
  In r (fst (process_docx env cfg file_path file_name doc_id)) ->
  record_shape cfg file_name doc_id r.
Proof.
  unfold process_docx.
  destruct (Document env) as [open_document |]; [| intros []].
  destruct (open_document file_path) as [paragraphs | e]; [| intros []].
  destruct (negb (truthy (clean_text_basic _))); [intros [] |].
  simpl. intros H. apply chunk_loop_In in H.
  destruct H as [idx [c [Hn [Hl ->]]]]. eapply shape_docx; eauto.
Qed.

Lemma dispatch_shape (env : Env) (cfg : Config)
    (file_ext file_path rel_path doc_id : str) (r : ChunkRecord) :
  In r (fst (dispatch env cfg file_ext file_path rel_path doc_id)) ->
  record_shape cfg rel_path doc_id r.
Proof.
  unfold dispatch.
  destruct (str_eqb file_ext (u "pdf")); [apply process_pdf_shape |].
  destruct (existsb _ _); [apply process_excel_shape |].
  destruct (str_eqb file_ext (u "txt")); [apply process_txt_shape |].
  destruct (str_eqb file_ext (u "docx")); [apply process_docx_shape |].
  intros [].
Qed.

(** Every record of a run was built by one of the adapters for a file of
    the walk, from the file's relative path and the identifier derived
    from that path. *)
Lemma main_files_shape (env : Env) (cfg : Config) (files : list (str * str))
    (all_data all_data' : list ChunkRecord) (log log' : list log_msg)
    (r : ChunkRecord) :
  main_files env cfg files all_data log = Some (all_data', log') ->
  In r all_data' ->
  In r all_data \/
  exists root file_name id,
    In (root, file_name) files
    /\ generate_doc_id (rel_path_of env (os_path_join env root file_name))
       = Some id
    /\ record_shape cfg
         (rel_path_of env (os_path_join env root file_name)) id r.
Proof.
  revert all_data log.
  induction files as [| [root file_name] rest IH]; intros all_data log; simpl.
  - intros H; inversion H; subst. auto.
  - destruct (main_file env cfg root file_name) as [[records msgs] |] eqn:E;
      [| discriminate].
    intros H Hr. destruct (IH _ _ H Hr) as [Hin | [ro [fn [id [H1 H2]]]]].
    + apply in_app_or in Hin. destruct Hin as [Hin | Hin]; [now left |].
      right. exists root, file_name. unfold main_file in E.
      destruct (startswith file_name (u "."));
        [inversion E; subst; destruct Hin |].
      destruct (os_path_isdir env _); [inversion E; subst; destruct Hin |].
      destruct (generate_doc_id _) as [id |] eqn:Eid; [| discriminate].
      exists id. split; [now left |]. split; [reflexivity |].
      inversion E as [E']. eapply dispatch_shape. rewrite E'. exact Hin.
    + right. exists ro, fn, id. split; [now right | exact H2].
Qed.

Lemma main_shape (env : Env) (cfg : Config)
    (all_data : list ChunkRecord) (log : list log_msg) (r : ChunkRecord) :
  main env cfg = Some (all_data, log) -> In r all_data ->
  exists root file_name id,
    In (root, file_name) (walked_files env)
    /\ generate_doc_id (rel_path_of env (os_path_join env root file_name))
       = Some id
    /\ record_shape cfg
         (rel_path_of env (os_path_join env root file_name)) id r.
Proof.
  unfold main. intros H Hr.
  destruct (main_files_shape _ _ _ _ _ r H Hr) as [[] | H']. exact H'.
Qed.

Example main_table_env :
  main table_env default_config
  = Some ([table_record], []).
Proof. vm_compute. reflexivity. Qed.

(* ================================================================== *)
(** * Minimum length of the contents (C1) *)
(* ================================================================== *)

Lemma u_table_not_chunked :
  u "pdf" <> u "table" /\ u "txt" <> u "table" /\ u "docx" <> u "table".
Proof. vm_compute. repeat split; discriminate. Qed.

(** Claim C1, as amended: the records of paginated, plain-text and
    rich-text files have a content of at least MIN_CHUNK_SIZE characters,
    the loop over the chunks keeping exactly the chunks that are that
    long (with 50: one of 49 characters is dropped, one of 50 is kept);
    the records of tabular files are not filtered by length, their
    content is only non-empty. *)
Theorem min_length_by_format (env : Env) (cfg : Config) :
  (forall all_data log r,
      main env cfg = Some (all_data, log) -> In r all_data ->
      (file_type r = u "table" /\ 1 <= len (content r))
      \/ (file_type r <> u "table"
          /\ MIN_CHUNK_SIZE cfg <= len (content r)))
  /\ (forall mk chunks r,
         In r (chunk_loop cfg mk chunks) <->
         exists idx c, nth_error chunks idx = Some c
                       /\ MIN_CHUNK_SIZE cfg <= len c /\ r = mk idx c).
Proof.
  split; [| intros; apply chunk_loop_In].
  intros all_data log r Hm Hr.
  destruct (main_shape _ _ r Hm Hr) as [root [fn [id [_ [_ Hs]]]]].
  destruct u_table_not_chunked as [Hp [Ht Hd]].
  destruct Hs as [pn sec cl idx c _ Hl -> | rn c Hl ->
                 | ti ur cl idx c _ Hl -> | cl idx c _ Hl ->]; simpl.
  - right. split; assumption.
  - left. split; [reflexivity | assumption].
  - right. split; assumption.
  - right. split; assumption.
Qed.

Lemma min_length_by_format_witness :
  (file_type table_record = u "table" /\ 1 <= len (content table_record))
  \/ (file_type table_record <> u "table"
      /\ MIN_CHUNK_SIZE default_config <= len (content table_record)).
Proof.
  apply (proj1 (min_length_by_format table_env default_config)
           [table_record] [] table_record).
  - vm_compute. reflexivity.
  - left. reflexivity.
Defined.

(** Claim C1 as stated fails on a table: the row 备注 = 已修复。正常 gives
    a record whose content has 9 characters, under the minimum of 50. *)
Lemma table_record_below_minimum :
  main table_env default_config = Some ([table_record], [])
  /\ content table_record = u "备注:已修复。正常"
  /\ len (content table_record) = 9
  /\ len (content table_record) < MIN_CHUNK_SIZE default_config.
Proof. vm_compute. repeat split; reflexivity || lia. Qed.

(** With the minimum of 50, the loop drops a chunk of 49 characters and
    keeps a chunk of 50. *)
Example chunk_loop_49_50 :
  map content
    (chunk_loop default_config (docx_record (u "a.docx") (u "id"))
       [repeat 0x61%N 49; repeat 0x62%N 50])
  = [repeat 0x62%N 50].
Proof. vm_compute. reflexivity. Qed.

(* ================================================================== *)
(** * Chunk identifiers (C6) *)
(* ================================================================== *)

Lemma to_uint_nonnil (n : nat) : Nat.to_uint n <> Decimal.Nil.
Proof.
  rewrite <- (DecimalNat.Unsigned.of_to n) at 1.
  rewrite DecimalNat.Unsigned.to_of. apply DecimalFacts.unorm_nonnil.
Qed.

(** [str(n)] begins with a decimal digit. *)
Lemma str_of_nat_head (n : nat) :
  exists d rest, str_of_nat n = d :: rest /\ (0x30 <= d <= 0x39)%N.
Proof.
  unfold str_of_nat. pose proof (to_uint_nonnil n) as H.
  destruct (Nat.to_uint n); [congruence | ..]; simpl;
    eexists; eexists; (split; [reflexivity | lia]).
Qed.

Lemma str_of_int_of_nat (n : nat) : str_of_int (Z.of_nat n) = str_of_nat n.
Proof.
  unfold str_of_int. destruct (Z.of_nat n) eqn:E;
    [now rewrite <- E, Nat2Z.id | now rewrite <- E, Nat2Z.id | lia].
Qed.

(** Claim C6, as amended: the identifier is built from the document
    identifier and the position, in a form that depends on the format:
    doc_id, page number and chunk index for a paginated document; doc_id,
    the word "row" and the row number for a table; doc_id, the word "txt"
    or "docx" and the chunk index for a text or rich-text file.  The
    chunk index is the position of the content among the chunks of its
    unit. *)
Theorem chunk_id_by_format (env : Env) (cfg : Config)
    (all_data : list ChunkRecord) (log : list log_msg) (r : ChunkRecord) :
  main env cfg = Some (all_data, log) -> In r all_data ->
  (file_type r = u "table"
   /\ chunk_id r = doc_id r ++ u "_row_" ++ format_value (page_num r))
  \/ exists cleaned idx,
       nth_error (semantic_chunking cfg cleaned (CHUNK_SIZE cfg)) idx
       = Some (content r)
       /\ ((file_type r = u "pdf"
            /\ chunk_id r = doc_id r ++ u "_" ++ format_value (page_num r)
                                  ++ u "_" ++ str_of_nat idx)
           \/ (file_type r = u "txt"
               /\ page_num r = Int (Z.of_nat (idx + 1))
               /\ chunk_id r = doc_id r ++ u "_txt_" ++ str_of_nat idx)
           \/ (file_type r = u "docx"
               /\ page_num r = Int (Z.of_nat (idx + 1))
               /\ chunk_id r = doc_id r ++ u "_docx_" ++ str_of_nat idx)).
Proof.
  intros Hm Hr.
  destruct (main_shape _ _ r Hm Hr) as [root [fn [id [_ [_ Hs]]]]].
  destruct Hs as [pn sec cl idx c Hn _ -> | rn c _ ->
                 | ti ur cl idx c Hn _ -> | cl idx c Hn _ ->].
  - right. exists cl, idx. split; [exact Hn |]. left.
    split; [reflexivity |].
    cbn [chunk_id doc_id page_num pdf_record format_value].
    now rewrite str_of_int_of_nat.
  - left. split; reflexivity.
  - right. exists cl, idx. split; [exact Hn |]. right; left.
    repeat split; reflexivity.
  - right. exists cl, idx. split; [exact Hn |]. right; right.
    repeat split; reflexivity.
Qed.

Lemma chunk_id_by_format_witness :
  (file_type table_record = u "table"
   /\ chunk_id table_record
      = doc_id table_record ++ u "_row_"
          ++ format_value (page_num table_record))
  \/ exists cleaned idx,
       nth_error
         (semantic_chunking default_config cleaned
            (CHUNK_SIZE default_config)) idx
       = Some (content table_record)
       /\ ((file_type table_record = u "pdf"
            /\ chunk_id table_record
               = doc_id table_record ++ u "_"
                   ++ format_value (page_num table_record)
                   ++ u "_" ++ str_of_nat idx)
           \/ (file_type table_record = u "txt"
               /\ page_num table_record = Int (Z.of_nat (idx + 1))
               /\ chunk_id table_record
                  = doc_id table_record ++ u "_txt_" ++ str_of_nat idx)
           \/ (file_type table_record = u "docx"
               /\ page_num table_record = Int (Z.of_nat (idx + 1))
               /\ chunk_id table_record
                  = doc_id table_record ++ u "_docx_" ++ str_of_nat idx)).
Proof.
  apply (@chunk_id_by_format table_env default_config
           [table_record] [] table_record).
  - vm_compute. reflexivity.
  - left. reflexivity.
Defined.

Lemma underscore_codes :
  u "_" = [0x5F%N] /\ u "_row_" = [0x5F; 0x72; 0x6F; 0x77; 0x5F]%N.
Proof. vm_compute. split; reflexivity. Qed.

(** No text that begins with "row" is a decimal number followed by more. *)
Lemma row_not_decimal (n k : nat) (tail : str) :
  u "_row_" ++ tail <> u "_" ++ str_of_nat n ++ u "_" ++ str_of_nat k.
Proof.
  intros H.
  destruct underscore_codes as [E1 E2]. rewrite E1, E2 in H.
  destruct (str_of_nat_head n) as [d [rest [E Hd]]]. rewrite E in H.
  injection H as Hd'. subst d. exact (proj2 Hd eq_refl).
Qed.

(** Claim C6 as stated fails on a table: the identifier of the record of
    row 1 is the document identifier followed by "_row_1", which is not
    the document identifier, a unit index and a chunk index joined by the
    separator, whatever the two indices. *)
Lemma table_chunk_id_without_chunk_index :
  main table_env default_config = Some ([table_record], [])
  /\ chunk_id table_record = doc_id table_record ++ u "_row_1"
  /\ forall n k,
       chunk_id table_record
       <> doc_id table_record ++ u "_" ++ str_of_nat n
            ++ u "_" ++ str_of_nat k.
Proof.
  split; [vm_compute; reflexivity |].
  split; [vm_compute; reflexivity |].
  intros n k H.
  assert (Hc : chunk_id table_record
               = doc_id table_record ++ u "_row_" ++ u "1")
    by (vm_compute; reflexivity).
  rewrite Hc in H. apply app_inv_head in H.
  exact (@row_not_decimal n k (u "1") H).
Qed.

(* ================================================================== *)
(** * Anchors (C8) *)
(* ================================================================== *)

Lemma firstn_prefix (n : nat) (c : str) : is_prefix (firstn n c) c.
Proof. exists (skipn n c). symmetry. apply firstn_skipn. Qed.

(** What [re.match] finds is the prefix that ends at the first
    terminator. *)
Lemma re_match_first_sentence_some (c m : str) :
  re_match_first_sentence c = Some m ->
  exists pre t rest,
    c = pre ++ t :: rest /\ forallb nonterminator pre = true
    /\ is_terminator t = true /\ m = pre ++ [t].
Proof.
  revert m. induction c as [| x c IH]; intros m; simpl; [discriminate |].
  destruct (is_terminator x) eqn:Hx.
  - intros H. inversion H; subst. exists [], x, c. auto.
  - destruct (re_match_first_sentence c) as [m' |]; [| discriminate].
    simpl. intros H. inversion H; subst.
    destruct (IH m' eq_refl) as [pre [t [rest [E [Hp [Ht Em]]]]]].
    exists (x :: pre), t, rest. subst. simpl. unfold nonterminator at 1.
    rewrite Hx. auto.
Qed.

Lemma re_match_first_sentence_none (c : str) :
  re_match_first_sentence c = None -> forallb nonterminator c = true.
Proof.
  induction c as [| x c IH]; simpl; [reflexivity |].
  destruct (is_terminator x) eqn:Hx; [discriminate |].
  destruct (re_match_first_sentence c); [discriminate |].
  intros _. unfold nonterminator at 1. rewrite Hx. simpl. auto.
Qed.

Lemma re_match_first_sentence_found (pre rest : str) (t : char) :
  forallb nonterminator pre = true -> is_terminator t = true ->
  re_match_first_sentence (pre ++ t :: rest) = Some (pre ++ [t]).
Proof.
  intros Hp Ht. induction pre as [| x pre IH]; simpl.
  - now rewrite Ht.
  - simpl in Hp. apply andb_true_iff in Hp. destruct Hp as [Hx Hp].
    apply negb_true_iff in Hx. rewrite Hx, (IH Hp). reflexivity.
Qed.

Lemma re_match_first_sentence_absent (c : str) :
  forallb nonterminator c = true -> re_match_first_sentence c = None.
Proof.
  induction c as [| x c IH]; simpl; [reflexivity |].
  intros H. apply andb_true_iff in H. destruct H as [Hx Hc].
  apply negb_true_iff in Hx. now rewrite Hx, (IH Hc).
Qed.

(** The anchor computed by the chunked adapters is the anchor that the
    specification describes, and no other text is. *)
Lemma anchor_of_spec (a c : str) :
  first_sentence_anchor a c <-> a = anchor_of c.
Proof.
  unfold anchor_of. split.
  - intros [[pre [t [rest [E [Hp [Ht Ea]]]]]] | [Hn Ea]]; subst.
    + now rewrite re_match_first_sentence_found.
    + now rewrite re_match_first_sentence_absent.
  - intros ->. destruct (re_match_first_sentence c) as [m |] eqn:E.
    + left. now apply re_match_first_sentence_some.
    + right. split; [now apply re_match_first_sentence_none | reflexivity].
Qed.

Lemma anchor_of_prefix (c : str) : is_prefix (anchor_of c) c.
Proof.
  unfold anchor_of. destruct (re_match_first_sentence c) as [m |] eqn:E.
  - apply re_match_first_sentence_some in E.
    destruct E as [pre [t [rest [E [_ [_ ->]]]]]]. exists rest.
    now rewrite E, <- app_assoc.
  - apply firstn_prefix.
Qed.

Lemma is_prefix_len (a c : str) : is_prefix a c -> len a <= len c.
Proof. intros [t ->]. unfold len. rewrite length_app. lia. Qed.

(** Claim C8, as amended: the anchor of every record is a prefix of its
    content and so is never longer; for paginated, plain-text and
    rich-text records it is the shortest prefix ending at the first
    sentence-terminating mark, or the first 30 characters when there is
    no such mark; for table records it is always the first 30 characters
    of the content. *)
Theorem anchor_by_format (env : Env) (cfg : Config)
    (all_data : list ChunkRecord) (log : list log_msg) (r : ChunkRecord) :
  main env cfg = Some (all_data, log) -> In r all_data ->
  is_prefix (anchor_text r) (content r)
  /\ len (anchor_text r) <= len (content r)
  /\ (file_type r <> u "table" ->
      first_sentence_anchor (anchor_text r) (content r))
  /\ (file_type r = u "table" ->
      anchor_text r = firstn 30 (content r)).
Proof.
  intros Hm Hr.
  destruct (main_shape _ _ r Hm Hr) as [root [fn [id [_ [_ Hs]]]]].
  destruct u_table_not_chunked as [Hp [Ht Hd]].
  assert (Hchunked : forall c,
             is_prefix (anchor_of c) c /\ len (anchor_of c) <= len c
             /\ first_sentence_anchor (anchor_of c) c).
  { intros c. split; [apply anchor_of_prefix |].
    split; [apply is_prefix_len, anchor_of_prefix |].
    now apply anchor_of_spec. }
  destruct Hs as [pn sec cl idx c _ _ -> | rn c _ ->
                 | ti ur cl idx c _ _ -> | cl idx c _ _ ->];
    cbn [anchor_text content file_type pdf_record excel_record txt_record
         docx_record].
  - destruct (Hchunked c) as [H1 [H2 H3]]. repeat split; auto.
    intros E. now apply Hp in E.
  - split; [apply firstn_prefix |].
    split; [apply is_prefix_len, firstn_prefix |].
    split; [intros E; now destruct E | reflexivity].
  - destruct (Hchunked c) as [H1 [H2 H3]]. repeat split; auto.
    intros E. now apply Ht in E.
  - destruct (Hchunked c) as [H1 [H2 H3]]. repeat split; auto.
    intros E. now apply Hd in E.
Qed.

Lemma anchor_by_format_witness :
  is_prefix (anchor_text table_record) (content table_record)
  /\ len (anchor_text table_record) <= len (content table_record)
  /\ (file_type table_record <> u "table" ->
      first_sentence_anchor (anchor_text table_record)
        (content table_record))
  /\ (file_type table_record = u "table" ->
      anchor_text table_record = firstn 30 (content table_record)).
Proof.
  apply (@anchor_by_format table_env default_config
           [table_record] [] table_record).
  - vm_compute. reflexivity.
  - left. reflexivity.
Defined.

(** Claim C8 as stated fails on a table: the content 备注:已修复。正常 has
    a sentence mark, the shortest prefix ending at it is 备注:已修复。,
    and the anchor of the record is the whole content. *)
Lemma table_anchor_not_first_sentence :
  main table_env default_config = Some ([table_record], [])
  /\ anchor_text table_record = u "备注:已修复。正常"
  /\ anchor_of (content table_record) = u "备注:已修复。"
  /\ ~ first_sentence_anchor (anchor_text table_record)
         (content table_record).
Proof.
  split; [vm_compute; reflexivity |].
  split; [vm_compute; reflexivity |].
  split; [vm_compute; reflexivity |].
  intros H. apply anchor_of_spec in H.
  assert (Hd : anchor_text table_record <> anchor_of (content table_record))
    by (vm_compute; discriminate).
  exact (Hd H).
Qed.

(* ================================================================== *)
(** * The section label of a paginated document (C4) *)
(* ================================================================== *)

(** A page that begins with 第一章 总则 gives the label 第一章: the
    pattern matches the chapter marker alone, not the words after it. *)
Lemma extract_title_chapter_heading (rest : str) :
  extract_title (u "第一章 总则" ++ rest) = u "第一章".
Proof. vm_compute. reflexivity. Qed.

Lemma chapter_label_codes :
  u "第一章" = [0x7B2C; 0x4E00; 0x7AE0]%N
  /\ u "第一章" <> u "第一章 总则".
Proof. vm_compute. split; [reflexivity | discriminate]. Qed.

Lemma pdf_pages_text (cfg : Config) (file_name doc_id : str)
    (text : str) (rest : list page) (i : nat) (section : str)
    (results : list ChunkRecord) :
  truthy text = true ->
  pdf_pages cfg file_name doc_id (Return text :: rest) i section results
  = pdf_pages cfg file_name doc_id rest (S i)
      (update_section_title section text)
      (results ++ page_records cfg file_name doc_id (i + 1)
                    (update_section_title section text) text).
Proof. intros H. cbn [pdf_pages]. rewrite H. reflexivity. Qed.

Lemma update_section_title_none (section text : str) :
  extract_title text = [] -> update_section_title section text = section.
Proof. unfold update_section_title. intros ->. reflexivity. Qed.

Lemma update_section_title_chapter (section rest : str) :
  update_section_title section (u "第一章 总则" ++ rest) = u "第一章".
Proof.
  unfold update_section_title. rewrite extract_title_chapter_heading.
  destruct chapter_label_codes as [-> _]. reflexivity.
Qed.

(** Claim C4 on the code: for the units u1 (no marker), u2 (beginning
    with 第一章 总则), u3 (no marker), the records of u1 carry the
    sentinel label and the records of u2 and of u3 carry the same label,
    which persists; but that label is 第一章, the matched marker, and not
    第一章 总则. *)
Theorem section_label_three_units (env : Env) (cfg : Config)
    (file_path file_name doc_id u1 rest2 u3 : str) :
  pdfplumber_open env file_path
  = Return [Return u1; Return (u "第一章 总则" ++ rest2); Return u3] ->
  truthy u1 = true -> truthy u3 = true ->
  extract_title u1 = [] -> extract_title u3 = [] ->
  process_pdf env cfg file_path file_name doc_id
  = (page_records cfg file_name doc_id 1 (u "未知章节") u1
     ++ page_records cfg file_name doc_id 2 (u "第一章")
          (u "第一章 总则" ++ rest2)
     ++ page_records cfg file_name doc_id 3 (u "第一章") u3,
     []).
Proof.
  intros Hopen H1 H3 E1 E3. unfold process_pdf. rewrite Hopen.
  assert (H2 : truthy (u "第一章 总则" ++ rest2) = true)
    by (vm_compute; reflexivity).
  rewrite pdf_pages_text by exact H1.
  rewrite update_section_title_none by exact E1.
  rewrite pdf_pages_text by exact H2.
  rewrite update_section_title_chapter.
  rewrite pdf_pages_text by exact H3.
  rewrite update_section_title_none by exact E3.
  cbn [pdf_pages]. now rewrite <- app_assoc.
Qed.

Lemma section_label_three_units_witness :
  map section_title
    (fst (process_pdf three_page_env default_config
            (u "/data/raw/manual.pdf") (u "manual.pdf") (u "id")))
  = [u "未知章节"; u "第一章"; u "第一章"].
Proof.
  rewrite (@section_label_three_units three_page_env default_config
             (u "/data/raw/manual.pdf") (u "manual.pdf") (u "id")
             (repeat 0x61%N 60) (repeat 0x62%N 60) (repeat 0x63%N 60));
    vm_compute; reflexivity.
Defined.

(* ================================================================== *)
(** * Failures of the libraries (C5) *)
(* ================================================================== *)

(** A page that cannot be read ends the loop; the records built from the
    pages before it are kept. *)
Lemma pdf_pages_raise (cfg : Config) (file_name doc_id : str)
    (texts : list str) (e : exn) (rest : list page) (i : nat)
    (section : str) (results : list ChunkRecord) :
  pdf_pages cfg file_name doc_id (map Return texts ++ Raise e :: rest)
    i section results
  = (fst (pdf_pages cfg file_name doc_id (map Return texts)
            i section results),
     [PdfError file_name e]).
Proof.
  revert i section results.
  induction texts as [| t texts IH]; intros i section results.
  - reflexivity.
  - cbn [map app pdf_pages]. destruct (negb (truthy t)); apply IH.
Qed.

(** Claim C5, as amended: an exception of a library is caught by the
    adapter and logged; the file then contributes the records built
    before the exception: none when the file cannot be opened or read,
    and for a paginated document whose page cannot be read, the records
    of the pages before that page; [main] goes on with the next file, no
    adapter ending the run (only the exception of [generate_doc_id]
    does). *)
Theorem adapter_failure_isolation (env : Env) (cfg : Config)
    (file_path file_name doc_id : str) :
  (forall e, pdfplumber_open env file_path = Raise e ->
      process_pdf env cfg file_path file_name doc_id
      = ([], [PdfError file_name e]))
  /\ (forall texts e rest,
         pdfplumber_open env file_path
         = Return (map Return texts ++ Raise e :: rest) ->
         process_pdf env cfg file_path file_name doc_id
         = (fst (pdf_pages cfg file_name doc_id (map Return texts)
                   0 (u "未知章节") []),
            [PdfError file_name e]))
  /\ (forall e,
         (if endswith file_name (u ".csv")
          then pd_read_csv env file_path
          else pd_read_excel env file_path) = Raise e ->
         process_excel env file_path file_name doc_id
         = ([], [TableError file_name e]))
  /\ (forall e, read_text env file_path = Raise e ->
         process_txt env cfg file_path file_name doc_id
         = ([], [TxtError file_name e]))
  /\ (forall open_document e,
         Document env = Some open_document ->
         open_document file_path = Raise e ->
         process_docx env cfg file_path file_name doc_id
         = ([], [DocxError file_name e]))
  /\ (forall root name,
         main_file env cfg root name = None ->
         generate_doc_id (rel_path_of env (os_path_join env root name))
         = None)
  /\ (forall root name rest all_data log records msgs,
         main_file env cfg root name = Some (records, msgs) ->
         main_files env cfg ((root, name) :: rest) all_data log
         = main_files env cfg rest (all_data ++ records) (log ++ msgs)).
Proof.
  repeat split.
  - intros e H. unfold process_pdf. now rewrite H.
  - intros texts e rest H. unfold process_pdf. rewrite H.
    apply pdf_pages_raise.
  - intros e H. unfold process_excel. now rewrite H.
  - intros e H. unfold process_txt. now rewrite H.
  - intros open_document e Hd H. unfold process_docx. now rewrite Hd, H.
  - intros root name. unfold main_file.
    destruct (startswith name (u ".")); [discriminate |].
    destruct (os_path_isdir env _); [discriminate |].
    destruct (generate_doc_id _); [discriminate | reflexivity].
  - intros root name rest all_data log records msgs H.
    cbn [main_files]. now rewrite H.
Qed.

Lemma adapter_failure_isolation_witness :
  process_pdf broken_pdf_env default_config (u "/data/raw/manual.pdf")
    (u "manual.pdf") (u "id")
  = (fst (pdf_pages default_config (u "manual.pdf") (u "id")
            (map Return [repeat 0x61%N 60]) 0 (u "未知章节") []),
     [PdfError (u "manual.pdf") (u "bad page")]).
Proof.
  apply (proj1 (proj2 (@adapter_failure_isolation broken_pdf_env
                         default_config (u "/data/raw/manual.pdf")
                         (u "manual.pdf") (u "id")))
           [repeat 0x61%N 60] (u "bad page") [Return (repeat 0x63%N 60)]).
  vm_compute. reflexivity.
Defined.

(** Claim C5 as stated fails: the second page of the document raises,
    the failure is logged, and the run still holds the record built from
    the first page, so the failed file contributes a partial set of
    records, not zero. *)
Lemma failed_pdf_keeps_first_page :
  main broken_pdf_env default_config
  = Some ([pdf_record (u "manual.pdf")
             (u "af48ac7e2cdd79c388a470d1c3f9d339") 1 (u "未知章节") 0
             (repeat 0x61%N 60)],
          [PdfError (u "manual.pdf") (u "bad page")])
  /\ pdfplumber_open broken_pdf_env (u "/data/raw/manual.pdf")
     = Return [Return (repeat 0x61%N 60); Raise (u "bad page");
               Return (repeat 0x63%N 60)].
Proof. vm_compute. split; reflexivity. Qed.

(* ================================================================== *)
(** * Identifiers across runs (C7) *)
(* ================================================================== *)

Lemma record_shape_doc_id (cfg : Config) (file_name id : str)
    (r : ChunkRecord) :
  record_shape cfg file_name id r -> doc_id r = id /\ source r = file_name.
Proof. intros [? ? ? ? ? _ _ -> | ? ? _ -> | ? ? ? ? ? _ _ -> | ? ? ? _ _ ->];
  split; reflexivity. Qed.

(** The records of a file carry the identifier computed from its relative
    path. *)
Lemma main_file_doc_id (env : Env) (cfg : Config) (root name : str)
    (records : list ChunkRecord) (msgs : list log_msg) (r : ChunkRecord) :
  main_file env cfg root name = Some (records, msgs) -> In r records ->
  generate_doc_id (rel_path_of env (os_path_join env root name))
  = Some (doc_id r).
Proof.
  unfold main_file.
  destruct (startswith name (u "."));
    [intros H; inversion H; subst; intros [] |].
  destruct (os_path_isdir env _);
    [intros H; inversion H; subst; intros [] |].
  destruct (generate_doc_id _) as [id |]; [| discriminate].
  intros H Hr. inversion H as [E]. f_equal. symmetry.
  eapply record_shape_doc_id, dispatch_shape. rewrite E. exact Hr.
Qed.

Lemma dispatch_same_answers (env1 env2 : Env) (cfg : Config)
    (file_ext path1 path2 rel id : str) :
  same_answers env1 path1 env2 path2 ->
  dispatch env1 cfg file_ext path1 rel id
  = dispatch env2 cfg file_ext path2 rel id.
Proof.
  intros [_ [Hpdf [Hcsv [Hxls [Htxt Hdoc]]]]].
  unfold dispatch, process_pdf, process_excel, process_txt, process_docx.
  rewrite Hpdf, Hcsv, Hxls, Htxt.
  destruct (Document env1) as [d1 |], (Document env2) as [d2 |];
    simpl in Hdoc; try discriminate Hdoc; [| reflexivity].
  inversion Hdoc as [E]. now rewrite E.
Qed.

(** Claim C7: the identifier of a document is the MD5 digest of its
    relative path and of nothing else.  In two runs, a file with the same
    relative path has the same doc_id in all its records, whatever the
    directories and contents; and when the file is unchanged (the same
    name, and the libraries giving the same answers for it), the two runs
    yield the same records for it, chunk_id included. *)
Theorem doc_id_two_runs (env1 env2 : Env) (cfg : Config)
    (root1 root2 name : str) :
  rel_path_of env1 (os_path_join env1 root1 name)
  = rel_path_of env2 (os_path_join env2 root2 name) ->
  (forall records1 msgs1 records2 msgs2 r1 r2,
      main_file env1 cfg root1 name = Some (records1, msgs1) ->
      main_file env2 cfg root2 name = Some (records2, msgs2) ->
      In r1 records1 -> In r2 records2 ->
      generate_doc_id (rel_path_of env1 (os_path_join env1 root1 name))
      = Some (doc_id r1)
      /\ doc_id r1 = doc_id r2)
  /\ (same_answers env1 (os_path_join env1 root1 name)
        env2 (os_path_join env2 root2 name) ->
      main_file env1 cfg root1 name = main_file env2 cfg root2 name).
Proof.
  intros Hrel. split.
  - intros records1 msgs1 records2 msgs2 r1 r2 H1 H2 Hr1 Hr2.
    pose proof (main_file_doc_id _ _ _ _ r1 H1 Hr1) as E1.
    pose proof (main_file_doc_id _ _ _ _ r2 H2 Hr2) as E2.
    split; [exact E1 |]. rewrite <- Hrel in E2. congruence.
  - intros Hsame. unfold main_file. rewrite <- Hrel.
    assert (Hd : forall ext rel id,
               dispatch env1 cfg ext (os_path_join env1 root1 name) rel id
               = dispatch env2 cfg ext (os_path_join env2 root2 name) rel id)
      by (intros; now apply dispatch_same_answers).
    destruct Hsame as [Hdir _]. rewrite <- Hdir.
    destruct (startswith name (u ".")); [reflexivity |].
    destruct (os_path_isdir env1 _); [reflexivity |].
    destruct (generate_doc_id _) as [id |]; [| reflexivity].
    f_equal. apply Hd.
Qed.

Lemma doc_id_two_runs_witness :
  main_file table_env default_config (u "/data/raw") (u "log.csv")
  = main_file moved_table_env default_config (u "/mnt/kb/raw") (u "log.csv").
Proof.
  refine (proj2 (@doc_id_two_runs table_env moved_table_env default_config
                   (u "/data/raw") (u "/mnt/kb/raw") (u "log.csv") _) _).
  - vm_compute. reflexivity.
  - vm_compute. repeat split; reflexivity.
Defined.

Example main_moved_table_env :
  main moved_table_env default_config = Some ([table_record], []).
Proof. vm_compute. reflexivity. Qed.

(* ================================================================== *)
(** * More on clean_text_basic *)
(* ================================================================== *)

Lemma lstrip_spaces (s : str) : forallb isspace s = true -> lstrip s = [].
Proof.
  induction s as [| c s IH]; simpl; [reflexivity |].
  intros H. apply andb_true_iff in H. destruct H as [Hc Hs].
  rewrite Hc. auto.
Qed.

Lemma strip_spaces (s : str) : forallb isspace s = true -> strip s = [].
Proof. intros H. unfold strip. now rewrite lstrip_spaces. Qed.

Lemma lstrip_idem (s : str) : lstrip (lstrip s) = lstrip s.
Proof. apply lstrip_head_nonspace, lstrip_head. Qed.

Lemma rstrip_head (s : str) :
  match s with c :: _ => isspace c = false | [] => True end ->
  match rstrip s with c :: _ => isspace c = false | [] => True end.
Proof.
  intros H. destruct (rstrip_split s) as [b [E _]].
  destruct (rstrip s) as [| c r]; [exact I |].
  rewrite E in H. exact H.
Qed.

Lemma strip_idem (s : str) : strip (strip s) = strip s.
Proof.
  unfold strip at 1.
  rewrite (lstrip_head_nonspace (strip s)).
  - unfold strip, rstrip. now rewrite rev_involutive, lstrip_idem.
  - unfold strip. apply rstrip_head, lstrip_head.
Qed.

Lemma strip_length (s : str) : length (strip s) <= length s.
Proof.
  destruct (strip_split s) as [a [b [E _]]]. rewrite E at 2.
  rewrite !length_app. lia.
Qed.

Lemma re_sub_spaces_length (text : str) (in_run : bool) :
  length (re_sub_spaces_from in_run text) <= length text.
Proof.
  revert in_run. induction text as [| c r IH]; intros in_run; simpl.
  - lia.
  - destruct (isspace c); [destruct in_run |]; simpl;
      match goal with
      | |- context [re_sub_spaces_from ?b r] => specialize (IH b)
      end; lia.
Qed.

(** What a cleaned text is made of: printable characters only, no
    whitespace but U+0020, so no newline, and neither leading nor
    trailing whitespace; and cleaning never lengthens a text. *)
Theorem clean_text_basic_shape (text : str) :
  (forall c, In c (clean_text_basic text) -> isprintable c = true)
  /\ (forall c, In c (clean_text_basic text) ->
                isspace c = true -> c = 0x20%N)
  /\ ~ In NEWLINE (clean_text_basic text)
  /\ strip (clean_text_basic text) = clean_text_basic text
  /\ len (clean_text_basic text) <= len text.
Proof.
  split; [intros c; apply clean_text_basic_incl |].
  split; [intros c; apply clean_text_basic_plain_spaces |].
  split; [apply clean_text_basic_no_newline |].
  unfold clean_text_basic, len.
  destruct (negb (truthy text)); [split; [reflexivity | simpl; lia] |].
  split; [apply strip_idem |].
  etransitivity; [apply strip_length |].
  etransitivity; [apply filter_length_le |].
  apply re_sub_spaces_length.
Qed.

Lemma re_sub_spaces_blank (text : str) (in_run : bool) :
  forallb isspace text = true ->
  forallb isspace (re_sub_spaces_from in_run text) = true.
Proof.
  intros H. apply forallb_forall. intros c Hc.
  apply re_sub_spaces_incl in Hc. destruct Hc as [-> | [Hin Hs]].
  - reflexivity.
  - rewrite forallb_forall in H. rewrite (H c Hin) in Hs. discriminate.
Qed.

(** A text of whitespace only, the empty text included, is cleaned to
    the empty text. *)
Theorem clean_text_basic_blank (text : str) :
  forallb isspace text = true -> clean_text_basic text = [].
Proof.
  intros H. unfold clean_text_basic.
  destruct (negb (truthy text)); [reflexivity |].
  apply strip_spaces. apply forallb_forall. intros c Hc.
  apply filter_In in Hc. destruct Hc as [Hc _].
  pose proof (re_sub_spaces_blank text false H) as Hb.
  rewrite forallb_forall in Hb. now apply Hb.
Qed.

Lemma clean_text_basic_blank_witness :
  clean_text_basic [0x20; 0x0A; 0x09; 0x3000]%N = [].
Proof.
  apply (clean_text_basic_blank [0x20; 0x0A; 0x09; 0x3000]%N).
  vm_compute. reflexivity.
Defined.

Lemma single_spaced_of_adjacent (s : str) :
  (forall c d, adjacent c d s ->
               isspace c = true -> isspace d = true -> False) ->
  single_spaced s = true.
Proof.
  induction s as [| c s IH]; intros H; [reflexivity |].
  rewrite single_spaced_cons. destruct s as [| d s]; [reflexivity |].
  apply andb_true_iff. split.
  - destruct (isspace c) eqn:Hc, (isspace d) eqn:Hd; try reflexivity.
    exfalso. apply (H c d); auto. exists [], s. reflexivity.
  - apply IH. intros x y [a [b E]]. apply H.
    exists (c :: a), b. simpl. now rewrite E.
Qed.

(** [re.sub] changes nothing in a text whose whitespace is single U+0020
    characters. *)
Lemma re_sub_spaces_fixed (s : str) (in_run : bool) :
  single_spaced s = true ->
  (forall c, In c s -> isspace c = true -> c = 0x20%N) ->
  (in_run = true ->
   match s with c :: _ => isspace c = false | [] => True end) ->
  re_sub_spaces_from in_run s = s.
Proof.
  revert in_run. induction s as [| c r IH]; intros in_run Hs Hp Hb;
    [reflexivity |].
  cbn [re_sub_spaces_from]. rewrite single_spaced_cons in Hs.
  assert (Hr : single_spaced r = true).
  { destruct r; [reflexivity |]. apply andb_true_iff in Hs. tauto. }
  assert (Hp' : forall x, In x r -> isspace x = true -> x = 0x20%N)
    by (intros x Hx; apply Hp; now right).
  destruct (isspace c) eqn:Hc.
  - destruct in_run; [specialize (Hb eq_refl); congruence |].
    rewrite (Hp c (or_introl eq_refl) Hc). f_equal.
    apply IH; auto. intros _. destruct r as [| d r]; [exact I |].
    apply andb_true_iff in Hs. destruct Hs as [Hs _].
    simpl in Hs. now apply negb_true_iff in Hs.
  - f_equal. apply IH; auto. discriminate.
Qed.

(** When the text has no character that [isprintable] removes, other
    than whitespace, no two neighbours of the cleaned text are both
    whitespace. *)
Theorem clean_text_basic_no_double_space (text : str) :
  (forall x, In x text -> isspace x = true \/ isprintable x = true) ->
  single_spaced (clean_text_basic text) = true.
Proof.
  intros Hp. apply single_spaced_of_adjacent. intros c d.
  apply (@clean_text_basic_single_spaced text c d Hp).
Qed.

Lemma clean_text_basic_no_double_space_witness :
  single_spaced (clean_text_basic (u "甲  乙
 丙")) = true.
Proof.
  apply (clean_text_basic_no_double_space (u "甲  乙
 丙")).
  intros x Hx. vm_compute in Hx.
  repeat (destruct Hx as [<- | Hx]; [vm_compute; auto |]). destruct Hx.
Defined.

(** On such a text cleaning is idempotent: a cleaned text is cleaned to
    itself. *)
Theorem clean_text_basic_idempotent (text : str) :
  (forall x, In x text -> isspace x = true \/ isprintable x = true) ->
  clean_text_basic (clean_text_basic text) = clean_text_basic text.
Proof.
  intros Hp. set (y := clean_text_basic text).
  assert (Hs : single_spaced y = true).
  { apply single_spaced_of_adjacent. intros c d.
    apply (@clean_text_basic_single_spaced text c d Hp). }
  assert (Hw : forall c, In c y -> isspace c = true -> c = 0x20%N)
    by (intros c; apply clean_text_basic_plain_spaces).
  assert (Hq : forall c, In c y -> isprintable c = true)
    by (intros c; apply clean_text_basic_incl).
  assert (Ht : strip y = y).
  { unfold y, clean_text_basic.
    destruct (negb (truthy text)); [reflexivity | apply strip_idem]. }
  unfold clean_text_basic at 1. destruct (negb (truthy y)) eqn:E.
  - destruct y; [reflexivity | discriminate].
  - unfold re_sub_spaces. rewrite re_sub_spaces_fixed; auto;
      [| discriminate].
    now rewrite filter_all.
Qed.

Lemma clean_text_basic_idempotent_witness :
  clean_text_basic (clean_text_basic (u "甲  乙
 丙")) = clean_text_basic (u "甲  乙
 丙").
Proof.
  apply (clean_text_basic_idempotent (u "甲  乙
 丙")).
  intros x Hx. vm_compute in Hx.
  repeat (destruct Hx as [<- | Hx]; [vm_compute; auto |]). destruct Hx.
Defined.

(* ================================================================== *)
(** * More on split_sentences *)
(* ================================================================== *)

(** A segment is a boundary-free run, ended or not by one boundary
    character. *)
Lemma segments_from_pieces (text seg : str) (g : str) :
  boundary_free seg = true -> In g (segments_from seg text) ->
  boundary_free g = true
  \/ exists p c, g = p ++ [c] /\ boundary_free p = true
                 /\ is_boundary c = true.
Proof.
  revert seg. induction text as [| c r IH]; intros seg Hseg; simpl.
  - intros [<- | []]. now left.
  - destruct (is_boundary c) eqn:Hc.
    + intros [<- | H].
      * right. exists seg, c. auto.
      * apply (IH [] eq_refl H).
    + apply IH. unfold boundary_free. rewrite forallb_app. simpl.
      now rewrite Hc, andb_true_r.
Qed.

Lemma boundary_free_not_in (s : str) (c : char) :
  boundary_free s = true -> is_boundary c = true -> ~ In c s.
Proof.
  intros Hs Hc Hin. unfold boundary_free in Hs.
  rewrite forallb_forall in Hs. specialize (Hs c Hin).
  rewrite Hc in Hs. discriminate.
Qed.

(** In a run ended by its only boundary character, nothing follows a
    boundary character. *)
Lemma boundary_last (p x y : str) (c0 c : char) :
  boundary_free p = true -> is_boundary c = true ->
  p ++ [c0] = x ++ c :: y -> y = [].
Proof.
  revert x. induction p as [| d p IH]; intros x Hp Hc E.
  - destruct x as [| e x]; simpl in E.
    + now inversion E.
    + inversion E as [[E1 E2]]. destruct x; discriminate E2.
  - simpl in Hp. apply andb_true_iff in Hp. destruct Hp as [Hd Hp].
    destruct x as [| e x]; simpl in E; inversion E; subst.
    + rewrite Hc in Hd. discriminate.
    + eapply IH; eauto.
Qed.

Lemma strip_last (s x : str) (c : char) :
  strip s = x ++ [c] -> isspace c = false.
Proof.
  unfold strip, rstrip. intros E.
  apply (f_equal (@rev char)) in E.
  rewrite rev_involutive, rev_app_distr in E. simpl in E.
  pose proof (lstrip_head (rev (lstrip s))) as H. now rewrite E in H.
Qed.

Lemma boundary_inside_strip (g pre post : str) (c : char) :
  (boundary_free g = true
   \/ exists p c0, g = p ++ [c0] /\ boundary_free p = true
                   /\ is_boundary c0 = true) ->
  strip g = pre ++ c :: post -> is_boundary c = true -> post = [].
Proof.
  intros Hg E Hc. destruct (strip_split g) as [a [b [Eg _]]].
  rewrite E in Eg. destruct Hg as [Hf | [p [c0 [Ep [Hp _]]]]].
  - exfalso. apply (boundary_free_not_in g c Hf Hc). rewrite Eg.
    apply in_or_app. right. apply in_or_app. left.
    apply in_or_app. right. now left.
  - rewrite Ep in Eg.
    assert (Ey : post ++ b = []).
    { apply (@boundary_last p (a ++ pre) (post ++ b) c0 c Hp Hc).
      rewrite Eg. now rewrite <- !app_assoc. }
    now destruct post.
Qed.

(** Every sentence returned by [split_sentences] is non-empty and
    trimmed; it has no newline, and a mark 。！？ occurs in it only as
    its last character. *)
Theorem split_sentences_shape (text s : str) :
  In s (split_sentences text) ->
  s <> [] /\ strip s = s /\ ~ In NEWLINE s
  /\ (forall pre c post,
         s = pre ++ c :: post -> is_terminator c = true -> post = []).
Proof.
  rewrite split_sentences_segments. intros H.
  apply filter_In in H. destruct H as [H Hne].
  apply in_map_iff in H. destruct H as [g [<- Hg]].
  pose proof (segments_from_pieces text [] g eq_refl Hg) as Hshape.
  split; [destruct (strip g); [discriminate | discriminate] |].
  split; [apply strip_idem |].
  split.
  - intros Hin. apply in_split in Hin. destruct Hin as [pre [post E]].
    assert (post = [])
      by (apply (@boundary_inside_strip g pre post NEWLINE Hshape E);
          reflexivity).
    subst post. now apply strip_last in E.
  - intros pre c post E Hc.
    apply (@boundary_inside_strip g pre post c Hshape E).
    now apply boundary_of_terminator.
Qed.

Lemma split_sentences_shape_witness :
  u "世界！" <> [] /\ strip (u "世界！") = u "世界！"
  /\ ~ In NEWLINE (u "世界！")
  /\ (forall pre c post,
         u "世界！" = pre ++ c :: post -> is_terminator c = true ->
         post = []).
Proof.
  apply (@split_sentences_shape (u "你好。 世界！剩下") (u "世界！")).
  vm_compute. right. left. reflexivity.
Defined.

Lemma split_sentences_lossless_nonspace_witness :
  concat (split_sentences (u "你好。世界！剩下")) = u "你好。世界！剩下".
Proof.
  apply (split_sentences_lossless_nonspace (u "你好。世界！剩下")).
  vm_compute. reflexivity.
Defined.

(** A text of whitespace only has no sentence. *)
Theorem split_sentences_blank (text : str) :
  forallb isspace text = true -> split_sentences text = [].
Proof.
  intros H. rewrite split_sentences_segments.
  assert (Hall : forall g, In g (segments text) -> strip g = []).
  { intros g Hg. apply strip_spaces, forallb_forall. intros c Hc.
    rewrite forallb_forall in H. apply H.
    pose proof (segments_from_concat text []) as E. simpl in E.
    rewrite <- E. apply in_concat. exists g. split; assumption. }
  induction (segments text) as [| g l IH]; [reflexivity |].
  simpl. rewrite (Hall g (or_introl eq_refl)). simpl.
  apply IH. intros g' Hg'. apply Hall. now right.
Qed.

Lemma split_sentences_blank_witness :
  split_sentences [0x20; 0x0A; 0x20]%N = [].
Proof.
  apply (split_sentences_blank [0x20; 0x0A; 0x20]%N).
  vm_compute. reflexivity.
Defined.

(* ================================================================== *)
(** * More on semantic_chunking: invariants of the loop *)
(* ================================================================== *)

(** An invariant of the loop, stated on the sentences consumed so far
    and the state, holds at the end when it holds at the start and every
    turn on a sentence of the list keeps it. *)
Lemma group_loop_invariant (cfg : Config) (chunk_size : nat)
    (Inv : list str -> group_state -> Prop) (sentences : list str) :
  Inv [] initial_groups ->
  (forall pre st s, In s sentences -> Inv pre st ->
                    Inv (pre ++ [s]) (group_step cfg chunk_size st s)) ->
  Inv sentences
    (fold_left (group_step cfg chunk_size) sentences initial_groups).
Proof.
  intros H0 Hstep.
  assert (G : forall rest pre st,
             (forall s, In s rest -> In s sentences) -> Inv pre st ->
             Inv (pre ++ rest)
               (fold_left (group_step cfg chunk_size) rest st)).
  { induction rest as [| s rest IH]; intros pre st Hin Hinv; simpl.
    - now rewrite app_nil_r.
    - replace (pre ++ s :: rest) with ((pre ++ [s]) ++ rest)
        by (now rewrite <- app_assoc).
      apply IH; [intros x Hx; apply Hin; now right |].
      apply Hstep; [apply Hin; now left | exact Hinv]. }
  apply (G sentences [] initial_groups); auto.
Qed.

Lemma group_step_unfold (cfg : Config) (chunk_size : nat)
    (st : group_state) (s : str) :
  group_step cfg chunk_size st s
  = if (chunk_size <? group_len st + len s) && (0 <? group_len st)
    then {| groups := groups st ++ [group st];
            group := overlap_seed cfg (group st) ++ [s];
            group_len := sum_len (overlap_seed cfg (group st)) + len s |}
    else {| groups := groups st;
            group := group st ++ [s];
            group_len := group_len st + len s |}.
Proof.
  unfold group_step, overlap_seed.
  destruct ((chunk_size <? group_len st + len s) && (0 <? group_len st));
    reflexivity.
Qed.

Lemma assemble_groups_unfold (cfg : Config) (chunk_size : nat)
    (sentences : list str) :
  assemble_groups cfg chunk_size sentences
  = let st := fold_left (group_step cfg chunk_size) sentences
                initial_groups in
    if truthy (group st) then groups st ++ [group st] else groups st.
Proof. reflexivity. Qed.

Lemma sum_len_app (a b : list str) :
  sum_len (a ++ b) = sum_len a + sum_len b.
Proof.
  induction a as [| x a IH]; simpl; [reflexivity |]. rewrite IH. lia.
Qed.

Lemma sum_len_join (g : list str) : len (join g) = sum_len g.
Proof.
  unfold len, join. induction g as [| x g IH]; simpl; [reflexivity |].
  rewrite length_app, IH. reflexivity.
Qed.

Lemma overlap_seed_suffix (cfg : Config) (g : list str) :
  exists a, g = a ++ overlap_seed cfg g.
Proof.
  unfold overlap_seed, slice_last.
  destruct (OVERLAP_SENTENCES cfg <=? length g); [| now exists []].
  destruct (OVERLAP_SENTENCES cfg =? 0); [now exists [] |].
  exists (firstn (length g - OVERLAP_SENTENCES cfg) g).
  symmetry. apply firstn_skipn.
Qed.

Lemma overlap_seed_length (cfg : Config) (g : list str) :
  1 <= OVERLAP_SENTENCES cfg ->
  length (overlap_seed cfg g) <= OVERLAP_SENTENCES cfg.
Proof.
  intros Ho. unfold overlap_seed, slice_last.
  destruct (OVERLAP_SENTENCES cfg <=? length g) eqn:E.
  - apply Nat.leb_le in E.
    destruct (OVERLAP_SENTENCES cfg =? 0) eqn:E0;
      [apply Nat.eqb_eq in E0; lia |].
    rewrite length_skipn. lia.
  - apply Nat.leb_gt in E. lia.
Qed.

(** [current_len] is the summed length of [current_chunk], every emitted
    group is non-empty, and the current group is non-empty once a
    sentence has been consumed. *)
Lemma group_loop_lengths (cfg : Config) (chunk_size : nat)
    (sentences : list str) :
  let st := fold_left (group_step cfg chunk_size) sentences
              initial_groups in
  group_len st = sum_len (group st)
  /\ (forall g, In g (groups st) -> g <> [])
  /\ (sentences <> [] -> group st <> []).
Proof.
  apply (@group_loop_invariant cfg chunk_size
           (fun pre st =>
              group_len st = sum_len (group st)
              /\ (forall g, In g (groups st) -> g <> [])
              /\ (pre <> [] -> group st <> []))).
  - simpl. split; [reflexivity |].
    split; [intros g [] | intros H; now elim H].
  - intros pre st s _ [Hl [Hg _]]. rewrite group_step_unfold.
    destruct ((chunk_size <? group_len st + len s) && (0 <? group_len st))
      eqn:E; simpl.
    + apply andb_true_iff in E. destruct E as [_ E].
      apply Nat.ltb_lt in E.
      split; [rewrite sum_len_app; simpl; lia |].
      split; [| intros _; now destruct (overlap_seed cfg (group st))].
      intros g Hin. apply in_app_or in Hin.
      destruct Hin as [Hin | [<- | []]]; [now apply Hg |].
      intros Hnil. rewrite Hnil in Hl. simpl in Hl. lia.
    + split; [rewrite sum_len_app; simpl; lia |].
      split; [exact Hg | intros _; now destruct (group st)].
Qed.

Lemma is_infix_snoc (A : Type) (g l : list A) (x : A) :
  is_infix g l -> is_infix g (l ++ [x]).
Proof.
  intros [a [b E]]. exists a, (b ++ [x]). rewrite E.
  now rewrite <- !app_assoc.
Qed.

(** The current group is the end of the sentences consumed so far, every
    emitted group is a run of them, and each of them is in the current
    group or in an emitted one. *)
Lemma group_loop_runs (cfg : Config) (chunk_size : nat)
    (sentences : list str) :
  let st := fold_left (group_step cfg chunk_size) sentences
              initial_groups in
  (exists a, sentences = a ++ group st)
  /\ (forall g, In g (groups st) -> is_infix g sentences)
  /\ (forall s, In s sentences ->
                In s (group st) \/ exists g, In g (groups st) /\ In s g).
Proof.
  apply (@group_loop_invariant cfg chunk_size
           (fun pre st =>
              (exists a, pre = a ++ group st)
              /\ (forall g, In g (groups st) -> is_infix g pre)
              /\ (forall s, In s pre ->
                    In s (group st)
                    \/ exists g, In g (groups st) /\ In s g))).
  - simpl. split; [now exists [] |]. split; [intros g [] | intros s []].
  - intros pre st s _ [[a Ea] [Hg Hc]]. rewrite group_step_unfold.
    destruct ((chunk_size <? group_len st + len s) && (0 <? group_len st));
      simpl.
    + destruct (overlap_seed_suffix cfg (group st)) as [a' Ea'].
      split; [| split].
      * exists (a ++ a'). rewrite Ea at 1. rewrite Ea' at 1.
        now rewrite <- !app_assoc.
      * intros g Hin. apply is_infix_snoc. apply in_app_or in Hin.
        destruct Hin as [Hin | [<- | []]]; [now apply Hg |].
        exists a, []. now rewrite app_nil_r.
      * intros x Hx. apply in_app_or in Hx. destruct Hx as [Hx | [<- | []]].
        -- right. destruct (Hc x Hx) as [Hin | [g [Hin Hxg]]].
           ++ exists (group st). split; [| exact Hin].
              apply in_or_app. right. now left.
           ++ exists g. split; [| exact Hxg]. apply in_or_app. now left.
        -- left. apply in_or_app. right. now left.
    + split; [| split].
      * exists a. rewrite Ea at 1. now rewrite <- app_assoc.
      * intros g Hin. apply is_infix_snoc. now apply Hg.
      * intros x Hx. apply in_app_or in Hx. destruct Hx as [Hx | [<- | []]].
        -- destruct (Hc x Hx) as [Hin | Hin]; [left | now right].
           apply in_or_app. now left.
        -- left. apply in_or_app. right. now left.
Qed.

(** The groups that [assemble_groups] returns: the emitted ones and the
    current one when it is not empty. *)
Lemma assemble_groups_In (cfg : Config) (chunk_size : nat)
    (sentences : list str) (g : list str) :
  In g (assemble_groups cfg chunk_size sentences) <->
  In g (groups (fold_left (group_step cfg chunk_size) sentences
                  initial_groups))
  \/ (g = group (fold_left (group_step cfg chunk_size) sentences
                   initial_groups) /\ g <> []).
Proof.
  rewrite assemble_groups_unfold. cbv zeta.
  set (st := fold_left (group_step cfg chunk_size) sentences initial_groups).
  destruct (group st) as [| x r] eqn:E; simpl.
  - split; [now left | intros [H | [Hg H]]; [exact H | contradiction]].
  - rewrite in_app_iff. simpl. split.
    + intros [H | [<- | []]]; [now left | right]. split;
        [reflexivity | discriminate].
    + intros [H | [-> _]]; [now left | right; now left].
Qed.

(** Every chunk is the concatenation of a non-empty run of consecutive
    sentences: no sentence is cut and none is skipped inside a chunk. *)
Theorem assemble_chunks_runs (cfg : Config) (chunk_size : nat)
    (sentences : list str) (c : str) :
  In c (assemble_chunks cfg chunk_size sentences) ->
  exists g, g <> [] /\ is_infix g sentences /\ c = join g.
Proof.
  rewrite assemble_chunks_groups. intros H. apply in_map_iff in H.
  destruct H as [g [<- Hg]]. exists g.
  apply assemble_groups_In in Hg.
  destruct (group_loop_lengths cfg chunk_size sentences) as [_ [Hne _]].
  destruct (group_loop_runs cfg chunk_size sentences) as [[a Ea] [Hin _]].
  destruct Hg as [Hg | [-> Hg]].
  - split; [now apply Hne |]. split; [now apply Hin | reflexivity].
  - split; [exact Hg |]. split; [| reflexivity].
    exists a, []. now rewrite app_nil_r.
Qed.

Lemma assemble_chunks_runs_witness :
  exists g, g <> []
    /\ is_infix g [u "一二三四五。"; u "甲乙丙丁戊！"; u "子丑寅卯辰？"]
    /\ u "一二三四五。甲乙丙丁戊！" = join g.
Proof.
  apply (@assemble_chunks_runs
           {| CHUNK_SIZE := 10; MIN_CHUNK_SIZE := 50;
              OVERLAP_SENTENCES := 1 |} 10
           [u "一二三四五。"; u "甲乙丙丁戊！"; u "子丑寅卯辰？"]
           (u "一二三四五。甲乙丙丁戊！")).
  vm_compute. right. left. reflexivity.
Defined.

(** No sentence is lost: each sentence is one of the sentences of some
    chunk. *)
Theorem assemble_chunks_cover (cfg : Config) (chunk_size : nat)
    (sentences : list str) (s : str) :
  In s sentences ->
  exists g, In s g /\ is_infix g sentences
            /\ In (join g) (assemble_chunks cfg chunk_size sentences).
Proof.
  intros Hs. rewrite assemble_chunks_groups.
  destruct (group_loop_runs cfg chunk_size sentences)
    as [[a Ea] [Hin Hc]].
  destruct (Hc s Hs) as [H | [g [Hg H]]].
  - exists (group (fold_left (group_step cfg chunk_size) sentences
                     initial_groups)).
    split; [exact H |]. split; [exists a, []; now rewrite app_nil_r |].
    apply in_map, assemble_groups_In. right. split; [reflexivity |].
    intros E. rewrite E in H. destruct H.
  - exists g. split; [exact H |]. split; [now apply Hin |].
    apply in_map, assemble_groups_In. now left.
Qed.

Lemma assemble_chunks_cover_witness :
  exists g, In (u "甲乙丙丁戊！") g
    /\ is_infix g [u "一二三四五。"; u "甲乙丙丁戊！"; u "子丑寅卯辰？"]
    /\ In (join g)
         (assemble_chunks default_config 10
            [u "一二三四五。"; u "甲乙丙丁戊！"; u "子丑寅卯辰？"]).
Proof.
  apply (@assemble_chunks_cover default_config 10
           [u "一二三四五。"; u "甲乙丙丁戊！"; u "子丑寅卯辰？"]
           (u "甲乙丙丁戊！")).
  right. left. reflexivity.
Defined.

Lemma join_nonempty (g : list str) :
  g <> [] -> (forall s, In s g -> s <> []) -> join g <> [].
Proof.
  destruct g as [| s g]; [congruence |]. intros _ H. unfold join. simpl.
  specialize (H s (or_introl eq_refl)). now destruct s.
Qed.

Lemma is_infix_In (A : Type) (g l : list A) (x : A) :
  is_infix g l -> In x g -> In x l.
Proof.
  intros [a [b ->]] H. apply in_or_app. right. apply in_or_app. now left.
Qed.

Lemma semantic_chunking_nonempty_aux (cfg : Config) (text : str)
    (chunk_size : nat) :
  (forall c, In c (semantic_chunking cfg text chunk_size) -> c <> [])
  /\ (semantic_chunking cfg text chunk_size = [] <->
      split_sentences text = []).
Proof.
  unfold semantic_chunking. split.
  - intros c Hc.
    assert (R : exists g, g <> [] /\ is_infix g (split_sentences text)
                          /\ c = join g).
    { revert Hc. rewrite assemble_chunks_groups. intros H.
      apply in_map_iff in H. destruct H as [g [<- Hg]]. exists g.
      apply assemble_groups_In in Hg.
      destruct (group_loop_lengths cfg chunk_size (split_sentences text))
        as [_ [Hne _]].
      destruct (group_loop_runs cfg chunk_size (split_sentences text))
        as [[a Ea] [Hin _]].
      destruct Hg as [Hg | [-> Hg]].
      - split; [now apply Hne |]. split; [now apply Hin | reflexivity].
      - split; [exact Hg |]. split; [| reflexivity].
        exists a, []. now rewrite app_nil_r. }
    destruct R as [g [Hg [Hi ->]]]. apply join_nonempty; [exact Hg |].
    intros s Hs. apply (@is_infix_In _ g _ s Hi) in Hs.
    rewrite split_sentences_segments in Hs. apply filter_In in Hs.
    destruct Hs as [_ Hs]. now destruct s.
  - rewrite assemble_chunks_groups, assemble_groups_unfold. cbv zeta.
    destruct (group_loop_lengths cfg chunk_size (split_sentences text))
      as [_ [_ Hne]].
    split.
    + intros H. destruct (split_sentences text) as [| s l] eqn:E;
        [reflexivity |].
      exfalso. specialize (Hne ltac:(discriminate)).
      destruct (group (fold_left _ _ _)); [now apply Hne |].
      simpl in H. rewrite map_app in H. simpl in H.
      now destruct (map join (groups _)).
    + intros ->. reflexivity.
Qed.

(** [semantic_chunking] never returns an empty chunk, and it returns no
    chunk exactly when the text has no sentence. *)
Theorem semantic_chunking_nonempty (cfg : Config) (text : str)
    (chunk_size : nat) :
  (forall c, In c (semantic_chunking cfg text chunk_size) -> c <> [])
  /\ (semantic_chunking cfg text chunk_size = [] <->
      split_sentences text = []).
Proof. apply semantic_chunking_nonempty_aux. Qed.

(** When the sentences fit together in the chunk size, there is one
    chunk, the concatenation of all the sentences. *)
Theorem assemble_chunks_single (cfg : Config) (chunk_size : nat)
    (sentences : list str) :
  sentences <> [] -> sum_len sentences <= chunk_size ->
  assemble_chunks cfg chunk_size sentences = [join sentences].
Proof.
  intros Hne Hfit.
  assert (Inv : (exists rest, sentences = sentences ++ rest) ->
                groups (fold_left (group_step cfg chunk_size) sentences
                          initial_groups) = []
                /\ group (fold_left (group_step cfg chunk_size) sentences
                            initial_groups) = sentences
                /\ group_len (fold_left (group_step cfg chunk_size)
                                sentences initial_groups)
                   = sum_len sentences).
  { apply (@group_loop_invariant cfg chunk_size
             (fun pre st =>
                (exists rest, sentences = pre ++ rest)
                -> groups st = [] /\ group st = pre
                   /\ group_len st = sum_len pre)).
    - intros _. simpl. auto.
    - intros pre st s _ IH [rest E].
      destruct IH as [Hg [Hp Hl]];
        [exists (s :: rest); rewrite E; now rewrite <- app_assoc |].
      rewrite group_step_unfold.
      assert (Hs : group_len st + len s <= chunk_size).
      { rewrite Hl. rewrite E in Hfit. rewrite !sum_len_app in Hfit.
        simpl in Hfit. lia. }
      apply Nat.ltb_ge in Hs. rewrite Hs. simpl.
      rewrite Hg, Hp, Hl, sum_len_app. simpl. repeat split; lia. }
  destruct Inv as [Hg [Hp _]]; [exists []; now rewrite app_nil_r |].
  rewrite assemble_chunks_groups, assemble_groups_unfold. cbv zeta.
  rewrite Hg, Hp. destruct sentences; [congruence | reflexivity].
Qed.

Lemma assemble_chunks_single_witness :
  assemble_chunks default_config 500
    [u "一二三四五。"; u "甲乙丙丁戊！"; u "子丑寅卯辰？"]
  = [join [u "一二三四五。"; u "甲乙丙丁戊！"; u "子丑寅卯辰？"]].
Proof.
  apply (@assemble_chunks_single default_config 500
           [u "一二三四五。"; u "甲乙丙丁戊！"; u "子丑寅卯辰？"]).
  - discriminate.
  - vm_compute. lia.
Defined.

(** With OVERLAP_SENTENCES = 0 the slice [current_chunk[-0:]] is the
    whole chunk, so nothing is dropped at a flush: every chunk begins at
    the first sentence and is the concatenation of a prefix of the
    sentences. *)
Theorem assemble_chunks_overlap_zero (cfg : Config) (chunk_size : nat)
    (sentences : list str) (c : str) :
  OVERLAP_SENTENCES cfg = 0 ->
  In c (assemble_chunks cfg chunk_size sentences) ->
  exists g rest, sentences = g ++ rest /\ c = join g.
Proof.
  intros Ho. rewrite assemble_chunks_groups. intros H.
  apply in_map_iff in H. destruct H as [g [<- Hg]]. exists g.
  apply assemble_groups_In in Hg.
  assert (Inv : group (fold_left (group_step cfg chunk_size) sentences
                         initial_groups) = sentences
                /\ forall g, In g (groups (fold_left
                                 (group_step cfg chunk_size) sentences
                                 initial_groups)) ->
                             exists rest, sentences = g ++ rest).
  { apply (@group_loop_invariant cfg chunk_size
             (fun pre st =>
                group st = pre
                /\ forall g, In g (groups st) ->
                             exists rest, pre = g ++ rest)).
    - split; [reflexivity | intros g' []].
    - intros pre st s _ [Hp Hgs]. rewrite group_step_unfold.
      assert (Hseed : overlap_seed cfg (group st) = group st).
      { unfold overlap_seed, slice_last. rewrite Ho. simpl.
        reflexivity. }
      rewrite Hseed.
      destruct ((chunk_size <? group_len st + len s)
                && (0 <? group_len st)); simpl.
      + split; [now rewrite Hp |]. intros g' Hin.
        apply in_app_or in Hin. destruct Hin as [Hin | [<- | []]].
        * destruct (Hgs g' Hin) as [rest E]. exists (rest ++ [s]).
          rewrite E. now rewrite <- app_assoc.
        * exists [s]. now rewrite Hp.
      + split; [now rewrite Hp |]. intros g' Hin.
        destruct (Hgs g' Hin) as [rest E]. exists (rest ++ [s]).
        rewrite E. now rewrite <- app_assoc. }
  destruct Inv as [Hp Hgs]. destruct Hg as [Hg | [-> _]].
  - destruct (Hgs g Hg) as [rest E]. now exists rest.
  - exists []. now rewrite Hp, app_nil_r.
Qed.

Lemma assemble_chunks_overlap_zero_witness :
  exists g rest,
    [u "一二三四五。"; u "甲乙丙丁戊！"; u "子丑寅卯辰？"] = g ++ rest
    /\ u "一二三四五。甲乙丙丁戊！" = join g.
Proof.
  apply (@assemble_chunks_overlap_zero
           {| CHUNK_SIZE := 10; MIN_CHUNK_SIZE := 50;
              OVERLAP_SENTENCES := 0 |} 10
           [u "一二三四五。"; u "甲乙丙丁戊！"; u "子丑寅卯辰？"]
           (u "一二三四五。甲乙丙丁戊！")).
  - reflexivity.
  - vm_compute. right. left. reflexivity.
Defined.

(** The chunk size is a soft bound: with an overlap of at least one
    sentence and no empty sentence, a chunk is longer than the chunk
    size only when it is made of at most OVERLAP_SENTENCES carried
    sentences and one more, so a chunk of more sentences than that
    fits. *)
Theorem assemble_chunks_soft_bound (cfg : Config) (chunk_size : nat)
    (sentences : list str) (c : str) :
  1 <= OVERLAP_SENTENCES cfg ->
  (forall s, In s sentences -> s <> []) ->
  In c (assemble_chunks cfg chunk_size sentences) ->
  exists g, c = join g /\ is_infix g sentences
            /\ (len c <= chunk_size
                \/ length g <= OVERLAP_SENTENCES cfg + 1).
Proof.
  intros Ho Hs. rewrite assemble_chunks_groups. intros H.
  apply in_map_iff in H. destruct H as [g [<- Hg]]. exists g.
  split; [reflexivity |].
  apply assemble_groups_In in Hg.
  destruct (group_loop_runs cfg chunk_size sentences) as [[a Ea] [Hin _]].
  set (P := fun g : list str =>
              sum_len g <= chunk_size
              \/ length g <= OVERLAP_SENTENCES cfg + 1).
  assert (Inv : let st := fold_left (group_step cfg chunk_size) sentences
                            initial_groups in
                (group_len st = sum_len (group st)
                 /\ (group_len st = 0 -> group st = []))
                /\ P (group st)
                /\ forall g, In g (groups st) -> P g).
  { apply (@group_loop_invariant cfg chunk_size
             (fun pre st =>
                (group_len st = sum_len (group st)
                 /\ (group_len st = 0 -> group st = []))
                /\ P (group st)
                /\ forall g, In g (groups st) -> P g)).
    - unfold P. simpl. split; [split; [reflexivity | auto] |].
      split; [left; lia | intros g' []].
    - intros pre st s Hin' [[Hl Hz] [Hp Hgs]].
      assert (Hlen : 1 <= len s).
      { specialize (Hs s Hin'). destruct s; [congruence | simpl; lia]. }
      rewrite group_step_unfold.
      destruct ((chunk_size <? group_len st + len s)
                && (0 <? group_len st)) eqn:E; simpl.
      + split; [split; [rewrite sum_len_app; simpl; lia | lia] |].
        split.
        * right. rewrite length_app. simpl.
          pose proof (overlap_seed_length cfg (group st) Ho). lia.
        * intros g' Hg'. apply in_app_or in Hg'.
          destruct Hg' as [Hg' | [<- | []]]; auto.
      + split; [split; [rewrite sum_len_app; simpl; lia | lia] |].
        split; [| exact Hgs].
        apply andb_false_iff in E. destruct E as [E | E].
        * left. apply Nat.ltb_ge in E. rewrite sum_len_app. simpl. lia.
        * right. apply Nat.ltb_ge in E.
          rewrite (Hz ltac:(lia)). simpl. lia. }
  destruct Inv as [_ [Hp Hgs]]. rewrite sum_len_join.
  destruct Hg as [Hg | [-> _]].
  - split; [now apply Hin | now apply Hgs].
  - split; [exists a, []; now rewrite app_nil_r | exact Hp].
Qed.

Lemma assemble_chunks_soft_bound_witness :
  exists g, u "一二三四五。甲乙丙丁戊！" = join g
    /\ is_infix g [u "一二三四五。"; u "甲乙丙丁戊！"; u "子丑寅卯辰？"]
    /\ (len (u "一二三四五。甲乙丙丁戊！") <= 10
        \/ length g
           <= OVERLAP_SENTENCES {| CHUNK_SIZE := 10; MIN_CHUNK_SIZE := 50;
                                   OVERLAP_SENTENCES := 1 |} + 1).
Proof.
  apply (@assemble_chunks_soft_bound
           {| CHUNK_SIZE := 10; MIN_CHUNK_SIZE := 50;
              OVERLAP_SENTENCES := 1 |} 10
           [u "一二三四五。"; u "甲乙丙丁戊！"; u "子丑寅卯辰？"]
           (u "一二三四五。甲乙丙丁戊！")).
  - simpl. lia.
  - intros s Hs. vm_compute in Hs.
    repeat (destruct Hs as [<- | Hs]; [discriminate |]). destruct Hs.
  - vm_compute. right. left. reflexivity.
Defined.

Lemma follows_extend (cfg : Config) (l x g h : list str) :
  follows cfg l g h -> follows cfg (l ++ x) g h.
Proof.
  intros [a [t [b [E [Ht Eh]]]]]. exists a, t, (b ++ x).
  split; [| now split]. rewrite E. now rewrite <- !app_assoc.
Qed.

Lemma group_loop_follows (cfg : Config) (chunk_size : nat)
    (sentences : list str) :
  let st := fold_left (group_step cfg chunk_size) sentences
              initial_groups in
  (exists a, sentences = a ++ group st)
  /\ (forall gs g, groups st = gs ++ [g] ->
       exists a t, sentences = a ++ g ++ t /\ t <> []
                   /\ group st = overlap_seed cfg g ++ t)
  /\ chained (follows cfg sentences) (groups st).
Proof.
  apply (@group_loop_invariant cfg chunk_size
           (fun pre st =>
              (exists a, pre = a ++ group st)
              /\ (forall gs g, groups st = gs ++ [g] ->
                   exists a t, pre = a ++ g ++ t /\ t <> []
                               /\ group st = overlap_seed cfg g ++ t)
              /\ chained (follows cfg pre) (groups st))).
  - split; [now exists [] |]. split.
    + intros gs g H. simpl in H. now destruct gs.
    + intros i x y H. simpl in H. now destruct i.
  - intros pre st s _ [[a Ea] [Hlast Hch]]. rewrite group_step_unfold.
    destruct ((chunk_size <? group_len st + len s) && (0 <? group_len st));
      cbn [groups group].
    + split; [| split].
      * destruct (overlap_seed_suffix cfg (group st)) as [x Ex].
        exists (a ++ x). rewrite Ea. rewrite Ex at 1.
        now rewrite <- !app_assoc.
      * intros gs g H. apply app_inj_tail in H. destruct H as [_ <-].
        exists a, [s]. split; [| split; [discriminate | reflexivity]].
        rewrite Ea. now rewrite <- app_assoc.
      * intros i g h H1 H2.
        assert (Hlt : S i < length (groups st ++ [group st]))
          by (apply nth_error_Some; congruence).
        rewrite length_app in Hlt. simpl in Hlt.
        rewrite nth_error_app1 in H1 by lia.
        destruct (Nat.eq_dec (S i) (length (groups st))) as [Hi | Hi].
        -- rewrite nth_error_app2 in H2 by lia.
           replace (S i - length (groups st)) with 0 in H2 by lia.
           simpl in H2. injection H2 as <-.
           destruct (nth_error_split _ _ H1) as [l1 [l2 [El Hl1]]].
           assert (l2 = []).
           { apply (f_equal (@length _)) in El.
             rewrite length_app in El. simpl in El.
             destruct l2; [reflexivity | simpl in El; lia]. }
           subst l2. destruct (Hlast l1 g El) as [a' [t [E [Ht Eg]]]].
           exists a', t, [s]. split; [| now split].
           rewrite E. now rewrite <- !app_assoc.
        -- rewrite nth_error_app1 in H2 by lia.
           apply follows_extend. exact (Hch i g h H1 H2).
    + split; [| split].
      * exists a. rewrite Ea. now rewrite <- app_assoc.
      * intros gs g H. destruct (Hlast gs g H) as [a' [t [E [Ht Eg]]]].
        exists a', (t ++ [s]). split; [| split].
        -- rewrite E. now rewrite <- !app_assoc.
        -- now destruct t.
        -- rewrite Eg. now rewrite <- app_assoc.
      * intros i g h H1 H2. apply follows_extend. exact (Hch i g h H1 H2).
Qed.

(** The overlap in general: of two consecutive chunks, the first is a
    run [g1] of the sentences, and the second is made of the sentences
    carried over from [g1] (its last OVERLAP_SENTENCES sentences, or all
    of them when it has fewer) and then of the sentences [t] that follow
    [g1] at once in the text, of which there is at least one. *)
Theorem assemble_chunks_overlap (cfg : Config) (chunk_size : nat)
    (sentences : list str) (i : nat) (c1 c2 : str) :
  nth_error (assemble_chunks cfg chunk_size sentences) i = Some c1 ->
  nth_error (assemble_chunks cfg chunk_size sentences) (S i) = Some c2 ->
  exists a g1 t b,
    sentences = a ++ g1 ++ t ++ b /\ t <> []
    /\ c1 = join g1 /\ c2 = join (overlap_seed cfg g1 ++ t).
Proof.
  rewrite assemble_chunks_groups. intros H1 H2.
  rewrite nth_error_map in H1, H2.
  destruct (nth_error (assemble_groups cfg chunk_size sentences) i)
    as [g1 |] eqn:G1; [| discriminate].
  destruct (nth_error (assemble_groups cfg chunk_size sentences) (S i))
    as [g2 |] eqn:G2; [| discriminate].
  simpl in H1, H2. inversion H1; inversion H2; subst c1 c2.
  clear H1 H2. rename G1 into H1. rename G2 into H2.
  rewrite assemble_groups_unfold in H1, H2. cbv zeta in H1, H2.
  destruct (group_loop_follows cfg chunk_size sentences)
    as [_ [Hlast Hch]].
  set (st := fold_left (group_step cfg chunk_size) sentences
               initial_groups) in *.
  assert (Hpair : nth_error (groups st ++ [group st]) i = Some g1
                  /\ nth_error (groups st ++ [group st]) (S i) = Some g2).
  { destruct (truthy (group st)); [now split |].
    assert (S i < length (groups st))
      by (apply nth_error_Some; congruence).
    split; rewrite nth_error_app1 by lia; assumption. }
  destruct Hpair as [P1 P2].
  assert (Hlt : S i < length (groups st ++ [group st]))
    by (apply nth_error_Some; congruence).
  rewrite length_app in Hlt. simpl in Hlt.
  rewrite nth_error_app1 in P1 by lia.
  assert (F : follows cfg sentences g1 g2).
  { destruct (Nat.eq_dec (S i) (length (groups st))) as [Hi | Hi].
    - rewrite nth_error_app2 in P2 by lia.
      replace (S i - length (groups st)) with 0 in P2 by lia.
      simpl in P2. injection P2 as <-.
      destruct (nth_error_split _ _ P1) as [l1 [l2 [El Hl1]]].
      assert (l2 = []).
      { apply (f_equal (@length _)) in El.
        rewrite length_app in El. simpl in El.
        destruct l2; [reflexivity | simpl in El; lia]. }
      subst l2. destruct (Hlast l1 g1 El) as [a' [t [E [Ht Eg]]]].
      exists a', t, []. split; [| now split].
      rewrite E. now rewrite app_nil_r.
    - rewrite nth_error_app1 in P2 by lia. exact (Hch i g1 g2 P1 P2). }
  destruct F as [a [t [b [E [Ht Eg]]]]].
  exists a, g1, t, b. split; [exact E |]. split; [exact Ht |].
  split; [reflexivity | now rewrite Eg].
Qed.

Lemma assemble_chunks_overlap_witness :
  exists a g1 t b,
    [u "一二三四五。"; u "甲乙丙丁戊！"; u "子丑寅卯辰？"]
    = a ++ g1 ++ t ++ b /\ t <> []
    /\ u "一二三四五。甲乙丙丁戊！" = join g1
    /\ u "甲乙丙丁戊！子丑寅卯辰？"
       = join (overlap_seed {| CHUNK_SIZE := 10; MIN_CHUNK_SIZE := 50;
                               OVERLAP_SENTENCES := 1 |} g1 ++ t).
Proof.
  apply (@assemble_chunks_overlap
           {| CHUNK_SIZE := 10; MIN_CHUNK_SIZE := 50;
              OVERLAP_SENTENCES := 1 |} 10
           [u "一二三四五。"; u "甲乙丙丁戊！"; u "子丑寅卯辰？"] 1);
    vm_compute; reflexivity.
Defined.

(* ================================================================== *)
(** * More on extract_title *)
(* ================================================================== *)

Lemma span_spec (p : char -> bool) (s a b : str) :
  span p s = (a, b) ->
  s = a ++ b /\ forallb p a = true.
Proof.
  revert a b. induction s as [| c s IH]; intros a b; simpl.
  - intros H. inversion H. auto.
  - destruct (p c) eqn:Hc.
    + destruct (span p s) as [a' b'] eqn:E. intros H. inversion H; subst.
      destruct (IH a' b eq_refl) as [-> Ha]. simpl. now rewrite Hc, Ha.
    + intros H. inversion H. auto.
Qed.

(** A range that meets no range of the table is outside the table. *)
Lemma in_ranges_disjoint (tbl : list (N * N)) (lo hi c : N) :
  forallb (fun '(l, h) => ((hi <? l) || (h <? lo))%N) tbl = true ->
  (lo <= c <= hi)%N -> in_ranges tbl c = false.
Proof.
  induction tbl as [| [l h] tbl IH]; simpl; [reflexivity |].
  intros H Hc. apply andb_true_iff in H. destruct H as [H Ht].
  rewrite (IH Ht Hc), orb_false_r. apply andb_false_iff.
  apply orb_true_iff in H. destruct H as [H | H]; apply N.ltb_lt in H;
    [left | right]; apply N.leb_gt; lia.
Qed.

Lemma digit_or_dot_nonspace (c : char) :
  digit_or_dot c = true -> isspace c = false.
Proof.
  intros H. destruct (isspace c) eqn:Hs; [| reflexivity]. exfalso.
  unfold digit_or_dot in H. apply orb_true_iff in H.
  destruct H as [H | H].
  - unfold isspace in Hs. cbn [in_ranges space_table] in Hs.
    unfold isdigit_re in H.
    repeat (apply orb_true_iff in Hs; destruct Hs as [Hs | Hs]);
      try discriminate Hs;
      apply andb_true_iff in Hs; destruct Hs as [H1 H2];
      apply N.leb_le in H1, H2;
      match type of H1 with
      | (?lo <= _)%N =>
          match type of H2 with
          | (_ <= ?hi)%N =>
              rewrite (@in_ranges_disjoint digit_table lo hi c) in H;
                [discriminate H | vm_compute; reflexivity
                 | split; assumption]
          end
      end.
  - apply N.eqb_eq in H. subst c. discriminate Hs.
Qed.

Lemma is_cjk_numeral_nonspace (c : char) :
  is_cjk_numeral c = true -> isspace c = false.
Proof.
  unfold is_cjk_numeral. intros H. apply existsb_exists in H.
  destruct H as [x [Hx E]]. apply N.eqb_eq in E. subst x.
  vm_compute in Hx.
  repeat (destruct Hx as [<- | Hx]; [reflexivity |]). destruct Hx.
Qed.

Lemma lstrip_app_spaces (sp s : str) :
  forallb isspace sp = true -> lstrip (sp ++ s) = lstrip s.
Proof.
  induction sp as [| c sp IH]; simpl; [reflexivity |].
  intros H. apply andb_true_iff in H. destruct H as [Hc Hs].
  rewrite Hc. auto.
Qed.

(** Trimming a text without whitespace, followed by whitespace, gives
    the text. *)
Lemma strip_app_spaces (s sp : str) :
  forallb nonspace s = true -> forallb isspace sp = true ->
  strip (s ++ sp) = s.
Proof.
  intros Hs Hsp. unfold strip.
  assert (E : lstrip (s ++ sp) = s ++ sp \/ s = []).
  { destruct s as [| c s]; [now right | left]. simpl in *.
    apply andb_true_iff in Hs. destruct Hs as [Hc _].
    apply negb_true_iff in Hc. now rewrite Hc. }
  destruct E as [E | ->].
  - rewrite E. unfold rstrip. rewrite rev_app_distr.
    rewrite lstrip_app_spaces.
    + fold (rstrip s). pose proof (strip_nonspace s Hs) as Hn.
      unfold strip in Hn.
      assert (Hl : lstrip s = s).
      { destruct s as [| c s]; [reflexivity |]. simpl in *.
        apply andb_true_iff in Hs. destruct Hs as [Hc _].
        apply negb_true_iff in Hc. now rewrite Hc. }
      now rewrite Hl in Hn.
    + rewrite forallb_forall in *. intros x Hx. apply Hsp.
      now apply in_rev.
  - simpl. fold (strip sp). now apply strip_spaces.
Qed.

Lemma match_chapter_spec (head m : str) :
  match_chapter head = Some m ->
  is_prefix m head
  /\ exists nums, nums <> [] /\ forallb is_cjk_numeral nums = true
                  /\ m = DI :: nums ++ [ZHANG].
Proof.
  unfold match_chapter. destruct head as [| c r]; [discriminate |].
  destruct (c =? DI)%N eqn:Ec; [| discriminate].
  apply N.eqb_eq in Ec. subst c.
  destruct (span is_cjk_numeral r) as [nums rest] eqn:E.
  destruct (span_spec _ _ E) as [-> Hn].
  destruct nums as [| n nums]; [discriminate |].
  destruct rest as [| z rest]; [discriminate |].
  destruct (z =? ZHANG)%N eqn:Ez; [| discriminate].
  apply N.eqb_eq in Ez. subst z. intros H. inversion H; subst. split.
  - exists rest. simpl. now rewrite <- !app_assoc.
  - exists (n :: nums). split; [discriminate | auto].
Qed.

Lemma match_numbered_spec (head m : str) :
  match_numbered head = Some m ->
  exists run z rest,
    head = run ++ z :: rest /\ m = run ++ [z] /\ run <> []
    /\ forallb digit_or_dot run = true /\ isspace z = true.
Proof.
  unfold match_numbered. fold digit_or_dot.
  change (fun c : char => isdigit_re c || (c =? DOT)%N) with digit_or_dot.
  destruct (span digit_or_dot head) as [run rest] eqn:E.
  destruct (span_spec _ _ E) as [-> Hr].
  destruct run as [| d run]; [discriminate |].
  destruct rest as [| z rest]; [discriminate |].
  destruct (isspace z) eqn:Hz; [| discriminate].
  intros H. inversion H; subst. exists (d :: run), z, rest.
  repeat split; auto. discriminate.
Qed.

Lemma is_prefix_trans (a b c : str) :
  is_prefix a b -> is_prefix b c -> is_prefix a c.
Proof.
  intros [x ->] [y ->]. exists (x ++ y). now rewrite <- app_assoc.
Qed.

Lemma extract_title_shape_aux (text : str) :
  is_prefix (extract_title text) text
  /\ len (extract_title text) <= 50
  /\ forallb nonspace (extract_title text) = true
  /\ (extract_title text = []
      \/ (exists nums, nums <> [] /\ forallb is_cjk_numeral nums = true
                       /\ extract_title text = DI :: nums ++ [ZHANG])
      \/ (extract_title text <> []
          /\ forallb digit_or_dot (extract_title text) = true)).
Proof.
  assert (Hhead : is_prefix (firstn 50 text) text) by apply firstn_prefix.
  assert (Hlen : len (firstn 50 text) <= 50)
    by (unfold len; rewrite length_firstn; lia).
  unfold extract_title, re_search_title.
  destruct (match_chapter (firstn 50 text)) as [m |] eqn:Ec.
  - destruct (match_chapter_spec _ Ec) as [Hp [nums [Hne [Hn ->]]]].
    assert (Hns : forallb nonspace (DI :: nums ++ [ZHANG]) = true).
    { simpl. rewrite forallb_app. simpl. rewrite andb_true_r.
      apply forallb_forall. intros x Hx. unfold nonspace.
      rewrite forallb_forall in Hn.
      now rewrite (is_cjk_numeral_nonspace x (Hn x Hx)). }
    rewrite (strip_nonspace _ Hns).
    split; [eapply is_prefix_trans; eauto |].
    split; [apply is_prefix_len in Hp; lia |].
    split; [exact Hns |]. right; left. now exists nums.
  - destruct (match_numbered (firstn 50 text)) as [m |] eqn:En.
    + destruct (match_numbered_spec _ En)
        as [run [z [rest [Eh [-> [Hne [Hr Hz]]]]]]].
      assert (Hns : forallb nonspace run = true).
      { apply forallb_forall. intros x Hx. unfold nonspace.
        rewrite forallb_forall in Hr.
        now rewrite (digit_or_dot_nonspace x (Hr x Hx)). }
      rewrite (strip_app_spaces run [z] Hns)
        by (simpl; now rewrite Hz).
      assert (Hp : is_prefix run (firstn 50 text))
        by (exists (z :: rest); exact Eh).
      split; [eapply is_prefix_trans; eauto |].
      split; [apply is_prefix_len in Hp; lia |].
      split; [exact Hns |]. right; right. now split.
    + split; [now exists text |]. split; [simpl; lia |].
      split; [reflexivity | now left].
Qed.

(** The label found by [extract_title] is a prefix of the text, without
    whitespace and of at most 50 characters; it is empty, or the chapter
    marker 第...章 with at least one numeral, or a non-empty run of
    digits and dots.  The words of the heading are never part of it. *)
Theorem extract_title_shape (text : str) :
  is_prefix (extract_title text) text
  /\ len (extract_title text) <= 50
  /\ forallb nonspace (extract_title text) = true
  /\ (extract_title text = []
      \/ (exists nums, nums <> [] /\ forallb is_cjk_numeral nums = true
                       /\ extract_title text = DI :: nums ++ [ZHANG])
      \/ (extract_title text <> []
          /\ forallb digit_or_dot (extract_title text) = true)).
Proof. apply extract_title_shape_aux. Qed.

Lemma extract_title_helper_nonspace_head (c : char) (text : str) :
  extract_title (c :: text) = [] \/ isspace c = false.
Proof.
  destruct (extract_title_shape_aux (c :: text)) as [[t Et] [_ [Hn _]]].
  destruct (extract_title (c :: text)) as [| d r]; [now left | right].
  simpl in Et. inversion Et; subst d. simpl in Hn.
  apply andb_true_iff in Hn. destruct Hn as [Hn _].
  now apply negb_true_iff in Hn.
Qed.

(** A text that begins with whitespace gets no label, the pattern being
    anchored at the first character of the untrimmed text. *)
Theorem extract_title_leading_space (c : char) (text : str) :
  isspace c = true -> extract_title (c :: text) = [].
Proof.
  intros Hc.
  destruct (extract_title_helper_nonspace_head c text) as [H | H];
    [exact H | congruence].
Qed.

Lemma extract_title_leading_space_witness :
  extract_title (0x20%N :: u "第一章 总则") = [].
Proof.
  apply (@extract_title_leading_space 0x20%N (u "第一章 总则")).
  reflexivity.
Defined.

(* ================================================================== *)
(** * The fields of the records *)
(* ================================================================== *)

Lemma anchor_of_nonempty (c : str) : c <> [] -> anchor_of c <> [].
Proof.
  intros Hc. unfold anchor_of.
  destruct (re_match_first_sentence c) as [m |] eqn:E.
  - apply re_match_first_sentence_some in E.
    destruct E as [pre [t [rest [_ [_ [_ ->]]]]]]. now destruct pre.
  - now destruct c.
Qed.

Lemma chunk_nonempty (cfg : Config) (cleaned : str) (idx : nat) (c : str) :
  nth_error (semantic_chunking cfg cleaned (CHUNK_SIZE cfg)) idx = Some c ->
  c <> [].
Proof.
  intros H. apply nth_error_In in H.
  now apply (proj1 (semantic_chunking_nonempty_aux cfg cleaned
                      (CHUNK_SIZE cfg))).
Qed.

Lemma app_nonempty_r (a b : str) : b <> [] -> a ++ b <> [].
Proof. intros Hb E. apply app_eq_nil in E. tauto. Qed.

Lemma record_literals_nonempty :
  u "_" <> [] /\ u "_row_" <> [] /\ u "_txt_" <> [] /\ u "_docx_" <> [].
Proof. vm_compute. repeat split; discriminate. Qed.

(** In every record of a run, [chunk_len] is the length of [content];
    the content, the anchor and the identifier are not empty, as the
    loader of the indexing script requires of [chunk_id] and [content];
    the identifier begins with the document identifier; and [source] and
    [doc_id] are those of one file of the walk. *)
Theorem record_fields (env : Env) (cfg : Config)
    (all_data : list ChunkRecord) (log : list log_msg) (r : ChunkRecord) :
  main env cfg = Some (all_data, log) -> In r all_data ->
  chunk_len r = len (content r)
  /\ content r <> [] /\ anchor_text r <> [] /\ chunk_id r <> []
  /\ is_prefix (doc_id r) (chunk_id r)
  /\ exists root file_name,
       In (root, file_name) (walked_files env)
       /\ source r = rel_path_of env (os_path_join env root file_name)
       /\ generate_doc_id (source r) = Some (doc_id r).
Proof.
  intros Hm Hr.
  destruct (main_shape _ _ r Hm Hr) as [root [fn [id [Hw [Hid Hs]]]]].
  destruct record_literals_nonempty as [L1 [L2 [L3 L4]]].
  assert (Hsrc : exists root file_name,
             In (root, file_name) (walked_files env)
             /\ source r = rel_path_of env (os_path_join env root file_name)
             /\ generate_doc_id (source r) = Some (doc_id r)).
  { exists root, fn. destruct (record_shape_doc_id Hs) as [-> ->]. auto. }
  destruct Hs as [pn sec cl idx c Hn _ -> | rn c Hl ->
                 | ti ur cl idx c Hn _ -> | cl idx c Hn _ ->];
    cbn [chunk_len content anchor_text chunk_id doc_id source
         pdf_record excel_record txt_record docx_record] in *.
  - pose proof (chunk_nonempty _ _ _ Hn) as Hc.
    repeat split; auto using anchor_of_nonempty.
    + apply app_nonempty_r. now destruct (u "_").
    + eexists; reflexivity.
  - assert (Hc : c <> []) by (destruct c; [simpl in Hl; lia | discriminate]).
    repeat split; auto.
    + now destruct c.
    + apply app_nonempty_r. now destruct (u "_row_").
    + eexists; reflexivity.
  - pose proof (chunk_nonempty _ _ _ Hn) as Hc.
    repeat split; auto using anchor_of_nonempty.
    + apply app_nonempty_r. now destruct (u "_txt_").
    + eexists; reflexivity.
  - pose proof (chunk_nonempty _ _ _ Hn) as Hc.
    repeat split; auto using anchor_of_nonempty.
    + apply app_nonempty_r. now destruct (u "_docx_").
    + eexists; reflexivity.
Qed.

Lemma record_fields_witness :
  chunk_len table_record = len (content table_record)
  /\ content table_record <> [] /\ anchor_text table_record <> []
  /\ chunk_id table_record <> []
  /\ is_prefix (doc_id table_record) (chunk_id table_record)
  /\ exists root file_name,
       In (root, file_name) (walked_files table_env)
       /\ source table_record
          = rel_path_of table_env (os_path_join table_env root file_name)
       /\ generate_doc_id (source table_record)
          = Some (doc_id table_record).
Proof.
  apply (@record_fields table_env default_config
           [table_record] [] table_record).
  - vm_compute. reflexivity.
  - left. reflexivity.
Defined.

(* ================================================================== *)
(** * More on process_pdf: where a record comes from *)
(* ================================================================== *)

(** A record of the loop over the pages is an earlier result or comes
    from a page with text: its page number is the position of the page,
    counted from [i + 1]; its content is a chunk of the cleaned text of
    the page; its label is the label at the start, or the non-empty
    title of that page or of a page before it, and the title of its own
    page whenever that page has one. *)
Lemma pdf_pages_provenance (cfg : Config) (file_name doc_id : str)
    (pages : list page) (i : nat) (section : str)
    (results : list ChunkRecord) (r : ChunkRecord) :
  In r (fst (pdf_pages cfg file_name doc_id pages i section results)) ->
  In r results
  \/ exists k text,
       nth_error pages k = Some (Return text) /\ text <> []
       /\ page_num r = Int (Z.of_nat (i + k + 1))
       /\ In (content r)
            (semantic_chunking cfg (clean_text_basic text) (CHUNK_SIZE cfg))
       /\ (extract_title text <> [] ->
           section_title r = extract_title text)
       /\ (section_title r = section
           \/ exists j text',
                j <= k /\ nth_error pages j = Some (Return text')
                /\ extract_title text' <> []
                /\ section_title r = extract_title text').
Proof.
  revert i section results.
  induction pages as [| p rest IH]; intros i section results; simpl.
  - auto.
  - destruct p as [text | e]; [| auto].
    destruct (truthy text) eqn:Et; simpl.
    + intros H. apply IH in H.
      destruct H as [H | [k [text' [Hk [Hne [Hp [Hc [Ht Hs]]]]]]]].
      * apply in_app_or in H. destruct H as [H | H]; [now left | right].
        apply chunk_loop_In in H. destruct H as [idx [c [Hn [_ ->]]]].
        exists 0, text. simpl.
        split; [reflexivity |]. split; [now destruct text |].
        split; [cbn [page_num pdf_record]; do 2 f_equal; lia |].
        split; [eapply nth_error_In; eauto |].
        unfold update_section_title.
        destruct (extract_title text) as [| x t] eqn:E; simpl.
        -- split; [intros N; now elim N | now left].
        -- split; [reflexivity |]. right. exists 0, text.
           rewrite E. repeat split; auto. discriminate.
      * right. exists (S k), text'. simpl.
        split; [exact Hk |]. split; [exact Hne |].
        split; [rewrite Hp; do 2 f_equal; lia |].
        split; [exact Hc |]. split; [exact Ht |].
        destruct Hs as [Hs | [j [t' [Hj [Hn' [Hne' Hs]]]]]].
        -- unfold update_section_title in Hs.
           destruct (extract_title text) as [| x t] eqn:E; simpl in Hs.
           ++ now left.
           ++ right. exists 0, text. rewrite E.
              repeat split; auto; [lia | discriminate].
        -- right. exists (S j), t'. repeat split; auto. lia.
    + intros H. apply IH in H.
      destruct H as [H | [k [text' [Hk [Hne [Hp [Hc [Ht Hs]]]]]]]];
        [now left | right].
      exists (S k), text'. simpl.
      split; [exact Hk |]. split; [exact Hne |].
        split; [rewrite Hp; do 2 f_equal; lia |].
      split; [exact Hc |]. split; [exact Ht |].
      destruct Hs as [Hs | [j [t' [Hj [Hn' [Hne' Hs]]]]]]; [now left |].
      right. exists (S j), t'. repeat split; auto. lia.
Qed.

(** Every record of a paginated document comes from a page that has
    text: its page number is the 1-based position of that page, so a
    page without text keeps its number and gives nothing; its content is
    a chunk of the cleaned text of that page; its section label is the
    title found on that page if there is one, otherwise the sentinel or
    the last title found on an earlier page, and never a title of a
    later page. *)
Theorem process_pdf_provenance (env : Env) (cfg : Config)
    (file_path file_name doc_id : str) (pages : list page)
    (r : ChunkRecord) :
  pdfplumber_open env file_path = Return pages ->
  In r (fst (process_pdf env cfg file_path file_name doc_id)) ->
  exists k text,
    nth_error pages k = Some (Return text) /\ text <> []
    /\ page_num r = Int (Z.of_nat (k + 1))
    /\ In (content r)
         (semantic_chunking cfg (clean_text_basic text) (CHUNK_SIZE cfg))
    /\ (extract_title text <> [] -> section_title r = extract_title text)
    /\ (section_title r = u "未知章节"
        \/ exists j text',
             j <= k /\ nth_error pages j = Some (Return text')
             /\ extract_title text' <> []
             /\ section_title r = extract_title text').
Proof.
  intros Hopen. unfold process_pdf. rewrite Hopen. intros H.
  apply pdf_pages_provenance in H. destruct H as [[] | H].
  destruct H as [k [text [Hk [Hne [Hp [Hc [Ht Hs]]]]]]].
  exists k, text. repeat split; auto.
Qed.

Lemma process_pdf_provenance_witness :
  exists k text,
    nth_error three_pages k = Some (Return text) /\ text <> []
    /\ page_num (pdf_record (u "manual.pdf") (u "id") 3 (u "第一章") 0
                   (repeat 0x63%N 60)) = Int (Z.of_nat (k + 1))
    /\ In (content (pdf_record (u "manual.pdf") (u "id") 3 (u "第一章") 0
                      (repeat 0x63%N 60)))
         (semantic_chunking default_config (clean_text_basic text)
            (CHUNK_SIZE default_config))
    /\ (extract_title text <> [] ->
        section_title (pdf_record (u "manual.pdf") (u "id") 3 (u "第一章") 0
                         (repeat 0x63%N 60)) = extract_title text)
    /\ (section_title (pdf_record (u "manual.pdf") (u "id") 3 (u "第一章") 0
                         (repeat 0x63%N 60)) = u "未知章节"
        \/ exists j text',
             j <= k /\ nth_error three_pages j = Some (Return text')
             /\ extract_title text' <> []
             /\ section_title (pdf_record (u "manual.pdf") (u "id") 3
                                 (u "第一章") 0 (repeat 0x63%N 60))
                = extract_title text').
Proof.
  apply (@process_pdf_provenance three_page_env default_config
           (u "/data/raw/manual.pdf") (u "manual.pdf") (u "id")
           three_pages).
  - vm_compute. reflexivity.
  - vm_compute. right. right. left. reflexivity.
Defined.

(* ================================================================== *)
(** * Uniqueness of the chunk identifiers of a file *)
(* ================================================================== *)

Lemma str_of_uint_inj (d d' : Decimal.uint) :
  str_of_uint d = str_of_uint d' -> d = d'.
Proof.
  revert d'. induction d; intros d'; destruct d'; simpl; intros H;
    try discriminate H; try reflexivity;
    inversion H; f_equal; auto.
Qed.

Lemma str_of_nat_inj (n m : nat) : str_of_nat n = str_of_nat m -> n = m.
Proof.
  unfold str_of_nat. intros H. apply str_of_uint_inj in H.
  now apply DecimalNat.Unsigned.to_uint_inj.
Qed.

Lemma str_of_uint_digits (d : Decimal.uint) :
  forallb is_ascii_digit (str_of_uint d) = true.
Proof. induction d; simpl; auto. Qed.

Lemma str_of_nat_digits (n : nat) :
  forallb is_ascii_digit (str_of_nat n) = true.
Proof. apply str_of_uint_digits. Qed.

(** Two texts made of a run of digits, a character that is not a digit
    and a rest are equal only if the runs and the rests are. *)
Lemma digits_separator_inj (a a' b b' : str) (x : char) :
  forallb is_ascii_digit a = true -> forallb is_ascii_digit a' = true ->
  is_ascii_digit x = false ->
  a ++ x :: b = a' ++ x :: b' -> a = a' /\ b = b'.
Proof.
  intros Ha Ha' Hx. revert a' Ha'.
  induction a as [| c a IH]; intros a' Ha' E; destruct a' as [| c' a'];
    simpl in *.
  - inversion E. auto.
  - inversion E; subst. apply andb_true_iff in Ha'. destruct Ha' as [H _].
    congruence.
  - inversion E; subst. apply andb_true_iff in Ha. destruct Ha as [H _].
    congruence.
  - inversion E; subst. apply andb_true_iff in Ha, Ha'.
    destruct Ha as [_ Ha], Ha' as [_ Ha'].
    destruct (IH Ha a' Ha' H1) as [-> ->]. auto.
Qed.

Lemma underscore_not_digit : is_ascii_digit 0x5F%N = false.
Proof. reflexivity. Qed.

(** The identifier of a record of a paginated document determines its
    page number and its chunk index. *)
Lemma pdf_chunk_id_inj (id : str) (p p' i i' : nat) :
  id ++ u "_" ++ str_of_nat p ++ u "_" ++ str_of_nat i
  = id ++ u "_" ++ str_of_nat p' ++ u "_" ++ str_of_nat i' ->
  p = p' /\ i = i'.
Proof.
  intros H. apply app_inv_head in H.
  destruct underscore_codes as [E _]. rewrite E in H.
  simpl in H. inversion H as [H'].
  apply digits_separator_inj in H';
    auto using str_of_nat_digits, underscore_not_digit.
  destruct H' as [Hp Hi]. split; now apply str_of_nat_inj.
Qed.

Lemma tagged_chunk_id_inj (id tag : str) (i i' : nat) :
  id ++ tag ++ str_of_nat i = id ++ tag ++ str_of_nat i' -> i = i'.
Proof.
  intros H. apply app_inv_head in H. apply app_inv_head in H.
  now apply str_of_nat_inj.
Qed.

(** Records built from distinct indices by a function whose identifier
    depends on the index alone, injectively, have distinct
    identifiers. *)
Lemma indexed_records_nodup (A : Type) (K : nat -> str)
    (f : nat * A -> list ChunkRecord) (l : list A) (k : nat) :
  (forall i j, K i = K j -> i = j) ->
  (forall i x r, In r (f (i, x)) -> f (i, x) = [r] /\ chunk_id r = K i) ->
  NoDup (map chunk_id (flat_map f (enumerate_from k l)))
  /\ forall c, In c (map chunk_id (flat_map f (enumerate_from k l))) ->
               exists i, k <= i /\ c = K i.
Proof.
  intros Hinj Hf. revert k. induction l as [| x l IH]; intros k; simpl.
  - split; [constructor | intros c []].
  - destruct (IH (S k)) as [Hnd Hge]. rewrite map_app. split.
    + apply NoDup_app; [| exact Hnd |].
      * destruct (f (k, x)) as [| r t] eqn:E; [constructor |].
        destruct (Hf k x r) as [E' _]; [rewrite E; now left |].
        rewrite E in E'. inversion E'; subst. simpl.
        constructor; [intros [] | constructor].
      * intros c Hc Hc'. apply in_map_iff in Hc.
        destruct Hc as [r [<- Hr]]. destruct (Hf k x r Hr) as [_ Hk].
        destruct (Hge _ Hc') as [i [Hi Ei]]. rewrite Hk in Ei.
        apply Hinj in Ei. lia.
    + intros c Hc. apply in_app_or in Hc. destruct Hc as [Hc | Hc].
      * apply in_map_iff in Hc. destruct Hc as [r [<- Hr]].
        destruct (Hf k x r Hr) as [_ Hk]. exists k. split; [lia | exact Hk].
      * destruct (Hge _ Hc) as [i [Hi Ei]]. exists i. split; [lia | exact Ei].
Qed.

Lemma chunk_loop_nodup (cfg : Config) (mk : nat -> str -> ChunkRecord)
    (K : nat -> str) (chunks : list str) :
  (forall i j, K i = K j -> i = j) ->
  (forall i c, chunk_id (mk i c) = K i) ->
  NoDup (map chunk_id (chunk_loop cfg mk chunks))
  /\ forall x, In x (map chunk_id (chunk_loop cfg mk chunks)) ->
               exists i, x = K i.
Proof.
  intros Hinj Hk. unfold chunk_loop, enumerate.
  destruct (@indexed_records_nodup str K
              (fun '(idx, chunk_text) =>
                 if len chunk_text <? MIN_CHUNK_SIZE cfg then []
                 else [mk idx chunk_text]) chunks 0 Hinj) as [Hnd Hge].
  - intros i c r. destruct (len c <? MIN_CHUNK_SIZE cfg); [intros [] |].
    intros [<- | []]. auto.
  - split; [exact Hnd |]. intros x Hx. destruct (Hge x Hx) as [i [_ E]].
    now exists i.
Qed.

Lemma pdf_pages_nodup (cfg : Config) (file_name doc_id : str)
    (pages : list page) (i : nat) (section : str)
    (results : list ChunkRecord) :
  NoDup (map chunk_id results) ->
  (forall x, In x (map chunk_id results) ->
             exists p idx, p <= i
               /\ x = doc_id ++ u "_" ++ str_of_nat p
                        ++ u "_" ++ str_of_nat idx) ->
  NoDup (map chunk_id
           (fst (pdf_pages cfg file_name doc_id pages i section results))).
Proof.
  revert i section results.
  induction pages as [| p rest IH]; intros i section results Hnd Hold;
    simpl; [exact Hnd |].
  destruct p as [text | e]; [| exact Hnd].
  destruct (negb (truthy text)).
  - apply IH; [exact Hnd |]. intros x Hx.
    destruct (Hold x Hx) as [q [idx [Hq E]]]. exists q, idx.
    split; [lia | exact E].
  - set (sec := update_section_title section text).
    destruct (@chunk_loop_nodup cfg
                (pdf_record file_name doc_id (i + 1) sec)
                (fun idx => doc_id ++ u "_" ++ str_of_nat (i + 1)
                              ++ u "_" ++ str_of_nat idx)
                (semantic_chunking cfg (clean_text_basic text)
                   (CHUNK_SIZE cfg))) as [Hn Hk].
    + intros a b E. now apply pdf_chunk_id_inj in E.
    + reflexivity.
    + apply IH.
      * rewrite map_app. apply NoDup_app; [exact Hnd | exact Hn |].
        intros x Hx Hx'. destruct (Hold x Hx) as [q [idx [Hq E]]].
        destruct (Hk x Hx') as [idx' E']. rewrite E in E'.
        apply pdf_chunk_id_inj in E'. lia.
      * intros x Hx. rewrite map_app in Hx. apply in_app_or in Hx.
        destruct Hx as [Hx | Hx].
        -- destruct (Hold x Hx) as [q [idx [Hq E]]]. exists q, idx.
           split; [lia | exact E].
        -- destruct (Hk x Hx) as [idx E]. exists (i + 1), idx.
           split; [lia | exact E].
Qed.

Lemma str_of_int_inj (z z' : Z) : str_of_int z = str_of_int z' -> z = z'.
Proof.
  assert (Hmix : forall n p,
             str_of_nat n <> 0x2D%N :: str_of_nat (Pos.to_nat p)).
  { intros n p H. destruct (str_of_nat_head n) as [d [rest [E Hd]]].
    rewrite E in H. injection H as Hd' _. subst d. lia. }
  unfold str_of_int. intros H.
  destruct z as [| p | p], z' as [| q | q];
    try (apply str_of_nat_inj in H; lia);
    try (now apply Hmix in H);
    try (symmetry in H; now apply Hmix in H).
  injection H as H. apply str_of_nat_inj in H. lia.
Qed.

Lemma excel_rows_nodup (file_name doc_id : str)
    (rows : list (label * list (str * str))) :
  forall (zs seen : list Z) (results : list ChunkRecord),
    map fst rows = map IntLabel zs ->
    NoDup (seen ++ zs) ->
    NoDup (map chunk_id results) ->
    (forall r, In r results ->
       exists z, In z seen
                 /\ chunk_id r
                    = doc_id ++ u "_row_" ++ str_of_int (z + 1)) ->
    NoDup (map chunk_id
             (fst (excel_rows file_name doc_id rows results))).
Proof.
  induction rows as [| [index row] rest IH];
    intros zs seen results Hl Hnd Hres Hseen; [exact Hres |].
  destruct zs as [| z zs]; [discriminate Hl |].
  cbn [map fst] in Hl. injection Hl as -> Hl.
  cbn [excel_rows add_one].
  assert (Hnd' : NoDup ((seen ++ [z]) ++ zs))
    by (now rewrite <- app_assoc).
  destruct (negb (truthy (clean_text_basic _))).
  - apply (IH zs (seen ++ [z]) results Hl Hnd' Hres).
    intros r Hr. destruct (Hseen r Hr) as [z' [Hz' E]].
    exists z'. split; [apply in_or_app; now left | exact E].
  - apply (IH zs (seen ++ [z])); [exact Hl | exact Hnd' | |].
    + rewrite map_app. cbn [map chunk_id excel_record format_value].
      apply NoDup_app; [exact Hres | constructor; [intros [] | constructor] |].
      intros c Hc [<- | []]. apply in_map_iff in Hc.
      destruct Hc as [r [E Hr]]. destruct (Hseen r Hr) as [z' [Hz' E']].
      rewrite E' in E. apply app_inv_head in E. apply app_inv_head in E.
      apply str_of_int_inj in E.
      assert (z' = z) by lia. subst z'.
      apply NoDup_remove_2 in Hnd. apply Hnd. apply in_or_app. now left.
    + intros r Hr. apply in_app_or in Hr. destruct Hr as [Hr | [<- | []]].
      * destruct (Hseen r Hr) as [z' [Hz' E]].
        exists z'. split; [apply in_or_app; now left | exact E].
      * exists z. split; [apply in_or_app; right; now left | reflexivity].
Qed.

(** The records that an adapter builds for one file have pairwise
    distinct [chunk_id]s: always for a paginated document, a text and a
    rich-text file; for a table when the index labels of the frame are
    integers, no two the same, as they are with the default index.  (Two
    rows with the same label share their identifier.) *)
Theorem chunk_id_unique_in_file (env : Env) (cfg : Config)
    (file_ext file_path rel_path doc_id : str) :
  (forall df, read_table env file_path rel_path = Return df ->
              distinct_int_labels df) ->
  NoDup (map chunk_id
           (fst (dispatch env cfg file_ext file_path rel_path doc_id))).
Proof.
  intros Hdf. unfold dispatch.
  destruct (str_eqb file_ext (u "pdf")).
  { unfold process_pdf. destruct (pdfplumber_open env file_path);
      [| constructor].
    apply pdf_pages_nodup; [constructor | intros x []]. }
  destruct (existsb _ _).
  { unfold process_excel. unfold read_table in Hdf.
    destruct (if endswith rel_path (u ".csv") then _ else _) as [df | e];
      [| constructor].
    destruct (Hdf df eq_refl) as [zs [Hl Hnd]].
    apply (@excel_rows_nodup rel_path doc_id df zs [] [] Hl Hnd);
      [constructor | intros r []]. }
  destruct (str_eqb file_ext (u "txt")).
  { unfold process_txt.
    destruct (read_text env file_path) as [raw | e]; [| constructor].
    destruct (negb (truthy raw)); [constructor |].
    destruct (txt_title _) as [title | e]; [| constructor].
    destruct (txt_source_url _) as [url | e]; [| constructor].
    destruct (negb (truthy (clean_text_basic _))); [constructor |].
    simpl. eapply (@chunk_loop_nodup cfg _
                     (fun idx => doc_id ++ u "_txt_" ++ str_of_nat idx)).
    - intros a b E. now apply tagged_chunk_id_inj in E.
    - reflexivity. }
  destruct (str_eqb file_ext (u "docx")); [| constructor].
  unfold process_docx.
  destruct (Document env) as [open_document |]; [| constructor].
  destruct (open_document file_path) as [paragraphs | e]; [| constructor].
  destruct (negb (truthy (clean_text_basic _))); [constructor |].
  simpl. eapply (@chunk_loop_nodup cfg _
                   (fun idx => doc_id ++ u "_docx_" ++ str_of_nat idx)).
  - intros a b E. now apply tagged_chunk_id_inj in E.
  - reflexivity.
Qed.

Lemma chunk_id_unique_in_file_witness :
  NoDup (map chunk_id
           (fst (dispatch table_env default_config (u "csv")
                   (u "/data/raw/log.csv") (u "log.csv")
                   (u "7b7eda11b9863f5f6c7177c82d7b4aeb")))).
Proof.
  apply (@chunk_id_unique_in_file table_env default_config (u "csv")
           (u "/data/raw/log.csv") (u "log.csv")
           (u "7b7eda11b9863f5f6c7177c82d7b4aeb")).
  intros df H. exists [0%Z]. split.
  - vm_compute in H. injection H as <-. reflexivity.
  - constructor; [intros [] | constructor].
Defined.

(* ================================================================== *)
(** * More on process_excel *)
(* ================================================================== *)

Lemma row_parts_blank (row : list (str * str)) :
  existsb cell_has_text row = false -> row_parts row = [].
Proof.
  unfold row_parts. induction row as [| [col val] row IH]; simpl;
    [reflexivity |].
  intros H. apply orb_false_iff in H. destruct H as [Hc Hr].
  unfold cell_has_text in Hc. simpl in Hc. rewrite Hc. simpl. auto.
Qed.

(** Every record of a table comes from one row that has a cell with
    text: [page_num] is [index + 1] for the index label of that row,
    which is the 1-based position of the row when the frame has the
    default index; the content is the cleaned text of that row alone; a
    row of blank cells gives no record, and rows are never merged or
    split. *)
Theorem process_excel_rows (env : Env) (file_path file_name doc_id : str)
    (df : DataFrame) (r : ChunkRecord) :
  read_table env file_path file_name = Return df ->
  In r (fst (process_excel env file_path file_name doc_id)) ->
  exists k index row,
    nth_error df k = Some (index, row)
    /\ add_one index = Return (page_num r)
    /\ (default_index df -> page_num r = Int (Z.of_nat (k + 1)))
    /\ existsb cell_has_text row = true
    /\ content r = clean_text_basic (join_with (u " ") (row_parts row))
    /\ r = excel_record file_name doc_id (page_num r) (content r).
Proof.
  unfold read_table, process_excel. intros ->. intros H.
  apply excel_rows_In in H.
  destruct H as [[] | [k [index [row [row_num [Hk [Ha [E ->]]]]]]]].
  exists k, index, row. cbn [page_num content excel_record].
  split; [exact Hk |]. split; [exact Ha |]. split; [| split; [| auto]].
  - intros Hdef.
    assert (Hi : nth_error (map fst df) k = Some index)
      by (now apply (map_nth_error fst) in Hk).
    assert (Hlt : k < length df) by (apply nth_error_Some; congruence).
    rewrite Hdef, nth_error_map in Hi.
    destruct (nth_error (seq 0 (length df)) k) as [j |] eqn:Es;
      [| discriminate Hi].
    apply (nth_error_nth _ _ 0) in Es. rewrite seq_nth in Es by exact Hlt.
    simpl in Es. subst j. simpl in Hi. injection Hi as <-.
    simpl in Ha. injection Ha as <-. f_equal. lia.
  - destruct (existsb cell_has_text row) eqn:Ec; [reflexivity |].
    rewrite (row_parts_blank row Ec) in E. discriminate E.
Qed.

Lemma process_excel_rows_witness :
  exists k index row,
    nth_error one_row_table k = Some (index, row)
    /\ add_one index = Return (page_num table_record)
    /\ (default_index one_row_table ->
        page_num table_record = Int (Z.of_nat (k + 1)))
    /\ existsb cell_has_text row = true
    /\ content table_record
       = clean_text_basic (join_with (u " ") (row_parts row))
    /\ table_record
       = excel_record (u "log.csv") (u "7b7eda11b9863f5f6c7177c82d7b4aeb")
           (page_num table_record) (content table_record).
Proof.
  apply (@process_excel_rows table_env (u "/data/raw/log.csv")
           (u "log.csv") (u "7b7eda11b9863f5f6c7177c82d7b4aeb")
           one_row_table table_record).
  - vm_compute. reflexivity.
  - vm_compute. left. reflexivity.
Defined.

(* ================================================================== *)
(** * More on process_txt *)
(* ================================================================== *)

Lemma clean_text_basic_spaces (text : str) :
  forallb isspace text = true -> clean_text_basic text = [].
Proof.
  intros H. unfold clean_text_basic.
  destruct (negb (truthy text)); [reflexivity |].
  apply strip_spaces. apply forallb_forall. intros c Hc.
  apply filter_In in Hc. destruct Hc as [Hc _].
  pose proof (re_sub_spaces_blank text false H) as Hb.
  rewrite forallb_forall in Hb. now apply Hb.
Qed.

Lemma islinebreak_isspace (c : char) :
  islinebreak c = true -> isspace c = true.
Proof.
  unfold islinebreak; cbn [in_ranges]; intros H.
  repeat (apply orb_true_iff in H; destruct H as [H | H]);
    try discriminate H;
    apply andb_true_iff in H; destruct H as [H1 H2];
    apply N.leb_le in H1, H2;
    match type of H1 with
    | (?lo <= _)%N =>
        match type of H2 with
        | (_ <= ?hi)%N =>
            apply (@in_ranges_sub space_table lo hi c);
              [vm_compute; reflexivity | lia]
        end
    end.
Qed.

Lemma splitlines_from_cover (n : nat) :
  forall (s line : str) (c : char),
    length s <= n -> In c (line ++ s) ->
    islinebreak c = true
    \/ exists l, In l (splitlines_from line s) /\ In c l.
Proof.
  induction n as [| n IH]; intros s line c Hn Hc.
  - destruct s as [| x s]; [| simpl in Hn; lia].
    rewrite app_nil_r in Hc. right. exists line. simpl.
    destruct line; [destruct Hc |]. simpl. auto.
  - destruct s as [| x s].
    + rewrite app_nil_r in Hc. right. exists line. simpl.
      destruct line; [destruct Hc |]. simpl. auto.
    + simpl in Hn. cbn [splitlines_from].
      destruct (islinebreak x) eqn:Hx.
      * apply in_app_or in Hc. destruct Hc as [Hc | [<- | Hc]].
        -- right. exists line. split; [| exact Hc].
           destruct s as [| y s]; [now left |].
           destruct ((x =? 13)%N && (y =? 10)%N); now left.
        -- now left.
        -- destruct s as [| y s]; [destruct Hc |].
           destruct ((x =? 13)%N && (y =? 10)%N) eqn:Hxy.
           ++ destruct Hc as [<- | Hc].
              ** left. apply andb_true_iff in Hxy. destruct Hxy as [_ Hy].
                 apply N.eqb_eq in Hy. subst y. vm_compute. reflexivity.
              ** destruct (IH s [] c) as [H | [l [Hl Hcl]]];
                   [simpl in Hn; lia | exact Hc | now left |].
                 right. exists l. split; [now right | exact Hcl].
           ++ destruct (IH (y :: s) [] c) as [H | [l [Hl Hcl]]];
                [lia | exact Hc | now left |].
              right. exists l. split; [now right | exact Hcl].
      * apply (IH s (line ++ [x]) c); [lia |].
        rewrite <- app_assoc. exact Hc.
Qed.

Lemma strip_empty_spaces (s : str) :
  strip s = [] -> forallb isspace s = true.
Proof.
  intros E. destruct (strip_split s) as [a [b [Es [Ha Hb]]]].
  rewrite E in Es. simpl in Es. rewrite Es, forallb_app, Ha, Hb.
  reflexivity.
Qed.

Lemma nonblank_lines_empty (raw_text : str) :
  nonblank_lines raw_text = [] -> forallb isspace raw_text = true.
Proof.
  unfold nonblank_lines. intros E. apply map_eq_nil in E.
  apply forallb_forall. intros c Hc.
  destruct (@splitlines_from_cover (length raw_text) raw_text [] c)
    as [H | [l [Hl Hcl]]]; [lia | exact Hc | now apply islinebreak_isspace |].
  fold (splitlines raw_text) in Hl.
  assert (Hf : truthy (strip (rstrip l)) = false).
  { destruct (truthy (strip (rstrip l))) eqn:Ht; [| reflexivity].
    assert (Hin : In (rstrip l)
                    (filter (fun ln => truthy (strip ln))
                       (map rstrip (splitlines raw_text)))).
    { apply filter_In. split; [now apply in_map | exact Ht]. }
    rewrite E in Hin. destruct Hin. }
  assert (Hs : forallb isspace (rstrip l) = true).
  { apply strip_empty_spaces. now destruct (strip (rstrip l)). }
  destruct (rstrip_split l) as [b [El Hb]].
  assert (Hl' : forallb isspace l = true).
  { rewrite El, forallb_app, Hs, Hb. reflexivity. }
  rewrite forallb_forall in Hl'. now apply Hl'.
Qed.

Lemma nonblank_lines_In (raw_text ln : str) :
  In ln (nonblank_lines raw_text) -> ln <> [] /\ strip ln = ln.
Proof.
  unfold nonblank_lines. intros H. apply in_map_iff in H.
  destruct H as [x [<- Hx]]. apply filter_In in Hx. destruct Hx as [_ Hx].
  split; [now destruct (strip x) | apply strip_idem].
Qed.

Lemma startswith_In (s prefix : str) (c : char) :
  startswith s prefix = true -> In c prefix -> In c s.
Proof.
  revert s. induction prefix as [| p prefix IH]; intros s H Hc;
    [destruct Hc |].
  destruct s as [| x s]; simpl in H; [discriminate H |].
  apply andb_true_iff in H. destruct H as [Hx Hs].
  apply N.eqb_eq in Hx. subst x.
  destruct Hc as [<- | Hc]; [now left | right; now apply IH].
Qed.

Lemma lower_colon (s : str) : In COLON (lower s) -> In COLON s.
Proof.
  unfold lower. rewrite in_flat_map. intros [c [Hc H]].
  replace COLON with c; [exact Hc |].
  unfold lower_char in H.
  destruct (((0x41 <=? c) && (c <=? 0x5A))%N) eqn:E1.
  - apply andb_true_iff in E1. destruct E1 as [E1 _].
    apply N.leb_le in E1. destruct H as [H | []].
    unfold COLON in H. lia.
  - destruct (c =? 0x130)%N.
    + destruct H as [H | [H | []]]; discriminate H.
    + destruct (c =? 0x212A)%N.
      * destruct H as [H | []]; discriminate H.
      * destruct H as [H | []]. exact H.
Qed.

Lemma split_once_second_In (sep : char) (s : str) :
  In sep s -> exists t, split_once_second sep s = Return t.
Proof.
  induction s as [| c s IH]; [intros [] |].
  intros H. simpl. destruct (c =? sep)%N eqn:E; [now exists s |].
  destruct H as [H | H]; [| now apply IH].
  subst c. now rewrite N.eqb_refl in E.
Qed.

Lemma tagged_line_split (ln tag : str) :
  In COLON tag -> startswith (lower ln) tag = true ->
  exists t, split_once_second COLON ln = Return t.
Proof.
  intros Ht H. apply split_once_second_In, lower_colon.
  exact (startswith_In _ _ COLON H Ht).
Qed.

Lemma txt_title_returns (lines : list str) :
  (forall ln, In ln lines -> ln <> [] /\ strip ln = ln) ->
  exists title,
    txt_title lines = Return title /\ title <> [] /\ strip title = title
    /\ (forall line0 rest, lines = line0 :: rest ->
        title = line0
        \/ (startswith (lower line0) (u "title:") = true
            /\ exists t, split_once_second COLON line0 = Return t
                         /\ title = strip t)).
Proof.
  intros Hl. destruct lines as [| line0 rest].
  - exists (u "未知标题").
    split; [reflexivity |]. split; [vm_compute; discriminate |].
    split; [vm_compute; reflexivity |].
    intros ? ? H. discriminate H.
  - destruct (Hl line0 (or_introl eq_refl)) as [Hne Hst].
    cbn [txt_title].
    destruct (startswith (lower line0) (u "title:")) eqn:E.
    + destruct (@tagged_line_split line0 (u "title:")) as [t Ht];
        [vm_compute; tauto | exact E |].
      rewrite Ht. destruct (strip t) as [| c t'] eqn:Et.
      * exists line0. cbn [truthy].
        split; [reflexivity |]. split; [exact Hne |]. split; [exact Hst |].
        intros ? ? H. inversion H; subst. now left.
      * exists (c :: t'). cbn [truthy].
        split; [reflexivity |]. split; [discriminate |].
        split; [rewrite <- Et; apply strip_idem |].
        intros ? ? H. inversion H; subst. right. split; [exact E |].
        exists t. auto.
    + exists line0.
      split; [reflexivity |]. split; [exact Hne |]. split; [exact Hst |].
      intros ? ? H. inversion H; subst. now left.
Qed.

Lemma txt_source_url_returns (lines : list str) :
  exists url, txt_source_url lines = Return url.
Proof.
  induction lines as [| ln lines IH]; simpl; [now exists [] |].
  destruct (is_url_line ln) eqn:E; [| exact IH].
  destruct (@tagged_line_split ln (u "url:")) as [t Ht];
    [vm_compute; tauto | exact E |].
  rewrite Ht. now exists (strip t).
Qed.

(** Every record of a text file has a title that is not empty and has no
    surrounding whitespace; the title comes from the first non-blank
    line of the file (the line itself, or what follows its "title:"
    tag), never from the default, and the section label is its first 50
    characters. *)
Theorem process_txt_title (env : Env) (cfg : Config)
    (file_path file_name doc_id : str) (r : ChunkRecord) :
  In r (fst (process_txt env cfg file_path file_name doc_id)) ->
  title r <> [] /\ strip (title r) = title r
  /\ section_title r = firstn 50 (title r)
  /\ exists raw_text line0 rest,
       read_text env file_path = Return raw_text
       /\ nonblank_lines raw_text = line0 :: rest
       /\ (title r = line0
           \/ (startswith (lower line0) (u "title:") = true
               /\ exists t, split_once_second COLON line0 = Return t
                            /\ title r = strip t)).
Proof.
  unfold process_txt.
  destruct (read_text env file_path) as [raw_text | e]; [| intros []].
  destruct (negb (truthy raw_text)); [intros [] |].
  fold (nonblank_lines raw_text).
  destruct (@txt_title_returns (nonblank_lines raw_text))
    as [t [Ht [Hne [Hst Hcase]]]]; [apply nonblank_lines_In |].
  rewrite Ht.
  destruct (txt_source_url _) as [url | e]; [| intros []].
  destruct (nonblank_lines raw_text) as [| line0 rest] eqn:El.
  - cbn [txt_body_lines enumerate enumerate_from flat_map truthy].
    rewrite (clean_text_basic_spaces raw_text (nonblank_lines_empty _ El)).
    intros [].
  - destruct (negb (truthy (clean_text_basic _))); [intros [] |].
    simpl. intros H. apply chunk_loop_In in H.
    destruct H as [idx [c [_ [_ ->]]]]. cbn [title section_title txt_record].
    split; [exact Hne |]. split; [exact Hst |].
    split; [destruct t; [now elim Hne | reflexivity] |].
    exists raw_text, line0, rest.
    split; [reflexivity |]. split; [exact El |].
    exact (Hcase line0 rest eq_refl).
Qed.

Lemma process_txt_title_witness :
  title article_record <> []
  /\ strip (title article_record) = title article_record
  /\ section_title article_record = firstn 50 (title article_record)
  /\ exists raw_text line0 rest,
       read_text article_env (u "/data/raw/a1.txt") = Return raw_text
       /\ nonblank_lines raw_text = line0 :: rest
       /\ (title article_record = line0
           \/ (startswith (lower line0) (u "title:") = true
               /\ exists t, split_once_second COLON line0 = Return t
                            /\ title article_record = strip t)).
Proof.
  apply (@process_txt_title article_env default_config
           (u "/data/raw/a1.txt") (u "a1.txt") (u "0a") article_record).
  vm_compute. left. reflexivity.
Defined.

(** The text adapter reports an error only when reading the file fails:
    the parsing of the header never raises, since a line with the tag
    "title:" or "url:" has a colon to split at. *)
Theorem process_txt_log (env : Env) (cfg : Config)
    (file_path file_name doc_id : str) :
  snd (process_txt env cfg file_path file_name doc_id)
  = match read_text env file_path with
    | Return _ => []
    | Raise e => [TxtError file_name e]
    end.
Proof.
  unfold process_txt.
  destruct (read_text env file_path) as [raw_text | e]; [| reflexivity].
  destruct (negb (truthy raw_text)); [reflexivity |].
  fold (nonblank_lines raw_text).
  destruct (@txt_title_returns (nonblank_lines raw_text))
    as [t [Ht _]]; [apply nonblank_lines_In |].
  rewrite Ht.
  destruct (txt_source_url_returns (firstn 12 (nonblank_lines raw_text)))
    as [url Hu].
  rewrite Hu.
  destruct (negb (truthy (clean_text_basic _))); reflexivity.
Qed.

(* ================================================================== *)
(** * The files of 02_download_details.py read by process_txt *)
(* ================================================================== *)

Lemma splitlines_from_app (s t line : str) :
  no_linebreak s = true ->
  splitlines_from line (s ++ t) = splitlines_from (line ++ s) t.
Proof.
  unfold no_linebreak. revert line.
  induction s as [| c s IH]; intros line H; simpl in *.
  - now rewrite app_nil_r.
  - apply andb_true_iff in H. destruct H as [Hc Hs].
    apply negb_true_iff in Hc. rewrite Hc, (IH (line ++ [c]) Hs).
    now rewrite <- app_assoc.
Qed.

Lemma splitlines_from_newline (line r : str) :
  splitlines_from line (NEWLINE :: r) = line :: splitlines_from [] r.
Proof.
  cbn [splitlines_from].
  replace (islinebreak NEWLINE) with true by (vm_compute; reflexivity).
  destruct r as [| c r]; [reflexivity |].
  replace (NEWLINE =? 13)%N with false by (vm_compute; reflexivity).
  reflexivity.
Qed.

Lemma lstrip_snoc (a : str) (c : char) :
  lstrip (a ++ [c])
  = if truthy (lstrip a) then lstrip a ++ [c] else lstrip [c].
Proof.
  induction a as [| x a IH]; [reflexivity |].
  cbn [app lstrip]. destruct (isspace x); [exact IH | reflexivity].
Qed.

Lemma rstrip_cons (c : char) (r : str) :
  rstrip (c :: r)
  = if truthy (rstrip r) || negb (isspace c) then c :: rstrip r else [].
Proof.
  unfold rstrip. cbn [rev]. rewrite lstrip_snoc.
  destruct (lstrip (rev r)) as [| x l].
  - cbn [truthy rev orb lstrip]. destruct (isspace c); reflexivity.
  - assert (T : truthy (rev (x :: l)) = true)
      by (cbn [rev]; destruct (rev l); reflexivity).
    rewrite T. cbn [truthy orb]. rewrite rev_app_distr. reflexivity.
Qed.

Lemma rstrip_cons_nonspace (c : char) (r : str) :
  isspace c = false -> rstrip (c :: r) = c :: rstrip r.
Proof. intros H. now rewrite rstrip_cons, H, orb_true_r. Qed.

Lemma rstrip_idem (s : str) : rstrip (rstrip s) = rstrip s.
Proof. unfold rstrip. now rewrite rev_involutive, lstrip_idem. Qed.

Lemma lstrip_rstrip (s : str) : lstrip (rstrip s) = rstrip (lstrip s).
Proof.
  induction s as [| c s IH]; [reflexivity |].
  rewrite rstrip_cons. cbn [lstrip]. destruct (isspace c) eqn:Hc.
  - rewrite <- IH, orb_false_r.
    destruct (rstrip s) as [| x l] eqn:E; cbn [truthy]; [reflexivity |].
    cbn [lstrip]. now rewrite Hc.
  - rewrite orb_true_r, (@rstrip_cons_nonspace c s Hc). cbn [lstrip].
    now rewrite Hc.
Qed.

Lemma strip_rstrip (s : str) : strip (rstrip s) = strip s.
Proof. unfold strip. now rewrite lstrip_rstrip, rstrip_idem. Qed.

Lemma rstrip_stripped (s : str) : strip s = s -> rstrip s = s.
Proof. intros H. rewrite <- H at 1. unfold strip. now rewrite rstrip_idem. Qed.

Lemma url_codes : u "URL: " = [0x55; 0x52; 0x4C; 0x3A; 0x20]%N.
Proof. vm_compute. reflexivity. Qed.

Lemma url_line_strip (link : str) :
  strip (u "URL: " ++ link)
  = [0x55; 0x52; 0x4C; 0x3A]%N ++ rstrip (0x20%N :: link).
Proof.
  rewrite url_codes. unfold strip. cbn [app lstrip].
  replace (isspace 85%N) with false by (vm_compute; reflexivity).
  rewrite !rstrip_cons_nonspace by (vm_compute; reflexivity).
  reflexivity.
Qed.

Lemma url_line_tag (link : str) :
  is_url_line (strip (u "URL: " ++ link)) = true.
Proof.
  rewrite url_line_strip. generalize (rstrip (0x20%N :: link)). intros x.
  unfold is_url_line, lower. cbn [app flat_map].
  replace (lower_char 85%N) with [117%N] by (vm_compute; reflexivity).
  replace (lower_char 82%N) with [114%N] by (vm_compute; reflexivity).
  replace (lower_char 76%N) with [108%N] by (vm_compute; reflexivity).
  replace (lower_char 58%N) with [58%N] by (vm_compute; reflexivity).
  replace (u "url:") with [117; 114; 108; 58]%N by (vm_compute; reflexivity).
  cbn [app startswith]. rewrite !N.eqb_refl.
  destruct (flat_map lower_char x); reflexivity.
Qed.

Lemma url_line_value (link : str) :
  txt_source_url [strip (u "URL: " ++ link)] = Return (strip link).
Proof.
  cbn [txt_source_url]. rewrite url_line_tag, url_line_strip.
  replace (split_once_second COLON
             ([0x55; 0x52; 0x4C; 0x3A]%N ++ rstrip (0x20%N :: link)))
    with (Return (rstrip (0x20%N :: link))).
  - rewrite strip_rstrip. unfold strip. cbn [lstrip].
    replace (isspace 32%N) with true by (vm_compute; reflexivity).
    reflexivity.
  - generalize (rstrip (0x20%N :: link)). intros x.
    vm_compute. reflexivity.
Qed.

Lemma nonblank_cons (x : str) (l : list str) :
  map strip (filter (fun ln => truthy (strip ln)) (map rstrip (x :: l)))
  = (if truthy (strip x) then [strip x] else [])
    ++ map strip (filter (fun ln => truthy (strip ln)) (map rstrip l)).
Proof.
  cbn [map filter]. rewrite strip_rstrip.
  destruct (truthy (strip x)); [| reflexivity].
  cbn [map app]. now rewrite strip_rstrip.
Qed.

Lemma nonblank_lines_saved_text (final_title link content : str) :
  final_title <> [] -> strip final_title = final_title ->
  no_linebreak final_title = true -> no_linebreak link = true ->
  nonblank_lines (saved_text final_title link content)
  = final_title :: repeat 0x3D%N 20 :: strip (u "URL: " ++ link)
      :: nonblank_lines content.
Proof.
  intros Hne Hst Ht Hl.
  assert (Hsplit : splitlines (saved_text final_title link content)
                   = final_title :: repeat 0x3D%N 20 :: []
                       :: (u "URL: " ++ link) :: [] :: splitlines content).
  { unfold saved_text, splitlines.
    rewrite <- !app_assoc. cbn [app].
    rewrite (splitlines_from_app final_title _ [] Ht).
    rewrite splitlines_from_newline.
    rewrite (splitlines_from_app (repeat 0x3D%N 20))
      by (vm_compute; reflexivity).
    rewrite !splitlines_from_newline.
    rewrite (app_assoc (u "URL: ") link).
    rewrite (splitlines_from_app (u "URL: " ++ link)).
    - rewrite !splitlines_from_newline. reflexivity.
    - unfold no_linebreak in *. rewrite forallb_app, Hl, andb_true_r.
      vm_compute. reflexivity. }
  unfold nonblank_lines. rewrite Hsplit. rewrite !nonblank_cons.
  rewrite Hst, strip_nil.
  replace (truthy final_title) with true
    by (destruct final_title; [contradiction | reflexivity]).
  replace (strip (repeat 0x3D%N 20)) with (repeat 0x3D%N 20)
    by (vm_compute; reflexivity).
  replace (truthy (strip (u "URL: " ++ link))) with true
    by (rewrite url_line_strip; reflexivity).
  reflexivity.
Qed.

Lemma txt_body_lines_from (k : nat) (lines : list str) :
  flat_map
    (fun '(idx, ln) =>
       if idx =? 0 then []
       else if is_rule_line ln then []
       else if is_url_line ln then []
       else [ln])
    (enumerate_from (S k) lines)
  = filter is_body_line lines.
Proof.
  revert k. induction lines as [| ln lines IH]; intros k; [reflexivity |].
  cbn [enumerate_from flat_map filter Nat.eqb]. rewrite IH.
  unfold is_body_line.
  destruct (is_rule_line ln); [reflexivity |].
  destruct (is_url_line ln); reflexivity.
Qed.

(** A file saved by 02_download_details.py is read back by the text
    adapter as written: when the title is one non-blank stripped line
    that does not itself begin with the tag "title:" or "url:", and the
    link has no line break, every record has that title and the stripped
    link as [source_url], and the chunked text is made of the body lines
    of the content alone; the header lines never reach it. *)
Theorem process_txt_saved_text (env : Env) (cfg : Config)
    (file_path file_name doc_id final_title link content : str) :
  read_text env file_path = Return (saved_text final_title link content) ->
  final_title <> [] -> strip final_title = final_title ->
  no_linebreak final_title = true -> no_linebreak link = true ->
  startswith (lower final_title) (u "title:") = false ->
  is_url_line final_title = false ->
  filter is_body_line (nonblank_lines content) <> [] ->
  process_txt env cfg file_path file_name doc_id
  = (chunk_loop cfg
       (txt_record file_name doc_id final_title (strip link))
       (semantic_chunking cfg
          (clean_text_basic
             (join_with [NEWLINE]
                (filter is_body_line (nonblank_lines content))))
          (CHUNK_SIZE cfg)),
     []).
Proof.
  intros Hread Hne Hst Ht Hl Htag Hurl Hbody.
  unfold process_txt. rewrite Hread.
  replace (truthy (saved_text final_title link content)) with true
    by (unfold saved_text; destruct final_title;
        [contradiction | reflexivity]).
  cbn [negb]. fold (nonblank_lines (saved_text final_title link content)).
  rewrite (@nonblank_lines_saved_text final_title link content Hne Hst Ht Hl).
  cbn [txt_title]. rewrite Htag.
  cbn [firstn txt_source_url]. rewrite Hurl.
  replace (is_url_line (repeat 0x3D%N 20)) with false
    by (vm_compute; reflexivity).
  rewrite url_line_tag.
  pose proof (url_line_value link) as Hv. cbn [txt_source_url] in Hv.
  rewrite url_line_tag in Hv.
  destruct (split_once_second COLON (strip (u "URL: " ++ link)))
    as [t | e]; [| discriminate Hv].
  injection Hv as Hv. rewrite Hv.
  unfold txt_body_lines, enumerate.
  cbn [enumerate_from flat_map Nat.eqb].
  replace (is_rule_line (repeat 0x3D%N 20)) with true
    by (vm_compute; reflexivity).
  rewrite url_line_tag, txt_body_lines_from.
  replace (if is_rule_line (strip (u "URL: " ++ link))
           then [] else @nil str) with (@nil str)
    by (destruct (is_rule_line _); reflexivity).
  cbn [app].
  destruct (filter is_body_line (nonblank_lines content)) as [| b body]
    eqn:Eb; [now elim Hbody |].
  cbn [truthy].
  destruct (clean_text_basic (join_with [NEWLINE] (b :: body)))
    as [| x cleaned]; reflexivity.
Qed.

Lemma process_txt_saved_text_witness :
  process_txt article_env default_config (u "/data/raw/a1.txt")
    (u "a1.txt") (u "0a")
  = (chunk_loop default_config
       (txt_record (u "a1.txt") (u "0a") article_title (strip article_link))
       (semantic_chunking default_config
          (clean_text_basic
             (join_with [NEWLINE]
                (filter is_body_line (nonblank_lines article_content))))
          (CHUNK_SIZE default_config)),
     [])
  /\ chunk_loop default_config
       (txt_record (u "a1.txt") (u "0a") article_title (strip article_link))
       (semantic_chunking default_config
          (clean_text_basic
             (join_with [NEWLINE]
                (filter is_body_line (nonblank_lines article_content))))
          (CHUNK_SIZE default_config))
     = [article_record].
Proof.
  split.
  - apply (@process_txt_saved_text article_env default_config
             (u "/data/raw/a1.txt") (u "a1.txt") (u "0a")
             article_title article_link article_content);
      try (vm_compute; reflexivity); vm_compute; discriminate.
  - vm_compute. reflexivity.
Defined.

(* ================================================================== *)
(** * More on generate_doc_id and main *)
(* ================================================================== *)

Lemma le_bytes_length (k : nat) (n : N) : length (MD5.le_bytes k n) = k.
Proof.
  revert n. induction k as [| k IH]; intros n; simpl; [reflexivity |].
  now rewrite IH.
Qed.

Lemma le_bytes_bound (k : nat) (n b : N) :
  In b (MD5.le_bytes k n) -> (b < 256)%N.
Proof.
  revert n. induction k as [| k IH]; intros n; simpl; [intros [] |].
  intros [<- | H]; [apply N.mod_lt; discriminate | exact (IH _ H)].
Qed.

Lemma hex_digit_ok (n : N) :
  (n < 16)%N -> is_hex_digit (MD5.hex_digit n) = true.
Proof.
  intros H. unfold is_hex_digit, MD5.hex_digit.
  destruct (n <? 10)%N eqn:E.
  - apply N.ltb_lt in E. apply orb_true_iff. left.
    apply andb_true_iff. split; apply N.leb_le; lia.
  - apply N.ltb_ge in E. apply orb_true_iff. right.
    apply andb_true_iff. split; apply N.leb_le; lia.
Qed.

Lemma hexdigest_format (msg : list N) :
  len (MD5.hexdigest msg) = 32
  /\ forallb is_hex_digit (MD5.hexdigest msg) = true.
Proof.
  unfold MD5.hexdigest, MD5.digest.
  destruct (fold_left MD5.compress _ _) as [[[a b] c] d].
  assert (Hb : forall x,
             In x (MD5.le_bytes 4 a ++ MD5.le_bytes 4 b
                   ++ MD5.le_bytes 4 c ++ MD5.le_bytes 4 d) ->
             (x < 256)%N).
  { intros x Hx. repeat (apply in_app_or in Hx; destruct Hx as [Hx | Hx]);
      exact (le_bytes_bound _ _ _ Hx). }
  assert (Hl : length (MD5.le_bytes 4 a ++ MD5.le_bytes 4 b
                       ++ MD5.le_bytes 4 c ++ MD5.le_bytes 4 d) = 16).
  { rewrite !length_app, !le_bytes_length. reflexivity. }
  revert Hb Hl.
  generalize (MD5.le_bytes 4 a ++ MD5.le_bytes 4 b
              ++ MD5.le_bytes 4 c ++ MD5.le_bytes 4 d).
  intros l Hb Hl. split.
  - unfold len.
    assert (H2 : length
                   (flat_map
                      (fun b0 => [MD5.hex_digit (b0 / 16);
                                  MD5.hex_digit (b0 mod 16)]) l)
                 = 2 * length l).
    { clear. induction l as [| x l IH]; [reflexivity |].
      cbn [flat_map app length]. rewrite IH. lia. }
    rewrite H2, Hl. reflexivity.
  - clear Hl. induction l as [| x l IH]; [reflexivity |].
    cbn [flat_map app forallb].
    rewrite IH by (intros y Hy; apply Hb; now right).
    pose proof (Hb x (or_introl eq_refl)) as Hx.
    rewrite !hex_digit_ok; [reflexivity | |].
    + apply N.mod_lt. discriminate.
    + apply N.Div0.div_lt_upper_bound. exact Hx.
Qed.

Lemma encode_char_encodable (c : char) :
  match Utf8.encode_char c with
  | Some _ => encodable c = true
  | None => encodable c = false
  end.
Proof.
  unfold Utf8.encode_char, encodable.
  destruct (c <? 0x80)%N eqn:E1.
  { apply N.ltb_lt in E1.
    replace (c <? 0x110000)%N with true by (symmetry; apply N.ltb_lt; lia).
    replace (0xD800 <=? c)%N with false by (symmetry; apply N.leb_gt; lia).
    reflexivity. }
  destruct (c <? 0x800)%N eqn:E2.
  { apply N.ltb_lt in E2.
    replace (c <? 0x110000)%N with true by (symmetry; apply N.ltb_lt; lia).
    replace (0xD800 <=? c)%N with false by (symmetry; apply N.leb_gt; lia).
    reflexivity. }
  destruct ((0xD800 <=? c) && (c <=? 0xDFFF))%N eqn:E3.
  { now rewrite andb_false_r. }
  rewrite andb_true_r.
  destruct (c <? 0x10000)%N eqn:E4.
  { apply N.ltb_lt in E4. apply N.ltb_lt. lia. }
  destruct (c <? 0x110000)%N; reflexivity.
Qed.

Lemma encode_encodable (s : str) :
  match Utf8.encode s with
  | Some _ => forallb encodable s = true
  | None => forallb encodable s = false
  end.
Proof.
  induction s as [| c s IH]; [reflexivity |].
  cbn [Utf8.encode forallb].
  pose proof (encode_char_encodable c) as Hc.
  destruct (Utf8.encode_char c) as [bs |]; rewrite Hc; [| reflexivity].
  destruct (Utf8.encode s) as [rest |]; exact IH.
Qed.

Lemma generate_doc_id_format_aux (file_name : str) :
  match generate_doc_id file_name with
  | Some id =>
      len id = 32 /\ forallb is_hex_digit id = true
      /\ forallb encodable file_name = true
  | None => forallb encodable file_name = false
  end.
Proof.
  unfold generate_doc_id. pose proof (encode_encodable file_name) as He.
  destruct (Utf8.encode file_name) as [data |]; [| exact He].
  destruct (hexdigest_format data) as [Hl Hh]. auto.
Qed.

(** A document identifier is 32 hexadecimal digits in lower case,
    whatever the length of the name; [generate_doc_id] gives one exactly
    for the names made of Unicode scalar values, and raises on a name
    with a surrogate code point. *)
Theorem generate_doc_id_format (file_name : str) :
  match generate_doc_id file_name with
  | Some id =>
      len id = 32 /\ forallb is_hex_digit id = true
      /\ forallb encodable file_name = true
  | None => forallb encodable file_name = false
  end.
Proof. exact (generate_doc_id_format_aux file_name). Qed.

Lemma main_files_none (env : Env) (cfg : Config) (files : list (str * str)) :
  forall all_data log,
    main_files env cfg files all_data log = None <->
    exists root file_name,
      In (root, file_name) files
      /\ main_file env cfg root file_name = None.
Proof.
  induction files as [| [root file_name] rest IH]; intros all_data log.
  - simpl. split; [discriminate | intros [? [? [[] _]]]].
  - cbn [main_files].
    destruct (main_file env cfg root file_name) as [[records msgs] |] eqn:E.
    + rewrite IH. split.
      * intros [r [f [Hin H]]]. exists r, f. split; [now right | exact H].
      * intros [r [f [[Heq | Hin] H]]].
        -- inversion Heq; subst. rewrite E in H. discriminate H.
        -- exists r, f. auto.
    + split; [| reflexivity]. intros _. exists root, file_name.
      split; [now left | exact E].
Qed.

Lemma main_file_none (env : Env) (cfg : Config) (root file_name : str) :
  main_file env cfg root file_name = None <->
  hashed_file env root file_name = true
  /\ forallb encodable
       (rel_path_of env (os_path_join env root file_name)) = false.
Proof.
  unfold main_file, hashed_file.
  destruct (startswith file_name (u ".")); cbn [negb andb].
  { split; [discriminate | intros [H _]; discriminate H]. }
  destruct (os_path_isdir env (os_path_join env root file_name));
    cbn [negb].
  { split; [discriminate | intros [H _]; discriminate H]. }
  pose proof (generate_doc_id_format_aux
                (rel_path_of env (os_path_join env root file_name))) as H.
  destruct (generate_doc_id _) as [id |].
  - destruct H as [_ [_ H]]. rewrite H.
    split; [discriminate | intros [_ H']; discriminate H'].
  - split; [intros _; split; [reflexivity | exact H] | reflexivity].
Qed.

(** [main] fails as a whole, with no record of any file, exactly when
    the walk meets a file, not hidden and not a directory, whose
    relative path has a code point that UTF-8 cannot encode: the
    exception of [generate_doc_id] is caught nowhere, whatever the
    extension of that file. *)
Theorem main_fails (env : Env) (cfg : Config) :
  main env cfg = None <->
  exists root file_name,
    In (root, file_name) (walked_files env)
    /\ hashed_file env root file_name = true
    /\ forallb encodable
         (rel_path_of env (os_path_join env root file_name)) = false.
Proof.
  unfold main. rewrite main_files_none.
  split; intros [root [file_name [Hin H]]]; exists root, file_name;
    (split; [exact Hin |]).
  - now apply (main_file_none env cfg root file_name) in H.
  - now apply (main_file_none env cfg root file_name).
Qed.

Lemma main_fails_witness :
  main surrogate_env default_config = None
  /\ hashed_file surrogate_env (u "/data/raw")
       [0x61; 0xDCFF; 0x2E; 0x74; 0x78; 0x74]%N = true.
Proof.
  split.
  - apply (proj2 (main_fails surrogate_env default_config)).
    exists (u "/data/raw"), [0x61; 0xDCFF; 0x2E; 0x74; 0x78; 0x74]%N.
    split; [vm_compute; right; left; reflexivity |].
    split; vm_compute; reflexivity.
  - vm_compute. reflexivity.
Defined.

(* ================================================================== *)
(** * The content of a record *)
(* ================================================================== *)

Lemma assemble_chunks_run (cfg : Config) (chunk_size : nat)
    (sentences : list str) (c : str) :
  In c (assemble_chunks cfg chunk_size sentences) ->
  exists g, g <> [] /\ is_infix g sentences /\ c = join g.
Proof.
  rewrite assemble_chunks_groups. intros H. apply in_map_iff in H.
  destruct H as [g [<- Hg]]. exists g.
  apply assemble_groups_In in Hg.
  destruct (group_loop_lengths cfg chunk_size sentences) as [_ [Hne _]].
  destruct (group_loop_runs cfg chunk_size sentences) as [[a Ea] [Hin _]].
  destruct Hg as [Hg | [-> Hg]].
  - split; [now apply Hne |]. split; [now apply Hin | reflexivity].
  - split; [exact Hg |]. split; [| reflexivity].
    exists a, []. now rewrite app_nil_r.
Qed.

Lemma split_sentences_In (text s : str) :
  In s (split_sentences text) ->
  s <> [] /\ strip s = s /\ forall x, In x s -> In x text.
Proof.
  rewrite split_sentences_segments. intros H.
  apply filter_In in H. destruct H as [H Hne].
  apply in_map_iff in H. destruct H as [g [<- Hg]].
  split; [now destruct (strip g) |]. split; [apply strip_idem |].
  intros x Hx. apply strip_incl in Hx.
  pose proof (segments_from_concat text []) as Hc. simpl in Hc.
  rewrite <- Hc. apply in_concat. exists g. split; assumption.
Qed.

Lemma strip_ends (s x : str) (c d : char) :
  isspace c = false -> isspace d = false ->
  c :: s = x ++ [d] -> strip (c :: s) = c :: s.
Proof.
  intros Hc Hd E. unfold strip. cbn [lstrip]. rewrite Hc.
  unfold rstrip. rewrite E, rev_app_distr. cbn [rev app lstrip].
  rewrite Hd. cbn [rev]. now rewrite rev_involutive.
Qed.

Lemma stripped_ends (s : str) :
  s <> [] -> strip s = s ->
  exists c r x d, s = c :: r /\ s = x ++ [d]
                  /\ isspace c = false /\ isspace d = false.
Proof.
  intros Hne Hs.
  destruct s as [| c r]; [now elim Hne |].
  destruct (exists_last Hne) as [x [d E]].
  exists c, r, x, d. split; [reflexivity |]. split; [exact E |]. split.
  - pose proof (lstrip_head (c :: r)) as H1.
    pose proof (rstrip_head (lstrip (c :: r)) H1) as H2.
    fold (strip (c :: r)) in H2. now rewrite Hs in H2.
  - apply (@strip_last (c :: r) x d). now rewrite Hs.
Qed.

Lemma join_stripped (g : list str) :
  g <> [] -> (forall s, In s g -> s <> [] /\ strip s = s) ->
  strip (join g) = join g.
Proof.
  intros Hne Hg. unfold join.
  destruct g as [| s1 g1]; [now elim Hne |].
  destruct (exists_last Hne) as [g2 [s2 E]].
  destruct (Hg s1 (or_introl eq_refl)) as [Hn1 Hs1].
  assert (Hin2 : In s2 (s1 :: g1))
    by (rewrite E; apply in_or_app; right; now left).
  destruct (Hg s2 Hin2) as [Hn2 Hs2].
  destruct (stripped_ends Hn1 Hs1) as [c [r [_ [_ [E1 [_ [Hc _]]]]]]].
  destruct (stripped_ends Hn2 Hs2) as [_ [_ [x [d [_ [E2 [_ Hd]]]]]]].
  assert (Hhead : concat (s1 :: g1) = c :: (r ++ concat g1))
    by (cbn [concat]; now rewrite E1).
  assert (Hlast : concat (s1 :: g1) = (concat g2 ++ x) ++ [d]).
  { rewrite E, concat_app. cbn [concat]. rewrite app_nil_r, E2.
    now rewrite app_assoc. }
  rewrite Hhead in Hlast |- *.
  exact (@strip_ends _ _ c d Hc Hd Hlast).
Qed.

Lemma semantic_chunking_In (cfg : Config) (text : str) (chunk_size : nat)
    (c : str) :
  In c (semantic_chunking cfg text chunk_size) ->
  strip c = c /\ forall x, In x c -> In x text.
Proof.
  unfold semantic_chunking. intros H.
  apply assemble_chunks_run in H. destruct H as [g [Hne [[a [b E]] ->]]].
  assert (Hg : forall s, In s g -> In s (split_sentences text)).
  { intros s Hs. rewrite E. apply in_or_app. right.
    apply in_or_app. now left. }
  split.
  - apply join_stripped; [exact Hne |].
    intros s Hs. destruct (split_sentences_In text s (Hg s Hs)) as [H1 [H2 _]].
    now split.
  - intros x Hx. unfold join in Hx. apply in_concat in Hx.
    destruct Hx as [s [Hs Hx]].
    destruct (split_sentences_In text s (Hg s Hs)) as [_ [_ H3]].
    now apply H3.
Qed.

Lemma chunk_of_cleaned (cfg : Config) (text c : str) :
  In c (semantic_chunking cfg (clean_text_basic text) (CHUNK_SIZE cfg)) ->
  strip c = c /\ forall x, In x c -> In x (clean_text_basic text).
Proof. apply semantic_chunking_In. Qed.

Lemma dispatch_content (env : Env) (cfg : Config)
    (file_ext file_path rel_path doc_id : str) (r : ChunkRecord) :
  In r (fst (dispatch env cfg file_ext file_path rel_path doc_id)) ->
  exists text,
    content r = clean_text_basic text
    \/ In (content r)
         (semantic_chunking cfg (clean_text_basic text) (CHUNK_SIZE cfg)).
Proof.
  unfold dispatch.
  destruct (str_eqb file_ext (u "pdf")).
  { unfold process_pdf.
    destruct (pdfplumber_open env file_path) as [pages | e];
      [| intros []].
    intros H. apply pdf_pages_provenance in H. destruct H as [[] | H].
    destruct H as [k [text [_ [_ [_ [Hc _]]]]]]. exists text. now right. }
  destruct (existsb _ _).
  { unfold process_excel.
    destruct (if endswith rel_path (u ".csv") then _ else _) as [df | e];
      simpl; [| intros []].
    intros H. apply excel_rows_In in H.
    destruct H as [[] | [k [index [row [row_num [_ [_ [_ ->]]]]]]]].
    eexists. left. reflexivity. }
  destruct (str_eqb file_ext (u "txt")).
  { unfold process_txt.
    destruct (read_text env file_path) as [raw_text | e]; [| intros []].
    destruct (negb (truthy raw_text)); [intros [] |].
    destruct (txt_title _) as [title | e]; [| intros []].
    destruct (txt_source_url _) as [url | e]; [| intros []].
    destruct (negb (truthy (clean_text_basic _))); [intros [] |].
    simpl. intros H. apply chunk_loop_In in H.
    destruct H as [idx [c [Hn [_ ->]]]]. eexists. right.
    cbn [content txt_record]. eapply nth_error_In. exact Hn. }
  destruct (str_eqb file_ext (u "docx")); [| intros []].
  unfold process_docx.
  destruct (Document env) as [open_document |]; [| intros []].
  destruct (open_document file_path) as [paragraphs | e]; [| intros []].
  destruct (negb (truthy (clean_text_basic _))); [intros [] |].
  simpl. intros H. apply chunk_loop_In in H.
  destruct H as [idx [c [Hn [_ ->]]]]. eexists. right.
  cbn [content docx_record]. eapply nth_error_In. exact Hn.
Qed.

(** The content of a record, of any format, is plain text: every
    character is printable, the only whitespace in it is U+0020, it has
    no line break and no whitespace at either end.  The text is cleaned
    before it is split, so a line or paragraph end of the source is
    never a sentence boundary for the chunker. *)
Theorem content_plain (env : Env) (cfg : Config)
    (file_ext file_path rel_path doc_id : str) (r : ChunkRecord) :
  In r (fst (dispatch env cfg file_ext file_path rel_path doc_id)) ->
  (forall c, In c (content r) -> isprintable c = true)
  /\ (forall c, In c (content r) -> isspace c = true -> c = 0x20%N)
  /\ (forall c, In c (content r) -> islinebreak c = false)
  /\ strip (content r) = content r.
Proof.
  intros H. apply dispatch_content in H. destruct H as [text H].
  assert (Hin : forall c, In c (content r) -> In c (clean_text_basic text)).
  { destruct H as [-> | H]; [auto |].
    now apply (chunk_of_cleaned cfg text (content r)). }
  assert (Hp : forall c, In c (content r) -> isprintable c = true).
  { intros c Hc. apply (clean_text_basic_incl text). now apply Hin. }
  split; [exact Hp |].
  split; [intros c Hc Hs; exact (isspace_isprintable c Hs (Hp c Hc)) |].
  split.
  - intros c Hc. destruct (islinebreak c) eqn:E; [| reflexivity].
    pose proof (isspace_isprintable c (islinebreak_isspace c E) (Hp c Hc))
      as E2.
    subst c. vm_compute in E. discriminate E.
  - destruct H as [-> | H].
    + unfold clean_text_basic. destruct (negb (truthy text));
        [reflexivity | apply strip_idem].
    + now apply (chunk_of_cleaned cfg text (content r)).
Qed.

Lemma content_plain_witness :
  (forall c, In c (content article_record) -> isprintable c = true)
  /\ (forall c, In c (content article_record) ->
                isspace c = true -> c = 0x20%N)
  /\ (forall c, In c (content article_record) -> islinebreak c = false)
  /\ strip (content article_record) = content article_record.
Proof.
  apply (@content_plain article_env default_config (u "txt")
           (u "/data/raw/a1.txt") (u "a1.txt") (u "0a") article_record).
  vm_compute. left. reflexivity.
Defined.

(* ================================================================== *)
(** * More on semantic_chunking: where the sentences meet *)
(* ================================================================== *)

Lemma split_sentences_marks (text s : str) :
  In s (split_sentences text) ->
  ~ In NEWLINE s
  /\ (forall pre c post,
         s = pre ++ c :: post -> is_terminator c = true -> post = []).
Proof.
  rewrite split_sentences_segments. intros H.
  apply filter_In in H. destruct H as [H Hne].
  apply in_map_iff in H. destruct H as [g [<- Hg]].
  pose proof (segments_from_pieces text [] g eq_refl Hg) as Hshape.
  split.
  - intros Hin. apply in_split in Hin. destruct Hin as [pre [post E]].
    assert (post = [])
      by (apply (@boundary_inside_strip g pre post NEWLINE Hshape E);
          reflexivity).
    subst post. now apply strip_last in E.
  - intros pre c post E Hc.
    apply (@boundary_inside_strip g pre post c Hshape E).
    now apply boundary_of_terminator.
Qed.

Lemma concat_joint (g : list str) :
  (forall s, In s g ->
     s <> [] /\ strip s = s
     /\ forall pre c post,
          s = pre ++ c :: post -> is_terminator c = true -> post = []) ->
  forall pre t x post,
    concat g = pre ++ t :: x :: post -> is_terminator t = true ->
    isspace x = false.
Proof.
  induction g as [| s g IH]; intros Hg pre t x post E Ht.
  - simpl in E. now destruct pre.
  - assert (Hg' : forall s', In s' g ->
               s' <> [] /\ strip s' = s'
               /\ forall pre c post,
                    s' = pre ++ c :: post -> is_terminator c = true ->
                    post = [])
      by (intros s' Hs'; apply Hg; now right).
    cbn [concat] in E. apply app_eq_app in E.
    destruct E as [l [[Es El] | [Ep El]]].
    + destruct l as [| t' l'].
      * simpl in El. apply (IH Hg' [] t x post); [now symmetry | exact Ht].
      * simpl in El. injection El as <- El.
        destruct (Hg s (or_introl eq_refl)) as [_ [_ Hend]].
        pose proof (Hend pre t l' Es Ht) as El'. subst l'.
        simpl in El. destruct g as [| s' g']; [discriminate El |].
        destruct (Hg' s' (or_introl eq_refl)) as [Hn [Hs _]].
        destruct (stripped_ends Hn Hs) as [c [r [_ [_ [E1 [_ [Hc _]]]]]]].
        subst s'. simpl in El. injection El as -> _. exact Hc.
    + apply (IH Hg' l t x post); [exact El | exact Ht].
Qed.

(** The sentences of a chunk are joined with nothing between them: a
    chunk has no newline, and in it a mark 。！？ is never followed by
    whitespace, since the whitespace between two sentences of the text
    is dropped. *)
Theorem semantic_chunking_joints (cfg : Config) (text : str)
    (chunk_size : nat) (c : str) :
  In c (semantic_chunking cfg text chunk_size) ->
  ~ In NEWLINE c
  /\ forall pre t x post,
       c = pre ++ t :: x :: post -> is_terminator t = true ->
       isspace x = false.
Proof.
  unfold semantic_chunking. intros H.
  apply assemble_chunks_run in H. destruct H as [g [Hne [[a [b E]] ->]]].
  assert (Hg : forall s, In s g -> In s (split_sentences text)).
  { intros s Hs. rewrite E. apply in_or_app. right.
    apply in_or_app. now left. }
  split.
  - unfold join. intros Hin. apply in_concat in Hin.
    destruct Hin as [s [Hs Hin]].
    destruct (split_sentences_marks text s (Hg s Hs)) as [Hn _].
    now apply Hn.
  - unfold join. apply concat_joint. intros s Hs.
    destruct (split_sentences_In text s (Hg s Hs)) as [H1 [H2 _]].
    destruct (split_sentences_marks text s (Hg s Hs)) as [_ H3].
    split; [exact H1 |]. split; [exact H2 | exact H3].
Qed.

Lemma semantic_chunking_joints_witness :
  ~ In NEWLINE (u "你好。世界！剩下")
  /\ forall pre t x post,
       u "你好。世界！剩下" = pre ++ t :: x :: post ->
       is_terminator t = true -> isspace x = false.
Proof.
  apply (@semantic_chunking_joints default_config
           (u "你好。 世界！" ++ NEWLINE :: u "剩下") 500
           (u "你好。世界！剩下")).
  vm_compute. left. reflexivity.
Defined.

(* ================================================================== *)
(** * The crop box of process_pdf (C9) *)
(* ================================================================== *)

Lemma bbox_band (width height : float) :
  bbox width height = (0, height * 0.05, width, height * 0.92)%float.
Proof. reflexivity. Qed.

Lemma crop_in_band (p : pdf_page) :
  crop p (bbox (page_width p) (page_height p))
  = filter (in_band (page_height p)) (page_glyphs p).
Proof. reflexivity. Qed.

Lemma clean_text_basic_chars (text : str) (c : char) :
  In c (clean_text_basic text) -> c = 0x20%N \/ In c text.
Proof.
  unfold clean_text_basic. destruct (negb (truthy text)); [intros [] |].
  intros H. apply strip_incl in H. apply filter_In in H.
  destruct H as [H _]. apply re_sub_spaces_incl in H.
  destruct H as [H | [H _]]; auto.
Qed.

(** Claim C9: for a page of height H the box that process_pdf computes
    is (0, H * 0.05, width, H * 0.92), the products being those of
    binary64 and 0.92 the value of 1 - 0.08 there; the page is cropped to
    that box before its text is extracted, so the content of every
    record of the page is a chunk of the cleaned text of the characters
    that lie between 0.05 H and 0.92 H: a character above or below that
    band is never extracted. *)
Theorem crop_band (env : Env) (cfg : Config)
    (file_path file_name doc_id : str) (pages : list pdf_page)
    (r : ChunkRecord) :
  pdfplumber_open env file_path = Return (map cropped_text pages) ->
  In r (fst (process_pdf env cfg file_path file_name doc_id)) ->
  exists k p,
    nth_error pages k = Some p
    /\ page_num r = Int (Z.of_nat (k + 1))
    /\ bbox (page_width p) (page_height p)
       = (0, page_height p * 0.05, page_width p,
          page_height p * 0.92)%float
    /\ crop p (bbox (page_width p) (page_height p))
       = filter (in_band (page_height p)) (page_glyphs p)
    /\ In (content r)
         (semantic_chunking cfg
            (clean_text_basic
               (map glyph_char
                  (filter (in_band (page_height p)) (page_glyphs p))))
            (CHUNK_SIZE cfg))
    /\ forall c, In c (content r) ->
         c = 0x20%N
         \/ exists g, In g (page_glyphs p)
                      /\ in_band (page_height p) g = true
                      /\ glyph_char g = c.
Proof.
  intros Hopen. unfold process_pdf. rewrite Hopen. intros H.
  apply pdf_pages_provenance in H. destruct H as [[] | H].
  destruct H as [k [text [Hk [_ [Hp [Hc _]]]]]].
  rewrite nth_error_map in Hk.
  destruct (nth_error pages k) as [p |] eqn:Ep; [| discriminate Hk].
  simpl in Hk. injection Hk as Hk.
  exists k, p. split; [exact Ep |]. split; [exact Hp |].
  split; [apply bbox_band |]. split; [apply crop_in_band |].
  assert (Ht : text = map glyph_char
                        (filter (in_band (page_height p)) (page_glyphs p)))
    by (rewrite <- Hk; reflexivity).
  rewrite <- Ht. split; [exact Hc |].
  intros c Hin.
  destruct (semantic_chunking_In cfg _ _ _ Hc) as [_ Hchars].
  apply Hchars, clean_text_basic_chars in Hin.
  destruct Hin as [E | Hin]; [now left | right].
  rewrite Ht in Hin. apply in_map_iff in Hin.
  destruct Hin as [g [Eg Hg]]. apply filter_In in Hg.
  destruct Hg as [Hg Hb]. exists g. auto.
Qed.

Lemma crop_band_witness :
  exists k p,
    nth_error [a4_page] k = Some p
    /\ page_num (pdf_record (u "manual.pdf") (u "id") 1 (u "未知章节") 0
                   (repeat 0x63%N 60)) = Int (Z.of_nat (k + 1))
    /\ bbox (page_width p) (page_height p)
       = (0, page_height p * 0.05, page_width p,
          page_height p * 0.92)%float
    /\ crop p (bbox (page_width p) (page_height p))
       = filter (in_band (page_height p)) (page_glyphs p)
    /\ In (content (pdf_record (u "manual.pdf") (u "id") 1 (u "未知章节") 0
                      (repeat 0x63%N 60)))
         (semantic_chunking default_config
            (clean_text_basic
               (map glyph_char
                  (filter (in_band (page_height p)) (page_glyphs p))))
            (CHUNK_SIZE default_config))
    /\ forall c,
         In c (content (pdf_record (u "manual.pdf") (u "id") 1
                          (u "未知章节") 0 (repeat 0x63%N 60))) ->
         c = 0x20%N
         \/ exists g, In g (page_glyphs p)
                      /\ in_band (page_height p) g = true
                      /\ glyph_char g = c.
Proof.
  apply (@crop_band a4_env default_config (u "/data/raw/manual.pdf")
           (u "manual.pdf") (u "id") [a4_page]).
  - reflexivity.
  - vm_compute. left. reflexivity.
Defined.
